(** * hooked-form: the form state engine of [src/Form.tsx]

    A shallow embedding of the [Form] component: its React state slots, the
    [isDirty] ref, the operations it hands to its consumers ([change],
    [submit], [resetForm], [validateForm], ...), its three effects and the
    promise chain of [handleSubmit].

    React is modelled as follows.
    - A state setter schedules a value: the closures of the render that is
      running keep reading the values of that render (a [Render]), the
      scheduled ones live in the [World]. Every operation therefore takes
      the render it belongs to; an operation called through the produced
      interface belongs to the last render, the continuation of a
      submission to the render that started it.
    - The updates of one event are applied together, then the component
      renders and the effects whose dependency array changed run, in the
      order they are declared; this repeats until no dependency changes.
    - Dependencies are compared as [Object.is] does: objects by identity.
      The objects held in [values] and [touched] therefore carry an
      identity ([Ident]); [errors] is never a dependency and is a plain tree.
    - A ref ([isDirty]) is written at once and read live.

    The callbacks of the caller are modelled by what they do to the form:
    [validate] is a function of the values, a run of [onSubmit] or of a hook
    is the list of calls it makes on its bag (made during the call) and the
    way it ends. The world keeps a trace of what the form publishes and
    calls, and of the operations it enters.

    The helpers of [./helpers] and the emitter of [./context/emitter] are
    imported by [Form.tsx]: the form is embedded over an interface for the
    helpers, and [PathOps] and [Emitter] give them after the
    specification. *)

From Stdlib Require Import List String Ascii Bool ZArith Arith Lia.
From Stdlib Require Import DecimalString RelationClasses.
Import ListNotations.
Open Scope string_scope.
Open Scope list_scope.
Set Warnings "-register-all".

(** ** JavaScript values *)

(** The value trees the form stores: scalars, objects (key order as
    inserted) and arrays. *)
Inductive Value : Type :=
| VUndef
| VNull
| VBool (b : bool)
| VNum (n : Z)
| VStr (s : string)
| VObj (fields : list (string * Value))
| VArr (items : list Value).

Definition isContainer (t : Value) : bool :=
  match t with
  | VObj _ | VArr _ => true
  | _ => false
  end.

(** Identity of an object: the module constant [EMPTY_OBJ], an object the
    parent passed as a prop, or an object allocated by the form. *)
Inductive Ident : Type :=
| IdEmpty
| IdProp (k : nat)
| IdFresh (k : nat).

Definition Ident_eqb (a b : Ident) : bool :=
  match a, b with
  | IdEmpty, IdEmpty => true
  | IdProp i, IdProp j => Nat.eqb i j
  | IdFresh i, IdFresh j => Nat.eqb i j
  | _, _ => false
  end.

Record Obj : Type := mkObj { ident : Ident; tree : Value }.

(** [const EMPTY_OBJ = {}] *)
Definition EMPTY_OBJ : Obj := mkObj IdEmpty (VObj []).

(** An optional boolean prop, read in a condition. *)
Definition truthy (b : option bool) : bool :=
  match b with
  | Some true => true
  | _ => false
  end.

(** ** The imported helpers

    [set], [deriveKeys] and [deriveInitial] are imported by [Form.tsx] from
    [./helpers]; the form only passes field paths through to them. The
    embedding of the form is written over this interface. *)
Class Helpers : Type := {
  set : Value -> string -> Value -> Value;
  deriveKeys : Value -> list string;
  deriveInitial : Value -> Value -> Value
}.

(** ** Callbacks supplied by the caller *)

(** What a call of [onSubmit] comes to: a plain return, a promise that
    resolves or rejects, an exception, or a promise that never settles. *)
Inductive Outcome : Type :=
| Returns (result : Value)
| Resolves (result : Value)
| Throws (error : Value)
| Rejects (error : Value)
| NeverSettles.

(** The uses a callback makes of [CallBag] / [ErrorBag]. *)
Inductive BagCall : Type :=
| CallSetErrors (e : Value)
| CallSetFormError (msg : string).

(** The uses a callback makes of [SuccessBag]. *)
Inductive SuccessCall : Type :=
| CallResetForm.

(** A run of [onSubmit]: the bag calls made during the call, and how the
    call ends. *)
Record SubmitRun : Type := mkSubmitRun {
  sCalls : list BagCall;
  sOutcome : Outcome
}.

(** A run of a hook: the bag calls it makes, and the exception it ends with,
    if any. *)
Record HookRun (C : Type) : Type := mkHookRun {
  hCalls : list C;
  hThrows : option Value
}.
Arguments mkHookRun {C} _ _.
Arguments hCalls {C} _.
Arguments hThrows {C} _.

(** [FormOptions], without the props forwarded to the [<form>] element. *)
Record FormOptions : Type := mkFormOptions {
  enableReinitialize : option bool;
  initialErrors : option Value;
  initialValues : option Obj;
  onError : option (Value -> HookRun BagCall);
  onSuccess : option (Value -> HookRun SuccessCall);
  onSubmit : Value -> SubmitRun;
  shouldSubmitWhenInvalid : option bool;
  validate : option (Value -> option Value);
  validateOnBlur : option bool;
  validateOnChange : option bool
}.

(** ** State *)

(** The five [useState] slots. *)
Record FormState : Type := mkFormState {
  values : Obj;
  touched : Obj;
  errors : Value;
  isSubmitting : bool;
  formError : option string
}.

(** What the closures of one render see: the props and state of that render,
    and [isDirty.current] as it was read while rendering. *)
Record Render : Type := mkRender {
  rProps : FormOptions;
  rState : FormState;
  rDirty : bool
}.

(** An element of a dependency array. *)
Inductive Dep : Type :=
| DUndef
| DBool (b : bool)
| DRef (i : Ident).

Definition Dep_eqb (a b : Dep) : bool :=
  match a, b with
  | DUndef, DUndef => true
  | DBool x, DBool y => Bool.eqb x y
  | DRef i, DRef j => Ident_eqb i j
  | _, _ => false
  end.

(** The dependency arrays of the three effects. *)
Record Deps : Type := mkDeps {
  submitDeps : Dep;
  reinitDeps : Dep;
  validationDeps : Dep * Dep * Dep
}.

Inductive Settled : Type :=
| Fulfilled (result : Value)
| Rejected (error : Value).

(** What the form does that its environment can see, in order: publishing
    on the emitter and calling the caller's callbacks. [Enter] marks the
    entry into an operation of the form. *)
Inductive Callback : Type :=
| OnSubmit (vals : Value)
| OnSuccess (result : Value)
| OnError (error : Value).

Inductive Op : Type :=
| OpChange (fieldId : string) (value : Value)
| OpResetForm
| OpHandleSubmit.

Inductive Action : Type :=
| Emit (paths : list string)
| Invoke (cb : Callback)
| Enter (op : Op).

(** The live form: current props, scheduled state, the [isDirty] ref, the
    allocation counter, the trace, the promises of [handleSubmit] that have
    not run their continuation yet (each with the render whose closures the
    continuation uses), and the dependency arrays of the last commit. *)
Record World : Type := mkWorld {
  props : FormOptions;
  state : FormState;
  isDirty : bool;
  nextId : nat;
  trace : list Action;
  pending : list (Render * Settled);
  lastDeps : option Deps
}.

(** ** A state monad over the world *)

Definition M (A : Type) : Type := World -> A * World.

Definition ret {A} (a : A) : M A := fun w => (a, w).

Definition bind {A B} (m : M A) (k : A -> M B) : M B :=
  fun w => let (a, w') := m w in k a w'.

Declare Scope form_scope.
Delimit Scope form_scope with form.
Notation "x <- m ;; k" := (bind m (fun x => k))
  (at level 61, m at next level, right associativity) : form_scope.
Notation "m ;; k" := (bind m (fun _ => k))
  (at level 61, right associativity) : form_scope.
Open Scope form_scope.

Definition exec {A} (m : M A) (w : World) : World := snd (m w).

Definition when (b : bool) (m : M unit) : M unit :=
  if b then m else ret tt.

Fixpoint forEach {A} (f : A -> M unit) (l : list A) : M unit :=
  match l with
  | [] => ret tt
  | a :: l' => f a ;; forEach f l'
  end.

Definition modify (f : World -> World) : M unit := fun w => (tt, f w).

Definition withState (f : FormState -> FormState) (w : World) : World :=
  mkWorld (props w) (f (state w)) (isDirty w) (nextId w) (trace w)
          (pending w) (lastDeps w).

(** The setters returned by [React.useState]. *)
Definition setValues (v : Obj) : M unit :=
  modify (withState (fun s =>
    mkFormState v (touched s) (errors s) (isSubmitting s) (formError s))).

Definition setTouched (t : Obj) : M unit :=
  modify (withState (fun s =>
    mkFormState (values s) t (errors s) (isSubmitting s) (formError s))).

Definition setErrors (e : Value) : M unit :=
  modify (withState (fun s =>
    mkFormState (values s) (touched s) e (isSubmitting s) (formError s))).

Definition setSubmitting (b : bool) : M unit :=
  modify (withState (fun s =>
    mkFormState (values s) (touched s) (errors s) b (formError s))).

Definition setFormError (msg : string) : M unit :=
  modify (withState (fun s =>
    mkFormState (values s) (touched s) (errors s) (isSubmitting s) (Some msg))).

(** [isDirty.current = b] *)
Definition setDirty (b : bool) : M unit :=
  modify (fun w => mkWorld (props w) (state w) b (nextId w) (trace w)
                           (pending w) (lastDeps w)).

(** [isDirty.current] *)
Definition readDirty : M bool := fun w => (isDirty w, w).

Definition record (a : Action) : M unit :=
  modify (fun w => mkWorld (props w) (state w) (isDirty w) (nextId w)
                           (trace w ++ [a]) (pending w) (lastDeps w)).

(** [emit(paths)]; [emit(fieldId)] with one string is [emit [fieldId]]. *)
Definition emit (paths : list string) : M unit := record (Emit paths).

(** A new object holding [t]. *)
Definition alloc (t : Value) : M Obj :=
  fun w => (mkObj (IdFresh (nextId w)) t,
            mkWorld (props w) (state w) (isDirty w) (S (nextId w)) (trace w)
                    (pending w) (lastDeps w)).

Definition defer (r : Render) (s : Settled) : M unit :=
  modify (fun w => mkWorld (props w) (state w) (isDirty w) (nextId w) (trace w)
                           (pending w ++ [(r, s)]) (lastDeps w)).

(** [initialValues || EMPTY_OBJ] *)
Definition orEmpty (o : option Obj) : Obj :=
  match o with
  | Some v => v
  | None => EMPTY_OBJ
  end.

Definition dropPending (w : World) : World :=
  mkWorld (props w) (state w) (isDirty w) (nextId w) (trace w)
          (tl (pending w)) (lastDeps w).

Definition withLastDeps (d : option Deps) (w : World) : World :=
  mkWorld (props w) (state w) (isDirty w) (nextId w) (trace w)
          (pending w) d.

(** The parent renders the form again with another [initialValues]. *)
Definition withInitialValues (iv : option Obj) (w : World) : World :=
  let p := props w in
  mkWorld (mkFormOptions (enableReinitialize p) (initialErrors p) iv
             (onError p) (onSuccess p) (onSubmit p)
             (shouldSubmitWhenInvalid p) (validate p) (validateOnBlur p)
             (validateOnChange p))
          (state w) (isDirty w) (nextId w) (trace w) (pending w) (lastDeps w).

(** What the component function reads when it runs. *)
Definition render (w : World) : Render :=
  mkRender (props w) (state w) (isDirty w).

(** How the promise [new Promise(resolve => resolve(onSubmit(..)))] settles:
    a value or a resolved promise fulfils it, an exception thrown in the
    executor or a rejected promise rejects it. *)
Definition settle (o : Outcome) : option Settled :=
  match o with
  | Returns v | Resolves v => Some (Fulfilled v)
  | Throws e | Rejects e => Some (Rejected e)
  | NeverSettles => None
  end.

(** ** The form *)

Section Form.
Context {helpers : Helpers}.

(** [(validate && validate(values)) || EMPTY_OBJ] *)
Definition validationErrors (r : Render) : Value :=
  match validate (rProps r) with
  | Some f =>
      match f (tree (values (rState r))) with
      | Some e => e
      | None => tree EMPTY_OBJ
      end
  | None => tree EMPTY_OBJ
  end.

Definition validateForm (r : Render) : M Value :=
  let validationErrors := validationErrors r in
  setErrors validationErrors ;;
  emit (deriveKeys validationErrors ++ deriveKeys (errors (rState r))) ;;
  ret validationErrors.

Definition resetForm (r : Render) : M unit :=
  record (Enter OpResetForm) ;;
  setDirty false ;;
  setValues (orEmpty (initialValues (rProps r))) ;;
  match initialErrors (rProps r) with
  | Some initialErrors =>
      t <- alloc (deriveInitial initialErrors (VBool true)) ;;
      setTouched t ;;
      setErrors initialErrors
  | None => ret tt
  end ;;
  emit (deriveKeys (tree (orEmpty (initialValues (rProps r))))
        ++ deriveKeys (tree (values (rState r)))).

(** [setFormErr] of [handleSubmit]. *)
Definition setFormErr (err : string) : M unit :=
  setFormError err ;;
  emit ["f"].

(** A callback uses [{ setErrors, setFormError: setFormErr }]. *)
Definition runBagCall (c : BagCall) : M unit :=
  match c with
  | CallSetErrors e => setErrors e
  | CallSetFormError msg => setFormErr msg
  end.

(** A callback uses [{ resetForm }]. *)
Definition runSuccessCall (r : Render) (c : SuccessCall) : M unit :=
  match c with
  | CallResetForm => resetForm r
  end.

(** Is the submission blocked:
    [!shouldSubmitWhenInvalid && deriveKeys(fieldErrors).length > 0] *)
Definition blocked (r : Render) (fieldErrors : Value) : bool :=
  negb (truthy (shouldSubmitWhenInvalid (rProps r)))
  && (0 <? List.length (deriveKeys fieldErrors))%nat.

(** [new Promise(resolve => resolve(onSubmit(values, bag)))] and the
    registration of its [.then(..).catch(..)] chain: [onSubmit] runs at
    once, the chain runs when the promise has settled. *)
Definition invokeSubmit (r : Render) : M unit :=
  record (Invoke (OnSubmit (tree (values (rState r))))) ;;
  let run := onSubmit (rProps r) (tree (values (rState r))) in
  forEach runBagCall (sCalls run) ;;
  match settle (sOutcome run) with
  | Some s => defer r s
  | None => ret tt
  end.

(** [handleSubmit], up to the point where it returns. *)
Definition handleSubmit (r : Render) : M unit :=
  record (Enter OpHandleSubmit) ;;
  fieldErrors <- validateForm r ;;
  t <- alloc (deriveInitial fieldErrors (VBool true)) ;;
  setTouched t ;;
  if blocked r fieldErrors then
    setSubmitting false ;;
    emit ["s"]
  else
    invokeSubmit r.

(** The [.then] callback; it returns what the hook throws, if anything. *)
Definition onFulfilled (r : Render) (result : Value) : M (option Value) :=
  setSubmitting false ;;
  emit ["s"] ;;
  match onSuccess (rProps r) with
  | Some hook =>
      record (Invoke (OnSuccess result)) ;;
      forEach (runSuccessCall r) (hCalls (hook result)) ;;
      ret (hThrows (hook result))
  | None => ret None
  end.

(** The [.catch] callback. *)
Definition onRejected (r : Render) (e : Value) : M (option Value) :=
  setSubmitting false ;;
  emit ["s"] ;;
  match onError (rProps r) with
  | Some hook =>
      record (Invoke (OnError e)) ;;
      forEach runBagCall (hCalls (hook e)) ;;
      ret (hThrows (hook e))
  | None => ret None
  end.

(** The chain [.then(..).catch(..)] run on the settled promise. The result
    is the rejection the promise returned by [handleSubmit] ends with, if it
    is rejected. *)
Definition continuation (r : Render) (s : Settled) : M (option Value) :=
  match s with
  | Fulfilled result =>
      thrown <- onFulfilled r result ;;
      match thrown with
      | Some e => onRejected r e
      | None => ret None
      end
  | Rejected e => onRejected r e
  end.

(** [submit]; [e.preventDefault()] does not concern the form state. *)
Definition submit : M unit :=
  setSubmitting true ;;
  emit ["s"].

Definition change (r : Render) (fieldId : string) (value : Value) : M unit :=
  record (Enter (OpChange fieldId value)) ;;
  setDirty true ;;
  v <- alloc (set (tree (values (rState r))) fieldId value) ;;
  setValues v ;;
  emit [fieldId].

Definition setFieldError (r : Render) (fieldId : string) (error : Value)
  : M unit :=
  setErrors (set (errors (rState r)) fieldId error) ;;
  emit [fieldId].

Definition setFieldTouched (r : Render) (fieldId : string)
  (value : option bool) : M unit :=
  t <- alloc (set (tree (touched (rState r))) fieldId
                (VBool (match value with Some b => b | None => true end))) ;;
  setTouched t ;;
  emit [fieldId].

(** The world in which a hook is called: [setSubmitting(false); emit('s')]
    have run. *)
Definition hookPoint (w : World) : World :=
  exec (setSubmitting false ;; emit ["s"]) w.

(** The world [handleSubmit] decides in: validation has run and [touched]
    is scheduled. *)
Definition validated (r : Render) (w : World) : World :=
  exec (record (Enter OpHandleSubmit) ;;
        fieldErrors <- validateForm r ;;
        t <- alloc (deriveInitial fieldErrors (VBool true)) ;;
        setTouched t) w.

(** ** The effects *)

(** [validateOnBlur === undefined ? touched : validateOnBlur && touched] *)
Definition blurDep (r : Render) : Dep :=
  match validateOnBlur (rProps r) with
  | None => DRef (ident (touched (rState r)))
  | Some false => DBool false
  | Some true => DRef (ident (touched (rState r)))
  end.

(** [validateOnChange && values] *)
Definition changeDep (r : Render) : Dep :=
  match validateOnChange (rProps r) with
  | None => DUndef
  | Some false => DBool false
  | Some true => DRef (ident (values (rState r)))
  end.

Definition depsOf (r : Render) : Deps :=
  mkDeps (DBool (isSubmitting (rState r)))
         (match initialValues (rProps r) with
          | Some o => DRef (ident o)
          | None => DUndef
          end)
         (blurDep r, changeDep r, DBool (rDirty r)).

Definition triple_eqb (a b : Dep * Dep * Dep) : bool :=
  let '(a1, a2, a3) := a in
  let '(b1, b2, b3) := b in
  Dep_eqb a1 b1 && Dep_eqb a2 b2 && Dep_eqb a3 b3.

(** An effect runs after the first render, and after a render in which one
    of its dependencies differs from the previous render. *)
Definition submitChanged (prev : option Deps) (d : Deps) : bool :=
  match prev with
  | None => true
  | Some p => negb (Dep_eqb (submitDeps p) (submitDeps d))
  end.

Definition reinitChanged (prev : option Deps) (d : Deps) : bool :=
  match prev with
  | None => true
  | Some p => negb (Dep_eqb (reinitDeps p) (reinitDeps d))
  end.

Definition validationChanged (prev : option Deps) (d : Deps) : bool :=
  match prev with
  | None => true
  | Some p => negb (triple_eqb (validationDeps p) (validationDeps d))
  end.

Definition depsChanged (prev : option Deps) (d : Deps) : bool :=
  submitChanged prev d || reinitChanged prev d || validationChanged prev d.

(** [if (isSubmitting) handleSubmit()] *)
Definition submitEffect (r : Render) : M unit :=
  when (isSubmitting (rState r)) (handleSubmit r).

(** [if (enableReinitialize) resetForm()] *)
Definition reinitEffect (r : Render) : M unit :=
  when (truthy (enableReinitialize (rProps r))) (resetForm r).

(** [(validateOnBlur === undefined || validateOnChange || validateOnBlur)]
    of the third effect. *)
Definition validationEnabled (p : FormOptions) : bool :=
  match validateOnBlur p with
  | None => true
  | Some b => truthy (validateOnChange p) || b
  end.

Definition validationEffect (r : Render) : M unit :=
  dirty <- readDirty ;;
  when (validationEnabled (rProps r) && dirty)
       (validateForm r ;; ret tt).

(** The effects of one render, in the order they are declared; [prev] holds
    the dependency arrays of the previous render. *)
Definition runEffects (prev : option Deps) (r : Render) : M unit :=
  when (submitChanged prev (depsOf r)) (submitEffect r) ;;
  when (reinitChanged prev (depsOf r)) (reinitEffect r) ;;
  when (validationChanged prev (depsOf r)) (validationEffect r).

(** One render and the effects it triggers. *)
Definition commit : M unit :=
  fun w =>
    (runEffects (lastDeps w) (render w) ;;
     modify (withLastDeps (Some (depsOf (render w))))) w.

(** Render until no dependency changes. *)
Fixpoint flush (fuel : nat) : M unit :=
  match fuel with
  | 0 => ret tt
  | S n =>
      fun w =>
        if depsChanged (lastDeps w) (depsOf (render w))
        then (commit ;; flush n) w
        else (tt, w)
  end.

(** ** Events *)

Inductive Event : Type :=
| EvChange (fieldId : string) (value : Value)
| EvSetFieldError (fieldId : string) (error : Value)
| EvSetFieldTouched (fieldId : string) (value : option bool)
| EvSubmit
| EvResetForm
| EvValidate
| EvInitialValues (iv : option Obj)
| EvSettle.

(** The handler of an event, called with the closures of the last render.
    [EvSettle] runs the continuation of the oldest settled promise. *)
Definition handle (ev : Event) : M unit :=
  fun w =>
    let r := render w in
    match ev with
    | EvChange fieldId value => change r fieldId value w
    | EvSetFieldError fieldId error => setFieldError r fieldId error w
    | EvSetFieldTouched fieldId value => setFieldTouched r fieldId value w
    | EvSubmit => submit w
    | EvResetForm => resetForm r w
    | EvValidate => (validateForm r ;; ret tt) w
    | EvInitialValues iv => (tt, withInitialValues iv w)
    | EvSettle =>
        match pending w with
        | [] => (tt, w)
        | (r0, s) :: _ => (continuation r0 s ;; ret tt) (dropPending w)
        end
    end.

(** Rounds of effects allowed after an event; two are enough
    (see [flush_enough]). *)
Definition rounds : nat := 4%nat.

Definition dispatch (ev : Event) (w : World) : World :=
  exec (handle ev ;; flush rounds) w.

Definition run (evs : list Event) (w : World) : World :=
  fold_left (fun w ev => dispatch ev w) evs w.

(** The initial state of the hooks, before the first render. *)
Definition initial (p : FormOptions) : World :=
  let touched0 :=
    match initialErrors p with
    | Some ie => mkObj (IdFresh 0%nat) (deriveInitial ie (VBool true))
    | None => EMPTY_OBJ
    end in
  let errors0 :=
    match initialErrors p with
    | Some ie => ie
    | None => tree EMPTY_OBJ
    end in
  mkWorld p
          (mkFormState (orEmpty (initialValues p)) touched0 errors0 false None)
          false 1%nat [] [] None.

(** Mounting: the first render and its effects. *)
Definition mount (p : FormOptions) : World :=
  exec (flush rounds) (initial p).

(** The states a form can be in. *)
Inductive reachable (p : FormOptions) : World -> Prop :=
| reach_mount : reachable p (mount p)
| reach_step w ev : reachable p w -> reachable p (dispatch ev w).

(** ** Reading the trace *)

Definition emitted (t : list Action) : list (list string) :=
  flat_map (fun a => match a with Emit ps => [ps] | _ => [] end) t.

Definition invoked (t : list Action) : list Callback :=
  flat_map (fun a => match a with Invoke c => [c] | _ => [] end) t.

(** How many times [handleSubmit] was entered. *)
Definition passes (t : list Action) : nat :=
  List.length (filter (fun a => match a with
                           | Enter OpHandleSubmit => true
                           | _ => false
                           end) t).

(** [change] has run since the last [resetForm], or since construction if
    [resetForm] never ran. *)
Definition changedSinceReset (t : list Action) : Prop :=
  exists t1 fieldId value t2,
    t = t1 ++ Enter (OpChange fieldId value) :: t2
    /\ ~ In (Enter OpResetForm) t2.

End Form.

(** ** The helpers and the emitter, after the specification *)

Module PathOps.

Definition isSeparator (c : ascii) : bool :=
  (Ascii.eqb c "." || Ascii.eqb c "[" || Ascii.eqb c "]")%char.

Definition flushSegment (cur : string) (rest : list string) : list string :=
  match cur with
  | EmptyString => rest
  | _ => cur :: rest
  end.

Fixpoint splitPath (s cur : string) : list string :=
  match s with
  | EmptyString => flushSegment cur []
  | String c s' =>
      if isSeparator c
      then flushSegment cur (splitPath s' "")
      else splitPath s' (cur ++ String c "")%string
  end.

(** Modelled from the spec: the path parser of [helpers/operations] is not
    in the sources at hand. A field path is a join of segments, dotted or
    indexed ([address.street], [items.2.name], [items[2].name]). *)
Definition toPath (path : string) : list string := splitPath path "".

Definition digitOf (c : ascii) : option nat :=
  let n := nat_of_ascii c in
  if ((48 <=? n) && (n <=? 57))%nat then Some (n - 48)%nat else None.

Fixpoint parseIndex (s : string) (acc : nat) : option nat :=
  match s with
  | EmptyString => Some acc
  | String c s' =>
      match digitOf c with
      | Some d => parseIndex s' (10 * acc + d)%nat
      | None => None
      end
  end.

(** A segment that parses as a non-negative integer. *)
Definition asIndex (seg : string) : option nat :=
  match seg with
  | EmptyString => None
  | _ => parseIndex seg 0%nat
  end.

Fixpoint lookupField (fs : list (string * Value)) (k : string) : Value :=
  match fs with
  | [] => VUndef
  | (k', v) :: fs' => if String.eqb k' k then v else lookupField fs' k
  end.

Fixpoint assign (fs : list (string * Value)) (k : string) (v : Value)
  : list (string * Value) :=
  match fs with
  | [] => [(k, v)]
  | (k', v') :: fs' =>
      if String.eqb k' k then (k', v) :: fs' else (k', v') :: assign fs' k v
  end.

(** [xs[i] = v] on a copy; JavaScript extends the array with holes. *)
Fixpoint assignAt (xs : list Value) (i : nat) (v : Value) : list Value :=
  match i, xs with
  | O, [] => [v]
  | O, _ :: xs' => v :: xs'
  | S i', [] => VUndef :: assignAt [] i' v
  | S i', x :: xs' => x :: assignAt xs' i' v
  end.

Definition child (t : Value) (seg : string) : Value :=
  match t with
  | VObj fs => lookupField fs seg
  | VArr xs =>
      match asIndex seg with
      | Some i => nth i xs VUndef
      | None => VUndef
      end
  | _ => VUndef
  end.

Definition newContainer (seg : string) (v : Value) : Value :=
  match asIndex seg with
  | Some i => VArr (assignAt [] i v)
  | None => VObj [(seg, v)]
  end.

Definition withChild (t : Value) (seg : string) (v : Value) : Value :=
  match t with
  | VObj fs => VObj (assign fs seg v)
  | VArr xs =>
      match asIndex seg with
      | Some i => VArr (assignAt xs i v)
      | None => newContainer seg v
      end
  | _ => newContainer seg v
  end.

Fixpoint setIn (t : Value) (segs : list string) (v : Value) : Value :=
  match segs with
  | [] => v
  | seg :: segs' => withChild t seg (setIn (child t seg) segs' v)
  end.

(** Modelled from the spec: [set] of [helpers/operations] is not in the
    sources at hand. It returns a new tree with [value] placed at [path],
    creating intermediate containers as needed, an array where the segment
    parses as a non-negative integer and a map otherwise; the branches off
    the path are kept. *)
Definition set (t : Value) (path : string) (value : Value) : Value :=
  setIn t (toPath path) value.

Definition join (pre seg : string) : string :=
  match pre with
  | EmptyString => seg
  | _ => (pre ++ "." ++ seg)%string
  end.

Definition indexName (i : nat) : string :=
  NilEmpty.string_of_uint (Nat.to_uint i).

(** The leaves under [t] with their paths, depth first; [pre] is the path
    of [t] itself. *)
Fixpoint leavesAt (pre : string) (t : Value) : list (string * Value) :=
  match t with
  | VObj fs =>
      (fix fields (fs : list (string * Value)) : list (string * Value) :=
         match fs with
         | [] => []
         | (k, v) :: fs' => (leavesAt (join pre k) v ++ fields fs')%list
         end) fs
  | VArr xs =>
      (fix items (i : nat) (xs : list Value) : list (string * Value) :=
         match xs with
         | [] => []
         | v :: xs' =>
             (leavesAt (join pre (indexName i)) v ++ items (S i) xs')%list
         end) 0%nat xs
  | _ => [(pre, t)]
  end.

Definition leaves (t : Value) : list (string * Value) := leavesAt "" t.

(** Modelled from the spec: [deriveKeys] of [helpers/deriveKeys] is not in
    the sources at hand. It flattens a tree into its leaf paths, depth
    first, every leaf once. *)
Definition deriveKeys (t : Value) : list string := map fst (leaves t).

(** Modelled from the spec: [deriveInitial] of [helpers/deriveInitial] is
    not in the sources at hand. It builds a tree of the shape of [shape]
    with [constant] at every leaf. *)
Fixpoint deriveInitial (shape constant : Value) : Value :=
  match shape with
  | VObj fs =>
      VObj (map (fun kv => match kv with
                           | (k, v) => (k, deriveInitial v constant)
                           end) fs)
  | VArr xs => VArr (map (fun v => deriveInitial v constant) xs)
  | _ => constant
  end.

(** The value of the leaf at [path], if there is one. *)
Fixpoint leafAt (ls : list (string * Value)) (path : string) : option Value :=
  match ls with
  | [] => None
  | (p, v) :: ls' => if String.eqb p path then Some v else leafAt ls' path
  end.

End PathOps.

#[export] Instance specHelpers : Helpers := {
  set := PathOps.set;
  deriveKeys := PathOps.deriveKeys;
  deriveInitial := PathOps.deriveInitial
}.

Module Emitter.

(** What a listener is registered on: one field path, or every change. *)
Inductive Interest : Type :=
| OnPath (path : string)
| OnAll.

Record Subscription : Type := mkSubscription {
  interest : Interest;
  listener : nat
}.

Definition interested (paths : list string) (s : Subscription) : bool :=
  match interest s with
  | OnPath p => existsb (String.eqb p) paths
  | OnAll => true
  end.

(** Modelled from the spec: [emit] of [context/emitter] is not in the
    sources at hand. One publish invokes every listener whose path is among
    the published ones, and every listener of all changes, once each however
    many of its interests match. *)
Definition publish (subs : list Subscription) (paths : list string)
  : list nat :=
  nodup Nat.eq_dec (map listener (filter (interested paths) subs)).

(** The listeners invoked over a trace, in order. *)
Definition notifications (subs : list Subscription) (t : list Action)
  : list nat :=
  flat_map (publish subs) (emitted t).

End Emitter.

(** ** A scenario: one numeric field that must not be negative *)

Module Scenario.

(** [v => (v.age < 0 ? { age: "invalid" } : {})] *)
Definition validateAge (v : Value) : option Value :=
  match PathOps.child v "age" with
  | VNum n =>
      if (n <? 0)%Z then Some (VObj [("age", VStr "invalid")])
      else Some (VObj [])
  | _ => Some (VObj [])
  end.

(** [{ validate, onSubmit: async () => "ok", shouldSubmitWhenInvalid: false }] *)
Definition config : FormOptions :=
  mkFormOptions None None None None None
    (fun _ => mkSubmitRun [] (Resolves (VStr "ok")))
    (Some false) (Some validateAge) None None.

(** [changeField("age", -1)] on the mounted form. *)
Definition edited : World :=
  dispatch (EvChange "age" (VNum (-1))) (mount config).

(** [changeField("age", 5)] then [submit()]: the promise of [onSubmit] is
    outstanding. *)
Definition inFlight : World :=
  run [EvChange "age" (VNum 5); EvSubmit] (mount config).

(** The render that starts that submission: [submit()] has been called and
    [isSubmitting] is [true]. *)
Definition submitting : Render :=
  render (exec submit (dispatch (EvChange "age" (VNum 5)) (mount config))).


(** A consumer that reads [isSubmitting] listens on the key [s]. *)
Definition submitListener : list Emitter.Subscription :=
  [Emitter.mkSubscription (Emitter.OnPath "s") 7%nat].

End Scenario.

(** Further configurations, for the effects and the promise chain. *)
Module Cases.

(** [{ enableReinitialize: true, initialValues: { age: 1 }, validate }] *)
Definition reinitializing : FormOptions :=
  mkFormOptions (Some true) None
    (Some (mkObj (IdProp 0%nat) (VObj [("age", VNum 1)]))) None None
    (fun _ => mkSubmitRun [] (Resolves (VStr "ok")))
    (Some false) (Some Scenario.validateAge) None None.

(** Another [initialValues] object, [{ age: 2 }], handed by the parent. *)
Definition nextInitialValues : option Obj :=
  Some (mkObj (IdProp 1%nat) (VObj [("age", VNum 2)])).

(** [{ validate, validateOnChange: true }] *)
Definition eager : FormOptions :=
  mkFormOptions None None None None None
    (fun _ => mkSubmitRun [] (Resolves (VStr "ok")))
    (Some false) (Some Scenario.validateAge) None (Some true).

(** [{ initialValues: { age: 1 }, validate,
       onSuccess: (_, { resetForm }) => resetForm() }] *)
Definition resetting : FormOptions :=
  mkFormOptions None None
    (Some (mkObj (IdProp 0%nat) (VObj [("age", VNum 1)]))) None
    (Some (fun _ => mkHookRun [CallResetForm] None))
    (fun _ => mkSubmitRun [] (Resolves (VStr "ok")))
    (Some false) (Some Scenario.validateAge) None None.

(** [changeField("age", 5)], [submit()], and while the promise of
    [onSubmit] is outstanding, [changeField("name", "x")]. *)
Definition editedInFlight : World :=
  run [EvChange "age" (VNum 5); EvSubmit; EvChange "name" (VStr "x")]
    (mount resetting).

(** [onSubmit] returns a promise that never settles. *)
Definition hanging : FormOptions :=
  mkFormOptions None None None None None
    (fun _ => mkSubmitRun [] NeverSettles)
    (Some false) (Some Scenario.validateAge) None None.

Definition hung : World :=
  run [EvChange "age" (VNum 5); EvSubmit] (mount hanging).

(** [{ validate,
       onSubmit: () => Promise.reject("denied"),
       onError: (e, { setErrors, setFormError }) => {
         setErrors({ age: e }); setFormError("failed") } }] *)
Definition rejecting : FormOptions :=
  mkFormOptions None None None
    (Some (fun e => mkHookRun [CallSetErrors (VObj [("age", e)]);
                               CallSetFormError "failed"] None))
    None
    (fun _ => mkSubmitRun [] (Rejects (VStr "denied")))
    (Some false) (Some Scenario.validateAge) None None.

(** [changeField("age", 5)] then [submit()]: the rejected promise of
    [onSubmit] awaits its chain. *)
Definition rejected : World :=
  run [EvChange "age" (VNum 5); EvSubmit] (mount rejecting).

(** [{ onSubmit: () => { throw "boom" }, onError: e => { throw e } }] *)
Definition rethrowing : FormOptions :=
  mkFormOptions None None None
    (Some (fun e => mkHookRun [] (Some e)))
    None
    (fun _ => mkSubmitRun [] (Throws (VStr "boom")))
    (Some false) None None None.

(** [submit()] on the mounted form: [onSubmit] has thrown. *)
Definition thrown : World := run [EvSubmit] (mount rethrowing).

(** The renders that started these submissions. *)
Definition rejectedRender : Render :=
  render (exec submit (dispatch (EvChange "age" (VNum 5)) (mount rejecting))).

Definition thrownRender : Render :=
  render (exec submit (mount rethrowing)).

Definition resettingRender : Render :=
  render (exec submit (dispatch (EvChange "age" (VNum 5)) (mount resetting))).


End Cases.

(** ** Induction on value trees *)

Section ValueInduction.
Variable P : Value -> Prop.
Hypothesis P_undef : P VUndef.
Hypothesis P_null : P VNull.
Hypothesis P_bool : forall b, P (VBool b).
Hypothesis P_num : forall n, P (VNum n).
Hypothesis P_str : forall s, P (VStr s).
Hypothesis P_obj :
  forall fs, Forall (fun kv => P (snd kv)) fs -> P (VObj fs).
Hypothesis P_arr : forall xs, Forall P xs -> P (VArr xs).

Fixpoint Value_nested_ind (t : Value) : P t :=
  match t with
  | VUndef => P_undef
  | VNull => P_null
  | VBool b => P_bool b
  | VNum n => P_num n
  | VStr s => P_str s
  | VObj fs =>
      P_obj fs
        ((fix fields (l : list (string * Value))
            : Forall (fun kv => P (snd kv)) l :=
            match l with
            | [] => Forall_nil _
            | kv :: l' =>
                Forall_cons kv
                  (match kv as x return P (snd x) with
                   | (_, v) => Value_nested_ind v
                   end)
                  (fields l')
            end) fs)
  | VArr xs =>
      P_arr xs
        ((fix items (l : list Value) : Forall P l :=
            match l with
            | [] => Forall_nil _
            | v :: l' => Forall_cons v (Value_nested_ind v) (items l')
            end) xs)
  end.
End ValueInduction.

(** ** Vocabulary of the proofs *)

(** A computation respects a relation when every run relates the world it
    starts in to the world it ends in. *)
Definition respects (R : World -> World -> Prop) {A} (m : M A) : Prop :=
  forall w, R w (snd (m w)).

(** The effects never change the props or the committed dependencies, and
    never raise [isSubmitting]. *)
Definition calm (w w' : World) : Prop :=
  props w' = props w
  /\ lastDeps w' = lastDeps w
  /\ (isSubmitting (state w') = true -> isSubmitting (state w) = true).

(** Nothing a later render depends on changes. *)
Definition still (w w' : World) : Prop :=
  depsOf (render w') = depsOf (render w)
  /\ lastDeps w' = lastDeps w
  /\ isDirty w' = isDirty w.

(** No effect is due. *)
Definition quiescent (w : World) : Prop :=
  depsChanged (lastDeps w) (depsOf (render w)) = false.

(** The marks the dirty flag follows. *)
Definition isMark (a : Action) : bool :=
  match a with
  | Enter (OpChange _ _) | Enter OpResetForm => true
  | _ => false
  end.

(** [isDirty.current] tells whether [change] ran since the last reset. *)
Definition dirtyInv (w : World) : Prop :=
  isDirty w = true <-> changedSinceReset (trace w).

Definition keepsDirtyInv (w w' : World) : Prop := dirtyInv w -> dirtyInv w'.

(** What the callbacks can do through their bags leaves these alone. *)
Definition aside (w w' : World) : Prop :=
  isSubmitting (state w') = isSubmitting (state w)
  /\ pending w' = pending w
  /\ invoked (trace w') = invoked (trace w)
  /\ passes (trace w') = passes (trace w).

(** [touched] is left alone. *)
Definition keepsTouched (w w' : World) : Prop :=
  touched (state w') = touched (state w).

(** At most a validation of the current values has run: [errors] is what it
    was or the result of [validate], the trace only grew by publications,
    and the rest is as it was. *)
Definition revalidated (w w' : World) : Prop :=
  props w' = props w
  /\ values (state w') = values (state w)
  /\ touched (state w') = touched (state w)
  /\ isSubmitting (state w') = isSubmitting (state w)
  /\ formError (state w') = formError (state w)
  /\ isDirty w' = isDirty w
  /\ pending w' = pending w
  /\ invoked (trace w') = invoked (trace w)
  /\ passes (trace w') = passes (trace w)
  /\ (errors (state w') = errors (state w)
      \/ errors (state w') = validationErrors (render w)).

(** The trace only grows. *)
Definition grows (w w' : World) : Prop :=
  exists rest, trace w' = trace w ++ rest.

(** An object that was not made by the allocation still to come: it is not
    an object of the form, or it is one made earlier. *)
Definition olderThan (n : nat) (i : Ident) : Prop :=
  match i with
  | IdFresh k => k < n
  | _ => True
  end.

(** The object in [touched] was made earlier, and so was the one in [values]
    of a dirty form. *)
Definition freshInv (w : World) : Prop :=
  olderThan (nextId w) (ident (touched (state w)))
  /\ (isDirty w = true -> olderThan (nextId w) (ident (values (state w)))).

Definition keepsFresh (w w' : World) : Prop := freshInv w -> freshInv w'.

(** What a promise chain can do to the dependencies of the effects: nothing,
    or a reset that leaves the form clean. *)
Definition settledQuietly (w w' : World) : Prop :=
  props w' = props w
  /\ lastDeps w' = lastDeps w
  /\ pending w' = pending w
  /\ ((ident (values (state w')) = ident (values (state w))
       /\ ident (touched (state w')) = ident (touched (state w))
       /\ isDirty w' = isDirty w)
      \/ isDirty w' = false).

(** At most one promise is outstanding, and [isSubmitting] is [true] while
    one is. *)
Definition singleFlight (w : World) : Prop :=
  (List.length (pending w) <= 1)%nat
  /\ (pending w <> [] -> isSubmitting (state w) = true).

(** The marks of a trace, in the order they were written. *)
Definition marks (t : list Action) : list Action := filter isMark t.

(** Neither the dirty flag nor the marks change. *)
Definition sameFlag (w w' : World) : Prop :=
  isDirty w' = isDirty w /\ marks (trace w') = marks (trace w).

(** How often the chain of a settled promise calls [resetForm]: only the bag
    handed to [onSuccess] holds it. *)
Definition chainResets (r : Render) (s : Settled) : nat :=
  match s with
  | Fulfilled result =>
      match onSuccess (rProps r) with
      | Some hook => List.length (hCalls (hook result))
      | None => 0%nat
      end
  | Rejected _ => 0%nat
  end.

(** A leaf with its value replaced by [c]. *)
Definition constAt (c : Value) (kv : string * Value) : string * Value :=
  (fst kv, c).


(** * Properties *)

(** ** Value trees *)

Module PathFacts.
Import PathOps.

Lemma leavesAt_deriveInitial (c : Value) :
  isContainer c = false ->
  forall t pre,
    leavesAt pre (deriveInitial t c) = map (constAt c) (leavesAt pre t).
Proof.
  intros Hc t.
  induction t as [ | | b | n | s | fs IH | xs IH ] using Value_nested_ind;
    intros pre;
    try (cbn [deriveInitial]; destruct c; (discriminate || reflexivity)).
  - cbn [deriveInitial leavesAt].
    induction IH as [ | [k v] fs' Hv _ IHfs ]; [ reflexivity | ].
    cbn [map]. rewrite map_app. cbn [snd] in Hv.
    rewrite Hv. f_equal. exact IHfs.
  - cbn [deriveInitial leavesAt].
    generalize 0%nat.
    induction IH as [ | v xs' Hv _ IHxs ]; intros i; [ reflexivity | ].
    cbn [map]. rewrite map_app, Hv. f_equal. apply IHxs.
Qed.

Lemma deriveKeys_deriveInitial (c t : Value) :
  isContainer c = false ->
  deriveKeys (deriveInitial t c) = deriveKeys t.
Proof.
  intros Hc. unfold deriveKeys, leaves.
  rewrite (leavesAt_deriveInitial c Hc), map_map.
  apply map_ext. intros [p v]. reflexivity.
Qed.

Lemma leafAt_In (ls : list (string * Value)) (path : string) (v : Value) :
  leafAt ls path = Some v -> In path (map fst ls).
Proof.
  induction ls as [ | [p x] ls IH ]; cbn [leafAt map fst]; [ discriminate | ].
  destruct (String.eqb p path) eqn:E.
  - apply String.eqb_eq in E. intros _. left. exact E.
  - intros H. right. apply IH, H.
Qed.

Lemma leafAt_absent (ls : list (string * Value)) (path : string) :
  ~ In path (map fst ls) -> leafAt ls path = None.
Proof.
  intros Hn. destruct (leafAt ls path) as [v | ] eqn:E; [ | reflexivity ].
  exfalso. apply Hn. eapply leafAt_In, E.
Qed.

Lemma leafAt_const (c : Value) (ls : list (string * Value)) (path : string) :
  In path (map fst ls) -> leafAt (map (constAt c) ls) path = Some c.
Proof.
  induction ls as [ | [p x] ls IH ]; cbn [leafAt map fst constAt];
    [ intros [] | ].
  destruct (String.eqb p path) eqn:E; [ reflexivity | ].
  intros [H | H]; [ | apply IH, H ].
  apply String.eqb_neq in E. contradiction.
Qed.

(** Every leaf of the shape is a leaf of [deriveInitial shape c], with
    value [c]. *)
Lemma deriveInitial_marks (c shape : Value) (path : string) :
  isContainer c = false ->
  In path (deriveKeys shape) ->
  leafAt (leaves (deriveInitial shape c)) path = Some c.
Proof.
  intros Hc Hin. unfold leaves.
  rewrite (leavesAt_deriveInitial c Hc). apply leafAt_const, Hin.
Qed.

(** [deriveInitial shape c] has no leaf outside the shape. *)
Lemma deriveInitial_only (c shape : Value) (path : string) :
  isContainer c = false ->
  ~ In path (deriveKeys shape) ->
  leafAt (leaves (deriveInitial shape c)) path = None.
Proof.
  intros Hc Hn. apply leafAt_absent.
  fold (deriveKeys (deriveInitial shape c)).
  rewrite (deriveKeys_deriveInitial c shape Hc). exact Hn.
Qed.


End PathFacts.

(** ** Dependencies *)

Lemma Ident_eqb_eq (a b : Ident) : Ident_eqb a b = true <-> a = b.
Proof.
  destruct a, b; cbn; try (split; (discriminate || reflexivity));
    rewrite Nat.eqb_eq; split; congruence.
Qed.

Lemma Dep_eqb_eq (a b : Dep) : Dep_eqb a b = true <-> a = b.
Proof.
  destruct a as [ | x | i ], b as [ | y | j ]; cbn;
    try (split; (discriminate || reflexivity)).
  - rewrite Bool.eqb_true_iff. split; congruence.
  - rewrite Ident_eqb_eq. split; congruence.
Qed.

Lemma Dep_eqb_refl (a : Dep) : Dep_eqb a a = true.
Proof. apply Dep_eqb_eq. reflexivity. Qed.

Lemma Dep_eqb_neq (a b : Dep) : a <> b -> Dep_eqb a b = false.
Proof.
  intros H. destruct (Dep_eqb a b) eqn:E; [ | reflexivity ].
  apply Dep_eqb_eq in E. contradiction.
Qed.

Lemma triple_eqb_refl (t : Dep * Dep * Dep) : triple_eqb t t = true.
Proof.
  destruct t as [[a b] c]. cbn. now rewrite !Dep_eqb_refl.
Qed.

Lemma depsChanged_same (d : Deps) : depsChanged (Some d) d = false.
Proof.
  unfold depsChanged, submitChanged, reinitChanged, validationChanged.
  now rewrite !Dep_eqb_refl, triple_eqb_refl.
Qed.

(** ** Reading the trace *)

Lemma emitted_snoc t paths : emitted (t ++ [Emit paths]) = emitted t ++ [paths].
Proof. unfold emitted. now rewrite flat_map_app. Qed.

Lemma emitted_enter t op : emitted (t ++ [Enter op]) = emitted t.
Proof. unfold emitted. rewrite flat_map_app. cbn. apply app_nil_r. Qed.

Lemma invoked_snoc_emit t ps : invoked (t ++ [Emit ps]) = invoked t.
Proof. unfold invoked. rewrite flat_map_app. cbn. apply app_nil_r. Qed.

Lemma invoked_snoc_enter t op : invoked (t ++ [Enter op]) = invoked t.
Proof. unfold invoked. rewrite flat_map_app. cbn. apply app_nil_r. Qed.

Lemma invoked_snoc t c : invoked (t ++ [Invoke c]) = invoked t ++ [c].
Proof. unfold invoked. now rewrite flat_map_app. Qed.

Lemma passes_snoc_emit t ps : passes (t ++ [Emit ps]) = passes t.
Proof. unfold passes. rewrite filter_app, length_app. cbn. lia. Qed.

Lemma passes_snoc_pass t :
  passes (t ++ [Enter OpHandleSubmit]) = S (passes t).
Proof. unfold passes. rewrite filter_app, length_app. cbn. lia. Qed.

Lemma passes_snoc_reset t : passes (t ++ [Enter OpResetForm]) = passes t.
Proof. unfold passes. rewrite filter_app, length_app. cbn. lia. Qed.

Lemma notifications_snoc subs t paths :
  Emitter.notifications subs (t ++ [Emit paths])
  = Emitter.notifications subs t ++ Emitter.publish subs paths.
Proof.
  unfold Emitter.notifications. rewrite emitted_snoc, flat_map_app. cbn.
  now rewrite app_nil_r.
Qed.

(** ** Computations that respect a relation between worlds *)

Section Respects.
Context (R : World -> World -> Prop) {R_pre : PreOrder R}.

Lemma respects_ret {A} (a : A) : respects R (ret a).
Proof. intros w. reflexivity. Qed.

Lemma respects_bind {A B} (m : M A) (k : A -> M B) :
  respects R m -> (forall a, respects R (k a)) -> respects R (bind m k).
Proof.
  intros Hm Hk w. unfold bind.
  specialize (Hm w). destruct (m w) as [a w1]. cbn [snd] in Hm.
  transitivity w1; [ exact Hm | apply Hk ].
Qed.

Lemma respects_when (b : bool) (m : M unit) :
  respects R m -> respects R (when b m).
Proof. intros Hm. destruct b; [ exact Hm | apply respects_ret ]. Qed.

Lemma respects_forEach {A} (f : A -> M unit) (l : list A) :
  (forall a, respects R (f a)) -> respects R (forEach f l).
Proof.
  intros Hf. induction l as [ | a l IH ]; cbn [forEach].
  - apply respects_ret.
  - apply respects_bind; [ apply Hf | intros _; exact IH ].
Qed.

Lemma respects_readDirty : respects R readDirty.
Proof. intros w. reflexivity. Qed.

(** Two steps taken together, followed by the rest. *)
Lemma respects_bind2 {A} (m1 m2 : M unit) (k : M A) :
  respects R (m1 ;; m2) -> respects R k -> respects R (m1 ;; m2 ;; k).
Proof.
  intros H12 Hk w. specialize (H12 w). unfold bind in *.
  destruct (m1 w) as [[] w1]. destruct (m2 w1) as [[] w2].
  cbn [snd] in H12. transitivity w2; [ exact H12 | apply Hk ].
Qed.
End Respects.

(** Decompose a computation along its binds, leaving the primitive steps
    to [leaf]. *)
Ltac respects_with leaf :=
  repeat
    lazymatch goal with
    | |- respects _ (ret _) => refine (respects_ret _ _)
    | |- respects _ readDirty => refine (respects_readDirty _)
    | |- respects _ (bind _ _) =>
        refine (respects_bind _ _ _ _ _); [ | intros ]
    | |- respects _ (when false _) => refine (respects_ret _ tt)
    | |- respects _ (when _ _) => refine (respects_when _ _ _ _)
    | |- respects _ (forEach _ _) =>
        refine (respects_forEach _ _ _ _); intros
    | |- respects _ (match ?x with _ => _ end) => destruct x
    | |- respects _ (let _ := _ in _) => cbv zeta
    | |- _ => progress leaf
    end.

#[local] Instance calm_pre : PreOrder calm.
Proof.
  split.
  - intros w. unfold calm. auto.
  - intros a b c (P1 & L1 & S1) (P2 & L2 & S2). unfold calm.
    repeat split; [ congruence | congruence | auto ].
Qed.

#[local] Instance still_pre : PreOrder still.
Proof.
  split.
  - intros w. unfold still. auto.
  - intros a b c (D1 & L1 & I1) (D2 & L2 & I2). unfold still.
    repeat split; congruence.
Qed.

#[local] Instance revalidated_pre : PreOrder revalidated.
Proof.
  split.
  - intros w. unfold revalidated. repeat split. left. reflexivity.
  - intros a b c (P1 & V1 & T1 & S1 & F1 & D1 & Q1 & I1 & N1 & E1)
                 (P2 & V2 & T2 & S2 & F2 & D2 & Q2 & I2 & N2 & E2).
    unfold revalidated. repeat split; try congruence.
    assert (Hv : validationErrors (render b) = validationErrors (render a)).
    { unfold validationErrors, render. cbn. now rewrite P1, V1. }
    destruct E2 as [E2 | E2]; [ | right; congruence ].
    destruct E1 as [E1 | E1]; [ left | right ]; congruence.
Qed.

Lemma revalidated_withLastDeps d w : revalidated w (withLastDeps d w).
Proof. unfold revalidated. cbn. repeat split. left. reflexivity. Qed.

Ltac prim_steps :=
  unfold emit, setFormErr, runBagCall, runSuccessCall, setValues, setTouched,
    setErrors, setSubmitting, setFormError, setDirty, record, defer.

Ltac calm_leaf :=
  solve [ intros ?w; prim_steps; cbv [calm modify alloc withState snd];
          cbn; repeat split; (discriminate || auto) ].

Ltac still_leaf :=
  solve [ intros ?w; prim_steps; cbv [still modify alloc withState snd];
          cbn; auto ].

Section Quiescence.
Context {helpers : Helpers}.

Lemma validateForm_calm r : respects calm (validateForm r).
Proof. unfold validateForm. respects_with calm_leaf. Qed.

Lemma resetForm_calm r : respects calm (resetForm r).
Proof. unfold resetForm. respects_with calm_leaf. Qed.

Lemma handleSubmit_calm r : respects calm (handleSubmit r).
Proof.
  pose proof (validateForm_calm r). pose proof (resetForm_calm r).
  unfold handleSubmit, invokeSubmit, runBagCall.
  respects_with ltac:(first [ assumption | calm_leaf ]).
Qed.

Lemma validateForm_still r : respects still (validateForm r).
Proof. unfold validateForm. respects_with still_leaf. Qed.

Lemma validationEffect_still r : respects still (validationEffect r).
Proof.
  pose proof (validateForm_still r).
  unfold validationEffect. respects_with ltac:(first [ assumption | still_leaf ]).
Qed.

Lemma runEffects_calm prev r : respects calm (runEffects prev r).
Proof.
  pose proof (validateForm_calm r). pose proof (resetForm_calm r).
  pose proof (handleSubmit_calm r).
  unfold runEffects, submitEffect, reinitEffect, validationEffect.
  respects_with ltac:(first [ assumption | calm_leaf ]).
Qed.

(** Once a round of effects has run, the next round can only validate. *)
Lemma runEffects_still prev r :
  reinitChanged (Some prev) (depsOf r) = false ->
  (submitChanged (Some prev) (depsOf r) = true ->
   isSubmitting (rState r) = false) ->
  respects still (runEffects (Some prev) r).
Proof.
  intros Hre Hsub. pose proof (validationEffect_still r).
  unfold runEffects. rewrite Hre.
  destruct (submitChanged (Some prev) (depsOf r)).
  - unfold submitEffect. rewrite (Hsub eq_refl).
    respects_with ltac:(first [ assumption | still_leaf ]).
  - respects_with ltac:(first [ assumption | still_leaf ]).
Qed.

Lemma commit_eq w :
  commit w
  = (tt, withLastDeps (Some (depsOf (render w)))
           (snd (runEffects (lastDeps w) (render w) w))).
Proof.
  unfold commit, bind.
  destruct (runEffects (lastDeps w) (render w) w) as [[] w1]. reflexivity.
Qed.

Lemma flush_S n w :
  exec (flush (S n)) w
  = if depsChanged (lastDeps w) (depsOf (render w))
    then exec (flush n) (exec commit w)
    else w.
Proof.
  unfold exec. cbn [flush].
  destruct (depsChanged (lastDeps w) (depsOf (render w))); [ | reflexivity ].
  unfold bind. destruct (commit w) as [[] w1]. reflexivity.
Qed.

Lemma dispatch_eq ev w :
  dispatch ev w = exec (flush rounds) (exec (handle ev) w).
Proof.
  unfold dispatch, exec, bind. destruct (handle ev w) as [[] w1]. reflexivity.
Qed.

Lemma flush_quiescent n w : quiescent w -> flush n w = (tt, w).
Proof.
  intros Hq. destruct n as [ | n ]; [ reflexivity | ].
  cbn [flush]. unfold quiescent in Hq. now rewrite Hq.
Qed.

Lemma commit_twice_quiescent w :
  quiescent (exec commit (exec commit w)).
Proof.
  unfold exec. rewrite (commit_eq w). cbn [snd].
  destruct (runEffects_calm (lastDeps w) (render w) w) as (Hp & _ & Hs).
  set (w1 := snd (runEffects (lastDeps w) (render w) w)) in *.
  set (d := depsOf (render w)).
  rewrite commit_eq. cbn [snd].
  set (w1' := withLastDeps (Some d) w1).
  assert (Hst : still w1'
                  (snd (runEffects (lastDeps w1') (render w1') w1'))).
  { apply runEffects_still.
    - unfold reinitChanged, depsOf, d, depsOf. cbn. unfold w1'. cbn.
      rewrite Hp. now rewrite Dep_eqb_refl.
    - unfold submitChanged, d, depsOf. cbn.
      destruct (isSubmitting (state w1)); [ | reflexivity ].
      rewrite (Hs eq_refl). cbn. discriminate. }
  destruct Hst as (Hd & _ & _). unfold quiescent. cbn.
  unfold render in *. cbn in *. rewrite Hd. apply depsChanged_same.
Qed.

(** Two rounds of effects are enough: further rounds change nothing. *)
Lemma flush_enough n w : 2 <= n -> quiescent (exec (flush n) w).
Proof.
  intros Hn. destruct n as [ | [ | n ] ]; [ lia | lia | ].
  unfold exec. cbn [flush].
  destruct (depsChanged (lastDeps w) (depsOf (render w))) eqn:E1;
    [ | exact E1 ].
  unfold bind at 1. rewrite (surjective_pairing (commit w)).
  destruct (fst (commit w)).
  set (w1 := snd (commit w)).
  destruct (depsChanged (lastDeps w1) (depsOf (render w1))) eqn:E2;
    [ | exact E2 ].
  unfold bind. rewrite (surjective_pairing (commit w1)).
  destruct (fst (commit w1)).
  rewrite flush_quiescent; [ | apply (commit_twice_quiescent w) ].
  apply (commit_twice_quiescent w).
Qed.

Lemma withLastDeps_same w : withLastDeps (lastDeps w) w = w.
Proof. destruct w. reflexivity. Qed.

(** A clean form whose [isSubmitting] and [initialValues] did not change
    runs no effect that does anything. *)
Lemma flush_idle n w :
  isDirty w = false ->
  submitChanged (lastDeps w) (depsOf (render w)) = false ->
  reinitChanged (lastDeps w) (depsOf (render w)) = false ->
  exists d, exec (flush n) w = withLastDeps d w.
Proof.
  intros Hclean Hsub Hre. destruct n as [ | n ].
  - exists (lastDeps w). now rewrite withLastDeps_same.
  - unfold exec. cbn [flush].
    destruct (depsChanged (lastDeps w) (depsOf (render w))).
    + exists (Some (depsOf (render w))).
      unfold bind. rewrite commit_eq.
      assert (E : snd (runEffects (lastDeps w) (render w) w) = w).
      { unfold runEffects. rewrite Hsub, Hre.
        destruct (validationChanged _ _); [ | reflexivity ].
        cbv [when bind ret validationEffect readDirty snd].
        now rewrite Hclean, Bool.andb_false_r. }
      rewrite E. rewrite flush_quiescent; [ reflexivity | ].
      unfold quiescent. apply depsChanged_same.
    + exists (lastDeps w). now rewrite withLastDeps_same.
Qed.

Lemma validateForm_revalidated w :
  revalidated w (snd (validateForm (render w) w)).
Proof.
  unfold revalidated, validateForm. cbn -[invoked passes].
  rewrite invoked_snoc_emit, passes_snoc_emit.
  repeat split. right. reflexivity.
Qed.

(** The second round of effects after an event, seen from the world it
    starts in. *)
Lemma runEffects_revalidated prev w :
  reinitChanged (Some prev) (depsOf (render w)) = false ->
  (submitChanged (Some prev) (depsOf (render w)) = true ->
   isSubmitting (state w) = false) ->
  revalidated w (snd (runEffects (Some prev) (render w) w)).
Proof.
  intros Hre Hsub. unfold runEffects. rewrite Hre.
  assert (E : when (submitChanged (Some prev) (depsOf (render w)))
                (submitEffect (render w)) w = (tt, w)).
  { destruct (submitChanged (Some prev) (depsOf (render w)));
      [ | reflexivity ].
    unfold submitEffect. cbn [when render rState]. now rewrite (Hsub eq_refl). }
  unfold bind at 1. rewrite E. cbn [when]. unfold bind at 1. cbn [ret].
  destruct (validationChanged (Some prev) (depsOf (render w)));
    [ | reflexivity ].
  cbn [when]. cbv [validationEffect bind readDirty].
  destruct (validationEnabled (rProps (render w)) && isDirty w);
    [ | reflexivity ].
  cbn [when]. pose proof (validateForm_revalidated w) as H.
  destruct (validateForm (render w) w) as [v w1]. exact H.
Qed.

(** After one round of effects, the rounds that follow can only validate. *)
Lemma flush_after_commit n w :
  revalidated (exec commit w) (exec (flush n) (exec commit w)).
Proof.
  destruct n as [ | n ]; [ reflexivity | ].
  unfold exec at 2. cbn [flush].
  set (w1 := exec commit w).
  destruct (depsChanged (lastDeps w1) (depsOf (render w1))); [ | reflexivity ].
  unfold bind. rewrite (surjective_pairing (commit w1)).
  destruct (fst (commit w1)).
  rewrite flush_quiescent by apply (commit_twice_quiescent w).
  cbn [snd]. rewrite commit_eq. cbn [snd].
  transitivity (snd (runEffects (lastDeps w1) (render w1) w1));
    [ | apply revalidated_withLastDeps ].
  unfold w1, exec. rewrite (commit_eq w). cbn [snd].
  destruct (runEffects_calm (lastDeps w) (render w) w) as (Hp & _ & Hs).
  set (w0 := snd (runEffects (lastDeps w) (render w) w)) in *.
  change (lastDeps (withLastDeps (Some (depsOf (render w))) w0))
    with (Some (depsOf (render w))).
  change (render (withLastDeps (Some (depsOf (render w))) w0))
    with (render w0).
  assert (Hre : reinitChanged (Some (depsOf (render w))) (depsOf (render w0))
                = false).
  { unfold reinitChanged, depsOf. cbn. rewrite Hp. now rewrite Dep_eqb_refl. }
  assert (Hsub : submitChanged (Some (depsOf (render w))) (depsOf (render w0))
                 = true -> isSubmitting (state w0) = false).
  { unfold submitChanged, depsOf. cbn.
    destruct (isSubmitting (state w0)); [ | reflexivity ].
    rewrite (Hs eq_refl). cbn. discriminate. }
  exact (runEffects_revalidated (depsOf (render w))
           (withLastDeps (Some (depsOf (render w))) w0) Hre Hsub).
Qed.

(** After a handler that left [initialValues] alone and did not raise
    [isSubmitting], the effects can only validate. *)
Lemma flush_revalidated_idle n w :
  lastDeps w <> None ->
  reinitChanged (lastDeps w) (depsOf (render w)) = false ->
  (submitChanged (lastDeps w) (depsOf (render w)) = true ->
   isSubmitting (state w) = false) ->
  revalidated w (exec (flush n) w).
Proof.
  intros Hsome Hre Hsub. destruct n as [ | n ]; [ reflexivity | ].
  rewrite flush_S.
  destruct (depsChanged (lastDeps w) (depsOf (render w))); [ | reflexivity ].
  transitivity (exec commit w); [ | apply flush_after_commit ].
  unfold exec. rewrite commit_eq. cbn [snd].
  transitivity (snd (runEffects (lastDeps w) (render w) w));
    [ | apply revalidated_withLastDeps ].
  destruct (lastDeps w) as [prev | ]; [ | contradiction ].
  apply runEffects_revalidated; [ exact Hre | exact Hsub ].
Qed.

Lemma flush_revalidated n w :
  submitChanged (lastDeps w) (depsOf (render w)) = false ->
  reinitChanged (lastDeps w) (depsOf (render w)) = false ->
  revalidated w (exec (flush n) w).
Proof.
  intros Hsub Hre. apply flush_revalidated_idle.
  - destruct (lastDeps w); [ discriminate | discriminate Hsub ].
  - exact Hre.
  - intros H. rewrite H in Hsub. discriminate Hsub.
Qed.

Lemma continuation_calm r s : respects calm (continuation r s).
Proof.
  pose proof (resetForm_calm r).
  unfold continuation, onFulfilled, onRejected, runBagCall, runSuccessCall.
  respects_with ltac:(first [ assumption | calm_leaf ]).
Qed.

Lemma resetForm_frame r w :
  isDirty (exec (resetForm r) w) = false
  /\ lastDeps (exec (resetForm r) w) = lastDeps w
  /\ props (exec (resetForm r) w) = props w
  /\ isSubmitting (state (exec (resetForm r) w)) = isSubmitting (state w).
Proof.
  unfold resetForm, exec.
  destruct (initialErrors (rProps r)); cbn; repeat split.
Qed.

End Quiescence.

(** ** The dirty flag and the history of the form *)

Lemma changedSinceReset_nil : ~ changedSinceReset [].
Proof.
  intros (t1 & p & v & t2 & E & _). destruct t1; discriminate.
Qed.

Lemma changedSinceReset_change t p v :
  changedSinceReset (t ++ [Enter (OpChange p v)]).
Proof. exists t, p, v, []. split; [ reflexivity | intros [] ]. Qed.

Lemma changedSinceReset_reset t :
  ~ changedSinceReset (t ++ [Enter OpResetForm]).
Proof.
  intros (t1 & p & v & t2 & E & Hn).
  destruct t2 as [ | x t2 _ ] using rev_ind.
  - apply app_inj_tail in E. destruct E as [_ E]. discriminate.
  - change (t1 ++ Enter (OpChange p v) :: t2 ++ [x])
      with (t1 ++ (Enter (OpChange p v) :: t2) ++ [x]) in E.
    rewrite app_assoc in E. apply app_inj_tail in E. destruct E as [_ E].
    apply Hn, in_or_app. right. left. symmetry. exact E.
Qed.

Lemma changedSinceReset_other t a :
  isMark a = false ->
  changedSinceReset (t ++ [a]) <-> changedSinceReset t.
Proof.
  intros Ha. split.
  - intros (t1 & p & v & t2 & E & Hn).
    destruct t2 as [ | x t2 _ ] using rev_ind.
    + apply app_inj_tail in E. destruct E as [_ E]. subst a. discriminate.
    + change (t1 ++ Enter (OpChange p v) :: t2 ++ [x])
        with (t1 ++ (Enter (OpChange p v) :: t2) ++ [x]) in E.
      rewrite app_assoc in E. apply app_inj_tail in E. destruct E as [E _].
      exists t1, p, v, t2. split; [ exact E | ].
      intros Hin. apply Hn, in_or_app. left. exact Hin.
  - intros (t1 & p & v & t2 & E & Hn).
    exists t1, p, v, (t2 ++ [a]). split.
    + subst t. now rewrite <- app_assoc.
    + intros Hin. apply in_app_or in Hin. destruct Hin as [Hin | [Hin | []]].
      * contradiction.
      * subst a. discriminate.
Qed.

#[local] Instance keepsDirtyInv_pre : PreOrder keepsDirtyInv.
Proof. split; unfold keepsDirtyInv; [ intros w H | intros a b c ]; auto. Qed.

Lemma record_keepsDirtyInv a :
  isMark a = false -> respects keepsDirtyInv (record a).
Proof.
  intros Ha w Hinv. unfold dirtyInv in *. cbn.
  rewrite changedSinceReset_other by exact Ha. exact Hinv.
Qed.

Ltac dirty_leaf :=
  first
    [ solve [ apply record_keepsDirtyInv; reflexivity ]
    | solve [ unfold emit; apply record_keepsDirtyInv; reflexivity ]
    | solve [ let Hinv := fresh in intros ?w Hinv; exact Hinv ] ].

Section DirtyFlag.
Context {helpers : Helpers}.

Lemma change_keepsDirtyInv r p v : respects keepsDirtyInv (change r p v).
Proof.
  unfold change. refine (respects_bind2 _ _ _ _ _ _).
  - intros w _. unfold dirtyInv. cbn.
    split; [ intros _; apply changedSinceReset_change | reflexivity ].
  - respects_with dirty_leaf.
Qed.

Lemma resetForm_keepsDirtyInv r : respects keepsDirtyInv (resetForm r).
Proof.
  unfold resetForm. refine (respects_bind2 _ _ _ _ _ _).
  - intros w _. unfold dirtyInv. cbn.
    split; [ discriminate | intros H; now apply changedSinceReset_reset in H ].
  - respects_with dirty_leaf.
Qed.

Lemma setFormErr_keepsDirtyInv msg : respects keepsDirtyInv (setFormErr msg).
Proof. unfold setFormErr. respects_with dirty_leaf. Qed.

Lemma validateForm_keepsDirtyInv r : respects keepsDirtyInv (validateForm r).
Proof. unfold validateForm. respects_with dirty_leaf. Qed.

Lemma handleSubmit_keepsDirtyInv r : respects keepsDirtyInv (handleSubmit r).
Proof.
  pose proof (validateForm_keepsDirtyInv r).
  pose proof setFormErr_keepsDirtyInv.
  unfold handleSubmit, invokeSubmit, runBagCall.
  respects_with ltac:(first [ assumption | solve [ auto ] | dirty_leaf ]).
Qed.

Lemma continuation_keepsDirtyInv r s : respects keepsDirtyInv (continuation r s).
Proof.
  pose proof (resetForm_keepsDirtyInv r).
  pose proof setFormErr_keepsDirtyInv.
  unfold continuation, onFulfilled, onRejected, runBagCall, runSuccessCall.
  respects_with ltac:(first [ assumption | solve [ auto ] | dirty_leaf ]).
Qed.

Lemma runEffects_keepsDirtyInv prev r :
  respects keepsDirtyInv (runEffects prev r).
Proof.
  pose proof (validateForm_keepsDirtyInv r).
  pose proof (resetForm_keepsDirtyInv r).
  pose proof (handleSubmit_keepsDirtyInv r).
  unfold runEffects, submitEffect, reinitEffect, validationEffect.
  respects_with ltac:(first [ assumption | dirty_leaf ]).
Qed.

Lemma commit_keepsDirtyInv : respects keepsDirtyInv commit.
Proof.
  intros w. rewrite commit_eq. cbn [snd]. intros Hinv.
  apply (runEffects_keepsDirtyInv (lastDeps w) (render w) w) in Hinv.
  exact Hinv.
Qed.

Lemma flush_keepsDirtyInv n : respects keepsDirtyInv (flush n).
Proof.
  induction n as [ | n IH ]; cbn [flush]; [ refine (respects_ret _ _) | ].
  intros w. destruct (depsChanged (lastDeps w) (depsOf (render w))).
  - apply (respects_bind keepsDirtyInv commit (fun _ => flush n)).
    + apply commit_keepsDirtyInv.
    + intros _. exact IH.
  - reflexivity.
Qed.

Lemma setFieldError_keepsDirtyInv r p e :
  respects keepsDirtyInv (setFieldError r p e).
Proof. unfold setFieldError. respects_with dirty_leaf. Qed.

Lemma setFieldTouched_keepsDirtyInv r p b :
  respects keepsDirtyInv (setFieldTouched r p b).
Proof. unfold setFieldTouched. respects_with dirty_leaf. Qed.

Lemma submit_keepsDirtyInv : respects keepsDirtyInv submit.
Proof. unfold submit. respects_with dirty_leaf. Qed.

Lemma handle_keepsDirtyInv ev : respects keepsDirtyInv (handle ev).
Proof.
  intros w. destruct ev; cbn [handle].
  - apply change_keepsDirtyInv.
  - apply setFieldError_keepsDirtyInv.
  - apply setFieldTouched_keepsDirtyInv.
  - apply submit_keepsDirtyInv.
  - apply resetForm_keepsDirtyInv.
  - apply (respects_bind keepsDirtyInv (validateForm (render w))
             (fun _ => ret tt)).
    + apply validateForm_keepsDirtyInv.
    + intros _. refine (respects_ret _ _).
  - intros H. exact H.
  - destruct (pending w) as [ | [r0 s] rest ]; [ reflexivity | ].
    pose proof (continuation_keepsDirtyInv r0 s) as Hc.
    intros Hinv.
    apply (respects_bind keepsDirtyInv (continuation r0 s) (fun _ => ret tt)
             Hc (fun _ => respects_ret keepsDirtyInv tt) (dropPending w)).
    exact Hinv.
Qed.

Lemma dispatch_keepsDirtyInv ev w : dirtyInv w -> dirtyInv (dispatch ev w).
Proof.
  unfold dispatch, exec.
  apply (respects_bind keepsDirtyInv (handle ev) (fun _ => flush rounds)).
  - apply handle_keepsDirtyInv.
  - intros _. apply flush_keepsDirtyInv.
Qed.

Lemma reachable_quiescent p w : reachable p w -> quiescent w.
Proof.
  intros H. destruct H as [ | w ev _ ].
  - apply flush_enough. unfold rounds. lia.
  - unfold dispatch, exec, bind.
    destruct (handle ev w) as [[] w1].
    apply (flush_enough rounds w1). unfold rounds. lia.
Qed.

End DirtyFlag.

(** ** The operations of the store *)

Section Store.
Context {helpers : Helpers}.

Lemma quiescent_parts w :
  quiescent w ->
  submitChanged (lastDeps w) (depsOf (render w)) = false
  /\ reinitChanged (lastDeps w) (depsOf (render w)) = false
  /\ validationChanged (lastDeps w) (depsOf (render w)) = false.
Proof.
  unfold quiescent, depsChanged. intros Hq.
  apply Bool.orb_false_elim in Hq. destruct Hq as [Hq Hval].
  apply Bool.orb_false_elim in Hq. destruct Hq as [Hsub Hre]. auto.
Qed.


(** A change through the produced interface is [change] with the closures of
    the current render, followed at most by a validation. *)
Lemma dispatch_change p w fieldId value :
  reachable p w ->
  revalidated (exec (change (render w) fieldId value) w)
    (dispatch (EvChange fieldId value) w).
Proof.
  intros Hreach.
  destruct (quiescent_parts w (reachable_quiescent p w Hreach))
    as (Hsub & Hre & _).
  rewrite dispatch_eq.
  change (exec (handle (EvChange fieldId value)) w)
    with (exec (change (render w) fieldId value) w).
  apply flush_revalidated; [ exact Hsub | exact Hre ].
Qed.

(** A validation asked through the produced interface is [validateForm] with
    the closures of the current render; no effect follows. *)
Lemma dispatch_validate p w :
  reachable p w ->
  dispatch EvValidate w = exec (validateForm (render w)) w.
Proof.
  intros Hreach. rewrite dispatch_eq.
  assert (E : exec (handle EvValidate) w = exec (validateForm (render w)) w).
  { unfold exec. cbn [handle]. unfold bind.
    destruct (validateForm (render w) w) as [v w1]. reflexivity. }
  rewrite E. unfold exec at 1. rewrite flush_quiescent; [ reflexivity | ].
  exact (reachable_quiescent p w Hreach).
Qed.

(** C4. [change(fieldId, value)] sets [isDirty.current] to [true], schedules
    [set(values, fieldId, value)] as the new [values], leaves the other
    slots alone and publishes [fieldId] and nothing else: a listener on
    exactly [fieldId] is invoked once, a listener on another path is not.
    [values] are those of the render the closure belongs to: the current
    ones for a change made through the produced interface, after which the
    form is dirty and holds the new values. *)
Theorem change_marks_dirty_and_publishes_path
  (fieldId : string) (value : Value) :
  (forall (r : Render) (w : World),
      let w' := exec (change r fieldId value) w in
      isDirty w' = true
      /\ tree (values (state w')) = set (tree (values (rState r))) fieldId value
      /\ touched (state w') = touched (state w)
      /\ errors (state w') = errors (state w)
      /\ isSubmitting (state w') = isSubmitting (state w)
      /\ formError (state w') = formError (state w)
      /\ trace w' = trace w ++ [Enter (OpChange fieldId value); Emit [fieldId]]
      /\ emitted (trace w') = emitted (trace w) ++ [[fieldId]])
  /\ (forall (p : FormOptions) (w : World),
        reachable p w ->
        let w' := dispatch (EvChange fieldId value) w in
        isDirty w' = true
        /\ tree (values (state w'))
           = set (tree (values (state w))) fieldId value
        /\ touched (state w') = touched (state w)
        /\ isSubmitting (state w') = isSubmitting (state w)
        /\ invoked (trace w') = invoked (trace w))
  /\ (forall l,
        Emitter.publish [Emitter.mkSubscription (Emitter.OnPath fieldId) l]
          [fieldId] = [l])
  /\ (forall l q,
        String.eqb q fieldId = false ->
        Emitter.publish [Emitter.mkSubscription (Emitter.OnPath q) l]
          [fieldId] = []).
Proof.
  split; [ | split; [ | split ] ].
  - intros r w. cbn. repeat split.
    + now rewrite <- app_assoc.
    + rewrite emitted_snoc, emitted_enter. reflexivity.
  - intros p w Hreach. cbn zeta.
    destruct (dispatch_change p w fieldId value Hreach)
      as (_ & V & T & S & _ & D & _ & I & _).
    rewrite D, V, T, S, I. cbn -[invoked].
    rewrite invoked_snoc_emit, invoked_snoc_enter. repeat split.
  - intros l. unfold Emitter.publish, Emitter.interested. cbn.
    now rewrite String.eqb_refl.
  - intros l q Hq. unfold Emitter.publish, Emitter.interested. cbn.
    now rewrite Hq.
Qed.

(** C5. [validateForm] applies the configured [validate] to the values of
    its render, takes the empty object when [validate] is absent or returns
    nothing, schedules the result as [errors], publishes the leaf paths of
    the new tree followed by those of the errors of its render, and returns
    the new tree. Called through the produced interface, these are the
    current values and the errors held before the call. *)
Theorem validateForm_stores_publishes_returns :
  (forall (r : Render) (w : World),
      let w' := exec (validateForm r) w in
      let result :=
        match validate (rProps r) with
        | Some validate =>
            match validate (tree (values (rState r))) with
            | Some e => e
            | None => VObj []
            end
        | None => VObj []
        end in
      fst (validateForm r w) = result
      /\ errors (state w') = result
      /\ trace w'
         = trace w
           ++ [Emit (deriveKeys result ++ deriveKeys (errors (rState r)))]
      /\ emitted (trace w')
         = emitted (trace w)
           ++ [deriveKeys result ++ deriveKeys (errors (rState r))]
      /\ values (state w') = values (state w)
      /\ touched (state w') = touched (state w)
      /\ isSubmitting (state w') = isSubmitting (state w)
      /\ formError (state w') = formError (state w)
      /\ isDirty w' = isDirty w)
  /\ (forall (p : FormOptions) (w : World),
        reachable p w ->
        let w' := dispatch EvValidate w in
        let result :=
          match validate (props w) with
          | Some validate =>
              match validate (tree (values (state w))) with
              | Some e => e
              | None => VObj []
              end
          | None => VObj []
          end in
        errors (state w') = result
        /\ trace w'
           = trace w
             ++ [Emit (deriveKeys result ++ deriveKeys (errors (state w)))]
        /\ values (state w') = values (state w)
        /\ touched (state w') = touched (state w)
        /\ isDirty w' = isDirty w).
Proof.
  split.
  - intros r w. cbn. repeat split. apply emitted_snoc.
  - intros p w Hreach. cbn zeta. rewrite (dispatch_validate p w Hreach).
    cbn. repeat split.
Qed.

(** What one call of [resetForm] does, whatever render it belongs to. *)
Lemma resetForm_does r w :
  let w' := exec (resetForm r) w in
  isDirty w' = false
  /\ values (state w') = orEmpty (initialValues (rProps r))
  /\ (forall ie, initialErrors (rProps r) = Some ie ->
        tree (touched (state w')) = deriveInitial ie (VBool true)
        /\ errors (state w') = ie)
  /\ isSubmitting (state w') = isSubmitting (state w)
  /\ formError (state w') = formError (state w)
  /\ trace w'
     = trace w
       ++ [Enter OpResetForm;
           Emit (deriveKeys (tree (orEmpty (initialValues (rProps r))))
                 ++ deriveKeys (tree (values (rState r))))].
Proof.
  unfold resetForm, exec.
  destruct (initialErrors (rProps r)) as [ie | ] eqn:Eie; cbn.
  all: repeat split.
  all: try match goal with
           | H : Some _ = Some _ |- _ => injection H as <-
           | H : None = Some _ |- _ => discriminate H
           end.
  all: rewrite <- ?app_assoc; reflexivity.
Qed.

(** C10. Without [initialErrors], [resetForm] schedules no new [errors] and
    no new [touched]: of the state only [values] changes, [isDirty.current]
    is cleared and the value paths are published. The same holds for the
    whole event: the effects that follow a reset find the form clean and
    validate nothing, so the errors and the touched marks survive it. *)
Theorem resetForm_without_initialErrors_keeps_errors_and_touched :
  (forall (r : Render) (w : World),
      initialErrors (rProps r) = None ->
      let w' := exec (resetForm r) w in
      errors (state w') = errors (state w)
      /\ touched (state w') = touched (state w)
      /\ isSubmitting (state w') = isSubmitting (state w)
      /\ formError (state w') = formError (state w)
      /\ values (state w') = orEmpty (initialValues (rProps r))
      /\ isDirty w' = false
      /\ trace w'
         = trace w
           ++ [Enter OpResetForm;
               Emit (deriveKeys (tree (orEmpty (initialValues (rProps r))))
                     ++ deriveKeys (tree (values (rState r))))])
  /\ (forall (p : FormOptions) (w : World),
        reachable p w ->
        initialErrors (props w) = None ->
        let w' := dispatch EvResetForm w in
        errors (state w') = errors (state w)
        /\ touched (state w') = touched (state w)
        /\ isSubmitting (state w') = isSubmitting (state w)
        /\ formError (state w') = formError (state w)
        /\ values (state w') = orEmpty (initialValues (props w))
        /\ isDirty w' = false
        /\ trace w'
           = trace w
             ++ [Enter OpResetForm;
                 Emit (deriveKeys (tree (orEmpty (initialValues (props w))))
                       ++ deriveKeys (tree (values (state w))))]).
Proof.
  assert (Hfun : forall r w,
             initialErrors (rProps r) = None ->
             resetForm r w
             = (tt,
                mkWorld (props w)
                  (mkFormState (orEmpty (initialValues (rProps r)))
                     (touched (state w)) (errors (state w))
                     (isSubmitting (state w)) (formError (state w)))
                  false (nextId w)
                  (trace w
                   ++ [Enter OpResetForm;
                       Emit (deriveKeys
                               (tree (orEmpty (initialValues (rProps r))))
                             ++ deriveKeys (tree (values (rState r))))])
                  (pending w) (lastDeps w))).
  { intros r w Hnone. unfold resetForm. rewrite Hnone. cbn.
    unfold emit, record, modify, withState. cbn.
    now rewrite <- app_assoc. }
  split.
  - intros r w Hnone. unfold exec. rewrite (Hfun r w Hnone). cbn.
    repeat split.
  - intros p w Hreach Hnone.
    pose proof (reachable_quiescent p w Hreach) as Hq.
    unfold quiescent, depsChanged in Hq.
    apply Bool.orb_false_elim in Hq. destruct Hq as [Hq _].
    apply Bool.orb_false_elim in Hq. destruct Hq as [Hsub Hre].
    unfold dispatch, exec, bind. cbn [handle].
    rewrite (Hfun (render w) w Hnone).
    match goal with
    | |- context [flush rounds ?w1] =>
        destruct (flush_idle rounds w1 eq_refl Hsub Hre) as [d Hd];
        unfold exec in Hd; rewrite Hd
    end.
    cbn. repeat split.
Qed.

End Store.

(** ** Submitting *)

#[local] Instance aside_pre : PreOrder aside.
Proof.
  split.
  - intros w. unfold aside. auto.
  - intros a b c (A1 & A2 & A3 & A4) (B1 & B2 & B3 & B4). unfold aside.
    repeat split; congruence.
Qed.

#[local] Instance keepsTouched_pre : PreOrder keepsTouched.
Proof.
  split.
  - intros w. unfold keepsTouched. reflexivity.
  - intros a b c. unfold keepsTouched. congruence.
Qed.

#[local] Instance grows_pre : PreOrder grows.
Proof.
  split.
  - intros w. exists []. symmetry. apply app_nil_r.
  - intros a b c [r1 H1] [r2 H2]. exists (r1 ++ r2).
    now rewrite H2, H1, app_assoc.
Qed.

Ltac grows_leaf :=
  first
    [ solve [ intros ?w; prim_steps; cbv [grows modify alloc withState snd];
              cbn; eexists; reflexivity ]
    | solve [ intros ?w; prim_steps; cbv [grows modify alloc withState snd];
              cbn; exists []; symmetry; apply app_nil_r ] ].

Ltac aside_leaf :=
  solve [ intros ?w; prim_steps; cbv [aside modify alloc withState snd];
          cbn -[invoked passes];
          rewrite ?invoked_snoc_emit, ?invoked_snoc_enter, ?passes_snoc_emit,
            ?passes_snoc_reset;
          repeat split; reflexivity ].

Ltac touched_leaf :=
  solve [ intros ?w; prim_steps; cbv [keepsTouched modify alloc withState snd];
          cbn; auto ].

Section Submission.
Context {helpers : Helpers}.

Lemma runBagCall_aside c : respects aside (runBagCall c).
Proof. destruct c; aside_leaf. Qed.

Lemma resetForm_aside r : respects aside (resetForm r).
Proof. unfold resetForm. respects_with aside_leaf. Qed.

Lemma runBagCall_keepsTouched c : respects keepsTouched (runBagCall c).
Proof. destruct c; touched_leaf. Qed.

Lemma runBagCall_grows c : respects grows (runBagCall c).
Proof. unfold runBagCall, setFormErr. respects_with grows_leaf. Qed.

Lemma resetForm_grows r : respects grows (resetForm r).
Proof. unfold resetForm. respects_with grows_leaf. Qed.

End Submission.

Section SubmissionMachine.
Context {helpers : Helpers}.

Lemma handleSubmit_eq r w :
  handleSubmit r w
  = (if blocked r (validationErrors r)
     then (setSubmitting false ;; emit ["s"]) (validated r w)
     else invokeSubmit r (validated r w)).
Proof.
  unfold handleSubmit, validated, exec, bind, validateForm. cbn.
  destruct (blocked r (validationErrors r)); reflexivity.
Qed.

Lemma invokeSubmit_eq r w :
  let run := onSubmit (rProps r) (tree (values (rState r))) in
  let w2 :=
    exec (forEach runBagCall (sCalls run))
      (exec (record (Invoke (OnSubmit (tree (values (rState r)))))) w) in
  invokeSubmit r w
  = match settle (sOutcome run) with
    | Some s => defer r s w2
    | None => (tt, w2)
    end.
Proof.
  unfold invokeSubmit, exec, bind. cbn [record modify snd].
  destruct (forEach runBagCall _ _) as [[] w2]. cbn [snd].
  destruct (settle _); reflexivity.
Qed.

Lemma invokeSubmit_aside_but r w :
  let w' := exec (invokeSubmit r) w in
  touched (state w') = touched (state w)
  /\ isSubmitting (state w') = isSubmitting (state w)
  /\ invoked (trace w')
     = invoked (trace w) ++ [OnSubmit (tree (values (rState r)))]
  /\ pending w'
     = pending w
       ++ match settle (sOutcome (onSubmit (rProps r)
                                    (tree (values (rState r))))) with
          | Some s => [(r, s)]
          | None => []
          end.
Proof.
  unfold exec at 1. rewrite invokeSubmit_eq.
  set (run := onSubmit (rProps r) (tree (values (rState r)))).
  set (w1 := exec (record (Invoke (OnSubmit (tree (values (rState r)))))) w).
  destruct (respects_forEach aside runBagCall (sCalls run)
              runBagCall_aside w1) as (A1 & A2 & A3 & _).
  pose proof (respects_forEach keepsTouched runBagCall (sCalls run)
                runBagCall_keepsTouched w1) as T.
  unfold keepsTouched in T. fold (exec (forEach runBagCall (sCalls run)) w1) in *.
  set (w2 := exec (forEach runBagCall (sCalls run)) w1) in *.
  assert (I1 : invoked (trace w1)
               = invoked (trace w) ++ [OnSubmit (tree (values (rState r)))]).
  { unfold w1. cbn -[invoked]. apply invoked_snoc. }
  destruct (settle (sOutcome run)); cbn -[invoked];
    rewrite T, A1, A2, A3, I1, ?app_nil_r; auto.
Qed.

Lemma validated_eq r w :
  validated r w
  = mkWorld (props w)
      (mkFormState (values (state w))
         (mkObj (IdFresh (nextId w))
            (deriveInitial (validationErrors r) (VBool true)))
         (validationErrors r) (isSubmitting (state w)) (formError (state w)))
      (isDirty w) (S (nextId w))
      (trace w
       ++ [Enter OpHandleSubmit;
           Emit (deriveKeys (validationErrors r)
                 ++ deriveKeys (errors (rState r)))])
      (pending w) (lastDeps w).
Proof.
  unfold validated, exec. cbn. now rewrite <- app_assoc.
Qed.

(** What a blocked submission does, whatever the helpers are. *)
Lemma handleSubmit_blocked r w :
  truthy (shouldSubmitWhenInvalid (rProps r)) = false ->
  deriveKeys (validationErrors r) <> [] ->
  exec (handleSubmit r) w
  = mkWorld (props w)
      (mkFormState (values (state w))
         (mkObj (IdFresh (nextId w))
            (deriveInitial (validationErrors r) (VBool true)))
         (validationErrors r) false (formError (state w)))
      (isDirty w) (S (nextId w))
      (trace w
       ++ [Enter OpHandleSubmit;
           Emit (deriveKeys (validationErrors r)
                 ++ deriveKeys (errors (rState r)));
           Emit ["s"]])
      (pending w) (lastDeps w).
Proof.
  intros Hpolicy Hkeys. unfold exec. rewrite handleSubmit_eq.
  assert (Hb : blocked r (validationErrors r) = true).
  { unfold blocked. rewrite Hpolicy. cbn.
    destruct (deriveKeys (validationErrors r)); [ contradiction | reflexivity ]. }
  rewrite Hb, validated_eq. cbn. now rewrite <- app_assoc.
Qed.

Lemma handleSubmit_touched r w :
  touched (state (exec (handleSubmit r) w))
  = mkObj (IdFresh (nextId w))
      (deriveInitial (validationErrors r) (VBool true)).
Proof.
  unfold exec. rewrite handleSubmit_eq.
  destruct (blocked r (validationErrors r)).
  - rewrite validated_eq. reflexivity.
  - destruct (invokeSubmit_aside_but r (validated r w)) as (T & _).
    unfold exec in T. rewrite T, validated_eq. reflexivity.
Qed.

Lemma onRejected_eq r e w :
  onRejected r e w
  = match onError (rProps r) with
    | Some hook =>
        (hThrows (hook e),
         exec (forEach runBagCall (hCalls (hook e)))
           (exec (record (Invoke (OnError e))) (hookPoint w)))
    | None => (None, hookPoint w)
    end.
Proof.
  unfold onRejected, hookPoint, exec.
  destruct (onError (rProps r)) as [hook | ]; [ | reflexivity ].
  cbn. unfold bind.
  destruct (forEach runBagCall (hCalls (hook e)) _) as [[] w2]. reflexivity.
Qed.

Lemma onFulfilled_eq r v w :
  onFulfilled r v w
  = match onSuccess (rProps r) with
    | Some hook =>
        (hThrows (hook v),
         exec (forEach (runSuccessCall r) (hCalls (hook v)))
           (exec (record (Invoke (OnSuccess v))) (hookPoint w)))
    | None => (None, hookPoint w)
    end.
Proof.
  unfold onFulfilled, hookPoint, exec.
  destruct (onSuccess (rProps r)) as [hook | ]; [ | reflexivity ].
  cbn. unfold bind.
  destruct (forEach (runSuccessCall r) (hCalls (hook v)) _) as [[] w2].
  reflexivity.
Qed.

Lemma onRejected_idle r e w :
  isSubmitting (state (exec (onRejected r e) w)) = false.
Proof.
  unfold exec. rewrite onRejected_eq.
  destruct (onError (rProps r)) as [hook | ]; [ | reflexivity ].
  cbn [snd].
  destruct (respects_forEach aside runBagCall (hCalls (hook e))
              runBagCall_aside
              (exec (record (Invoke (OnError e))) (hookPoint w)))
    as (A & _).
  unfold exec in *. rewrite A. reflexivity.
Qed.

Lemma onFulfilled_idle r v w :
  isSubmitting (state (exec (onFulfilled r v) w)) = false.
Proof.
  unfold exec. rewrite onFulfilled_eq.
  destruct (onSuccess (rProps r)) as [hook | ]; [ | reflexivity ].
  cbn [snd].
  assert (Hs : forall c, respects aside (runSuccessCall r c)).
  { intros []. apply resetForm_aside. }
  destruct (respects_forEach aside (runSuccessCall r) (hCalls (hook v)) Hs
              (exec (record (Invoke (OnSuccess v))) (hookPoint w)))
    as (A & _).
  unfold exec in *. rewrite A. reflexivity.
Qed.

Lemma onFulfilled_trace r v w :
  match onSuccess (rProps r) with
  | Some _ =>
      exists rest,
        trace (exec (onFulfilled r v) w)
        = trace w ++ Emit ["s"] :: Invoke (OnSuccess v) :: rest
  | None => trace (exec (onFulfilled r v) w) = trace w ++ [Emit ["s"]]
  end.
Proof.
  unfold exec. rewrite onFulfilled_eq.
  destruct (onSuccess (rProps r)) as [hook | ]; [ | reflexivity ].
  cbn [snd].
  assert (Hs : forall c, respects grows (runSuccessCall r c)).
  { intros []. apply resetForm_grows. }
  destruct (respects_forEach grows (runSuccessCall r) (hCalls (hook v)) Hs
              (exec (record (Invoke (OnSuccess v))) (hookPoint w)))
    as [rest Hrest].
  exists rest. unfold exec in *. rewrite Hrest. cbn.
  now rewrite <- !app_assoc.
Qed.

Lemma onRejected_trace r e w :
  match onError (rProps r) with
  | Some _ =>
      exists rest,
        trace (exec (onRejected r e) w)
        = trace w ++ Emit ["s"] :: Invoke (OnError e) :: rest
  | None => trace (exec (onRejected r e) w) = trace w ++ [Emit ["s"]]
  end.
Proof.
  unfold exec. rewrite onRejected_eq.
  destruct (onError (rProps r)) as [hook | ]; [ | reflexivity ].
  cbn [snd].
  destruct (respects_forEach grows runBagCall (hCalls (hook e))
              runBagCall_grows
              (exec (record (Invoke (OnError e))) (hookPoint w)))
    as [rest Hrest].
  exists rest. unfold exec in *. rewrite Hrest. cbn.
  now rewrite <- !app_assoc.
Qed.

Lemma continuation_idle r s w :
  isSubmitting (state (exec (continuation r s) w)) = false.
Proof.
  destruct s as [v | e]; [ | apply onRejected_idle ].
  unfold continuation, exec, bind.
  pose proof (onFulfilled_idle r v w) as Hf. unfold exec in Hf.
  destruct (onFulfilled r v w) as [[thrown | ] w1]; [ | exact Hf ].
  apply onRejected_idle.
Qed.

(** The settling of a promise, effects included: the continuation runs on
    the form without that promise, and the effects after it can only
    validate. *)
Lemma dispatch_settle p w r s rest :
  reachable p w ->
  pending w = (r, s) :: rest ->
  revalidated (exec (continuation r s) (dropPending w)) (dispatch EvSettle w).
Proof.
  intros Hreach Hpending.
  pose proof (reachable_quiescent p w Hreach) as Hq.
  unfold quiescent, depsChanged in Hq.
  apply Bool.orb_false_elim in Hq. destruct Hq as [Hq _].
  apply Bool.orb_false_elim in Hq. destruct Hq as [Hsub Hre].
  rewrite dispatch_eq.
  assert (E : exec (handle EvSettle) w
              = exec (continuation r s) (dropPending w)).
  { unfold exec. cbn [handle]. rewrite Hpending. unfold bind.
    destruct (continuation r s (dropPending w)) as [x w1]. reflexivity. }
  rewrite E.
  destruct (continuation_calm r s (dropPending w)) as (Hp & Hl & _).
  fold (exec (continuation r s) (dropPending w)) in Hp, Hl.
  set (w1 := exec (continuation r s) (dropPending w)) in *.
  change (props (dropPending w)) with (props w) in Hp.
  change (lastDeps (dropPending w)) with (lastDeps w) in Hl.
  apply flush_revalidated_idle.
  - rewrite Hl. destruct (lastDeps w); [ discriminate | discriminate Hsub ].
  - rewrite Hl. unfold reinitChanged, depsOf in *. cbn in *. now rewrite Hp.
  - intros _. apply continuation_idle.
Qed.

Lemma onRejected_invoked r e w :
  invoked (trace (exec (onRejected r e) w))
  = invoked (trace w)
    ++ match onError (rProps r) with
       | Some _ => [OnError e]
       | None => []
       end.
Proof.
  unfold exec. rewrite onRejected_eq.
  destruct (onError (rProps r)) as [hook | ]; cbn [snd].
  - destruct (respects_forEach aside runBagCall (hCalls (hook e))
                runBagCall_aside
                (exec (record (Invoke (OnError e))) (hookPoint w)))
      as (_ & _ & I & _).
    unfold exec in *. rewrite I.
    unfold record, modify, hookPoint, exec. cbn -[invoked].
    now rewrite invoked_snoc, invoked_snoc_emit.
  - unfold hookPoint, exec. cbn -[invoked].
    now rewrite invoked_snoc_emit, app_nil_r.
Qed.

Lemma onFulfilled_invoked r v w :
  invoked (trace (exec (onFulfilled r v) w))
  = invoked (trace w)
    ++ match onSuccess (rProps r) with
       | Some _ => [OnSuccess v]
       | None => []
       end.
Proof.
  unfold exec. rewrite onFulfilled_eq.
  destruct (onSuccess (rProps r)) as [hook | ]; cbn [snd].
  - assert (Ha : forall x, respects aside (runSuccessCall r x)).
    { intros []. apply resetForm_aside. }
    destruct (respects_forEach aside (runSuccessCall r) (hCalls (hook v))
                Ha (exec (record (Invoke (OnSuccess v))) (hookPoint w)))
      as (_ & _ & I & _).
    unfold exec in *. rewrite I.
    unfold record, modify, hookPoint, exec. cbn -[invoked].
    now rewrite invoked_snoc, invoked_snoc_emit.
  - unfold hookPoint, exec. cbn -[invoked].
    now rewrite invoked_snoc_emit, app_nil_r.
Qed.

Lemma continuation_fulfilled r v w :
  continuation r (Fulfilled v) w
  = match fst (onFulfilled r v w) with
    | Some thrown => onRejected r thrown (exec (onFulfilled r v) w)
    | None => (None, exec (onFulfilled r v) w)
    end.
Proof.
  unfold continuation, exec, bind.
  destruct (onFulfilled r v w) as [[thrown | ] w1]; reflexivity.
Qed.

(** What the promise returned by [handleSubmit] ends with: it is rejected
    exactly with what the [onError] hook throws. *)
Lemma continuation_result r s w :
  fst (continuation r s w)
  = match s with
    | Fulfilled v =>
        match onSuccess (rProps r) with
        | Some hook =>
            match hThrows (hook v) with
            | Some thrown =>
                match onError (rProps r) with
                | Some handler => hThrows (handler thrown)
                | None => None
                end
            | None => None
            end
        | None => None
        end
    | Rejected e =>
        match onError (rProps r) with
        | Some handler => hThrows (handler e)
        | None => None
        end
    end.
Proof.
  destruct s as [v | e].
  - rewrite continuation_fulfilled, onFulfilled_eq.
    destruct (onSuccess (rProps r)) as [hook | ]; cbn [fst]; [ | reflexivity ].
    destruct (hThrows (hook v)) as [thrown | ]; [ | reflexivity ].
    rewrite onRejected_eq.
    destruct (onError (rProps r)); reflexivity.
  - cbn [continuation]. rewrite onRejected_eq.
    destruct (onError (rProps r)); reflexivity.
Qed.

(** The hooks the chain calls, and with what. *)
Lemma continuation_invoked r s w :
  invoked (trace (exec (continuation r s) w))
  = invoked (trace w)
    ++ match s with
       | Fulfilled v =>
           match onSuccess (rProps r) with
           | Some hook =>
               OnSuccess v
               :: match hThrows (hook v), onError (rProps r) with
                  | Some thrown, Some _ => [OnError thrown]
                  | _, _ => []
                  end
           | None => []
           end
       | Rejected e =>
           match onError (rProps r) with
           | Some _ => [OnError e]
           | None => []
           end
       end.
Proof.
  destruct s as [v | e]; [ | apply onRejected_invoked ].
  unfold exec at 1. rewrite continuation_fulfilled.
  pose proof (onFulfilled_invoked r v w) as If.
  assert (Hfst : fst (onFulfilled r v w)
                 = match onSuccess (rProps r) with
                   | Some hook => hThrows (hook v)
                   | None => None
                   end).
  { rewrite onFulfilled_eq. destruct (onSuccess (rProps r)); reflexivity. }
  rewrite Hfst.
  destruct (onSuccess (rProps r)) as [hook | ]; [ | exact If ].
  destruct (hThrows (hook v)) as [thrown | ]; [ | exact If ].
  change (snd (onRejected r thrown (exec (onFulfilled r v) w)))
    with (exec (onRejected r thrown) (exec (onFulfilled r v) w)).
  rewrite onRejected_invoked, If, <- app_assoc.
  destruct (onError (rProps r)); reflexivity.
Qed.

(** What the calls of the bags do: [setErrors] schedules the errors,
    [setFormError] schedules the message and publishes [f]. *)
Lemma runBagCall_does :
  (forall e w,
      exec (runBagCall (CallSetErrors e)) w
      = mkWorld (props w)
          (mkFormState (values (state w)) (touched (state w)) e
             (isSubmitting (state w)) (formError (state w)))
          (isDirty w) (nextId w) (trace w) (pending w) (lastDeps w))
  /\ (forall msg w,
        exec (runBagCall (CallSetFormError msg)) w
        = mkWorld (props w)
            (mkFormState (values (state w)) (touched (state w))
               (errors (state w)) (isSubmitting (state w)) (Some msg))
            (isDirty w) (nextId w) (trace w ++ [Emit ["f"]]) (pending w)
            (lastDeps w)).
Proof. split; reflexivity. Qed.


(** C3. However [onSubmit] ends - a value, a resolved promise, an exception
    or a rejected promise - the promise of [handleSubmit] settles and its
    chain runs [.then] for a result and [.catch] for an error, so the
    failure of [onSubmit] itself never leaves [handleSubmit]. Either
    callback first schedules [isSubmitting = false] and publishes [s], and
    only then calls its hook, if there is one: [onSuccess] with the result
    and a bag whose [resetForm] resets the form, or [onError] with the error
    and a bag whose [setErrors] schedules the errors and whose
    [setFormError] schedules the message and publishes [f]. The chain does
    not catch everything: a hook [onSuccess] that throws sends it on to
    [.catch], which calls [onError] with what was thrown, and what the
    [onError] hook throws is what the promise returned by [handleSubmit] is
    rejected with. [isSubmitting] is [false] afterwards, also once the
    effects of the settling have run. *)
Theorem submit_outcome_is_settled_by_the_machine
  (r : Render) (w0 w : World) (o : Outcome) :
  sOutcome (onSubmit (rProps r) (tree (values (rState r)))) = o ->
  o <> NeverSettles ->
  exists s,
    settle o = Some s
    /\ (blocked r (validationErrors r) = false ->
        pending (exec (handleSubmit r) w0) = pending w0 ++ [(r, s)]
        /\ invoked (trace (exec (handleSubmit r) w0))
           = invoked (trace w0) ++ [OnSubmit (tree (values (rState r)))])
    /\ match o with
       | Returns v | Resolves v => s = Fulfilled v
       | Throws e | Rejects e => s = Rejected e
       | NeverSettles => False
       end
    /\ isSubmitting (state (hookPoint w)) = false
    /\ trace (hookPoint w) = trace w ++ [Emit ["s"]]
    /\ match s with
       | Fulfilled v =>
           onFulfilled r v w
           = match onSuccess (rProps r) with
             | Some hook =>
                 (hThrows (hook v),
                  exec (forEach (runSuccessCall r) (hCalls (hook v)))
                    (exec (record (Invoke (OnSuccess v))) (hookPoint w)))
             | None => (None, hookPoint w)
             end
           /\ continuation r s w
              = match fst (onFulfilled r v w) with
                | Some thrown => onRejected r thrown (exec (onFulfilled r v) w)
                | None => (None, exec (onFulfilled r v) w)
                end
       | Rejected e =>
           continuation r s w = onRejected r e w
           /\ onRejected r e w
              = match onError (rProps r) with
                | Some hook =>
                    (hThrows (hook e),
                     exec (forEach runBagCall (hCalls (hook e)))
                       (exec (record (Invoke (OnError e))) (hookPoint w)))
                | None => (None, hookPoint w)
                end
       end
    /\ match s with
       | Fulfilled v =>
           match onSuccess (rProps r) with
           | Some _ =>
               exists rest,
                 trace (exec (onFulfilled r v) w)
                 = trace w ++ Emit ["s"] :: Invoke (OnSuccess v) :: rest
           | None => trace (exec (onFulfilled r v) w) = trace w ++ [Emit ["s"]]
           end
       | Rejected e =>
           match onError (rProps r) with
           | Some _ =>
               exists rest,
                 trace (exec (onRejected r e) w)
                 = trace w ++ Emit ["s"] :: Invoke (OnError e) :: rest
           | None => trace (exec (onRejected r e) w) = trace w ++ [Emit ["s"]]
           end
       end
    /\ isSubmitting (state (exec (continuation r s) w)) = false
    /\ (forall thrown,
          fst (continuation r s w) = Some thrown ->
          exists hook e,
            onError (rProps r) = Some hook
            /\ hThrows (hook e) = Some thrown)
    /\ (forall p wq rest,
          reachable p wq ->
          pending wq = (r, s) :: rest ->
          isSubmitting (state (dispatch EvSettle wq)) = false
          /\ pending (dispatch EvSettle wq) = rest)
    /\ fst (continuation r s w)
       = match s with
         | Fulfilled v =>
             match onSuccess (rProps r) with
             | Some hook =>
                 match hThrows (hook v) with
                 | Some thrown =>
                     match onError (rProps r) with
                     | Some handler => hThrows (handler thrown)
                     | None => None
                     end
                 | None => None
                 end
             | None => None
             end
         | Rejected e =>
             match onError (rProps r) with
             | Some handler => hThrows (handler e)
             | None => None
             end
         end
    /\ invoked (trace (exec (continuation r s) w))
       = invoked (trace w)
         ++ match s with
            | Fulfilled v =>
                match onSuccess (rProps r) with
                | Some hook =>
                    OnSuccess v
                    :: match hThrows (hook v), onError (rProps r) with
                       | Some thrown, Some _ => [OnError thrown]
                       | _, _ => []
                       end
                | None => []
                end
            | Rejected e =>
                match onError (rProps r) with
                | Some _ => [OnError e]
                | None => []
                end
            end
    /\ (forall e w1,
          exec (runBagCall (CallSetErrors e)) w1
          = mkWorld (props w1)
              (mkFormState (values (state w1)) (touched (state w1)) e
                 (isSubmitting (state w1)) (formError (state w1)))
              (isDirty w1) (nextId w1) (trace w1) (pending w1) (lastDeps w1))
    /\ (forall msg w1,
          exec (runBagCall (CallSetFormError msg)) w1
          = mkWorld (props w1)
              (mkFormState (values (state w1)) (touched (state w1))
                 (errors (state w1)) (isSubmitting (state w1)) (Some msg))
              (isDirty w1) (nextId w1) (trace w1 ++ [Emit ["f"]])
              (pending w1) (lastDeps w1))
    /\ (forall w1,
          let w' := exec (runSuccessCall r CallResetForm) w1 in
          isDirty w' = false
          /\ values (state w') = orEmpty (initialValues (rProps r))
          /\ (forall ie, initialErrors (rProps r) = Some ie ->
                tree (touched (state w')) = deriveInitial ie (VBool true)
                /\ errors (state w') = ie)
          /\ trace w'
             = trace w1
               ++ [Enter OpResetForm;
                   Emit (deriveKeys (tree (orEmpty (initialValues (rProps r))))
                         ++ deriveKeys (tree (values (rState r))))]).
Proof.
  intros Hrun Ho.
  assert (Hreset : forall w1,
             let w' := exec (runSuccessCall r CallResetForm) w1 in
             isDirty w' = false
             /\ values (state w') = orEmpty (initialValues (rProps r))
             /\ (forall ie, initialErrors (rProps r) = Some ie ->
                   tree (touched (state w')) = deriveInitial ie (VBool true)
                   /\ errors (state w') = ie)
             /\ trace w'
                = trace w1
                  ++ [Enter OpResetForm;
                      Emit (deriveKeys
                              (tree (orEmpty (initialValues (rProps r))))
                            ++ deriveKeys (tree (values (rState r))))]).
  { intros w1. cbn zeta.
    change (runSuccessCall r CallResetForm) with (resetForm r).
    destruct (resetForm_does r w1) as (D & V & E & _ & _ & T).
    split; [ exact D | ].
    split; [ exact V | ].
    split; [ exact E | exact T ]. }
  assert (Hev : forall s p wq rest,
             reachable p wq ->
             pending wq = (r, s) :: rest ->
             isSubmitting (state (dispatch EvSettle wq)) = false
             /\ pending (dispatch EvSettle wq) = rest).
  { intros s p wq rest Hreach Hpending.
    destruct (dispatch_settle p wq r s rest Hreach Hpending)
      as (_ & _ & _ & S & _ & _ & Q & _).
    rewrite S, Q, continuation_idle. split; [ reflexivity | ].
    assert (Ha : forall x, respects aside (runSuccessCall r x)).
    { intros []. apply resetForm_aside. }
    assert (Hq : pending (exec (continuation r s) (dropPending wq))
                 = pending (dropPending wq)).
    { assert (Hrejq : forall e w1,
                 pending (exec (onRejected r e) w1) = pending w1).
      { intros e w1. unfold exec. rewrite onRejected_eq.
        destruct (onError (rProps r)) as [hook | ]; [ | reflexivity ].
        cbn [snd].
        destruct (respects_forEach aside runBagCall (hCalls (hook e))
                    runBagCall_aside
                    (exec (record (Invoke (OnError e))) (hookPoint w1)))
          as (_ & A & _).
        unfold exec in *. rewrite A. reflexivity. }
      assert (Hfulq : forall v w1,
                 pending (exec (onFulfilled r v) w1) = pending w1).
      { intros v w1. unfold exec. rewrite onFulfilled_eq.
        destruct (onSuccess (rProps r)) as [hook | ]; [ | reflexivity ].
        cbn [snd].
        destruct (respects_forEach aside (runSuccessCall r) (hCalls (hook v))
                    Ha (exec (record (Invoke (OnSuccess v))) (hookPoint w1)))
          as (_ & A & _).
        unfold exec in *. rewrite A. reflexivity. }
      destruct s as [v | e]; [ | apply Hrejq ].
      unfold continuation, exec, bind.
      pose proof (Hfulq v (dropPending wq)) as Hf. unfold exec in Hf.
      destruct (onFulfilled r v (dropPending wq)) as [[thrown | ] w1];
        [ | exact Hf ].
      cbn [snd] in Hf. rewrite <- Hf. apply Hrejq. }
    rewrite Hq. cbn. now rewrite Hpending. }
  assert (Hreg : forall s,
             settle o = Some s ->
             blocked r (validationErrors r) = false ->
             pending (exec (handleSubmit r) w0) = pending w0 ++ [(r, s)]
             /\ invoked (trace (exec (handleSubmit r) w0))
                = invoked (trace w0)
                  ++ [OnSubmit (tree (values (rState r)))]).
  { intros s Hs Hb. unfold exec. rewrite handleSubmit_eq, Hb.
    destruct (invokeSubmit_aside_but r (validated r w0)) as (_ & _ & I & P).
    unfold exec in *. rewrite P, I, Hrun, Hs, validated_eq. cbn.
    change (trace w0 ++ [Enter OpHandleSubmit; Emit ?ps])
      with (trace w0 ++ [Enter OpHandleSubmit] ++ [Emit ps]).
    rewrite app_assoc, invoked_snoc_emit, invoked_snoc_enter. auto. }
  assert (Hrej : forall e w1 thrown,
             fst (onRejected r e w1) = Some thrown ->
             exists hook e',
               onError (rProps r) = Some hook
               /\ hThrows (hook e') = Some thrown).
  { intros e w1 thrown. rewrite onRejected_eq.
    destruct (onError (rProps r)) as [hook | ]; [ | discriminate ].
    cbn [fst]. intros H. exists hook, e. auto. }
  assert (Hful : forall v,
             continuation r (Fulfilled v) w
             = match fst (onFulfilled r v w) with
               | Some thrown => onRejected r thrown (exec (onFulfilled r v) w)
               | None => (None, exec (onFulfilled r v) w)
               end).
  { intros v. unfold continuation, exec, bind.
    destruct (onFulfilled r v w) as [[thrown | ] w1]; reflexivity. }
  assert (Hidle : forall s, isSubmitting (state (exec (continuation r s) w))
                            = false).
  { intros [v | e].
    - unfold exec. rewrite Hful.
      destruct (fst (onFulfilled r v w)).
      + apply onRejected_idle.
      + apply onFulfilled_idle.
    - apply onRejected_idle. }
  assert (Hend : forall s thrown,
             fst (continuation r s w) = Some thrown ->
             exists hook e,
               onError (rProps r) = Some hook
               /\ hThrows (hook e) = Some thrown).
  { intros [v | e] thrown.
    - rewrite Hful. destruct (fst (onFulfilled r v w)).
      + apply Hrej.
      + discriminate.
    - apply Hrej. }
  destruct o as [v | v | e | e | ]; [ | | | | contradiction ].
  1, 2: exists (Fulfilled v).
  3, 4: exists (Rejected e).
  all: split; [ reflexivity | ].
  all: split; [ apply Hreg; reflexivity | ].
  all: split; [ reflexivity | ].
  all: split; [ reflexivity | ].
  all: split; [ reflexivity | ].
  all: split;
    [ split; first [ apply onFulfilled_eq | apply Hful | apply onRejected_eq
                   | reflexivity ] | ].
  all: split; [ first [ apply onFulfilled_trace | apply onRejected_trace ] | ].
  all: split; [ apply Hidle | ].
  all: split; [ apply Hend | ].
  all: split; [ apply Hev | ].
  all: split; [ exact (continuation_result r _ w) | ].
  all: split; [ exact (continuation_invoked r _ w) | ].
  all: split; [ exact (proj1 runBagCall_does) | ].
  all: split; [ exact (proj2 runBagCall_does) | exact Hreset ].
Qed.

End SubmissionMachine.

(** ** Submitting twice, blocked submissions, the dirty flag *)

Section Lifecycle.
Context {helpers : Helpers}.

Lemma submit_in_flight w :
  isSubmitting (state w) = true ->
  submit w
  = (tt, mkWorld (props w) (state w) (isDirty w) (nextId w)
           (trace w ++ [Emit ["s"]]) (pending w) (lastDeps w)).
Proof.
  intros Hs. unfold submit, setSubmitting, emit, record, modify, withState.
  cbn. destruct (state w) as [v t e s f]. cbn in *. subst s. reflexivity.
Qed.

(** A [submit] on an idle form: the first round of effects is one pass of
    [handleSubmit], the rounds after it can only validate. *)
Lemma dispatch_submit_idle p w :
  reachable p w ->
  isSubmitting (state w) = false ->
  revalidated (exec (handleSubmit (render (exec submit w))) (exec submit w))
    (dispatch EvSubmit w).
Proof.
  intros Hreach Hidle.
  pose proof (reachable_quiescent p w Hreach) as Hq.
  unfold quiescent, depsChanged in Hq.
  apply Bool.orb_false_elim in Hq. destruct Hq as [Hq Hval].
  apply Bool.orb_false_elim in Hq. destruct Hq as [Hsub Hre].
  rewrite dispatch_eq.
  change (exec (handle EvSubmit) w) with (exec submit w).
  set (w1 := exec submit w).
  assert (Hchanged : submitChanged (lastDeps w1) (depsOf (render w1)) = true).
  { change (lastDeps w1) with (lastDeps w). unfold submitChanged in *.
    destruct (lastDeps w) as [d0 | ]; [ | reflexivity ].
    cbn in Hsub. rewrite Hidle in Hsub.
    apply Bool.negb_false_iff, Dep_eqb_eq in Hsub. rewrite Hsub.
    reflexivity. }
  unfold rounds. rewrite flush_S. unfold depsChanged. rewrite Hchanged.
  cbn [orb].
  transitivity (exec commit w1); [ | apply (flush_after_commit 3 w1) ].
  unfold exec at 2. rewrite commit_eq. cbn [snd].
  transitivity (snd (runEffects (lastDeps w1) (render w1) w1));
    [ | apply revalidated_withLastDeps ].
  unfold runEffects. rewrite Hchanged.
  assert (Hre1 : reinitChanged (lastDeps w1) (depsOf (render w1)) = false)
    by exact Hre.
  assert (Hval1 : validationChanged (lastDeps w1) (depsOf (render w1))
                  = false) by exact Hval.
  rewrite Hre1, Hval1. cbn [when]. unfold submitEffect.
  change (isSubmitting (rState (render w1))) with true. cbn [when].
  unfold exec, bind, ret.
  destruct (handleSubmit (render w1) w1) as [[] w2]. reflexivity.
Qed.

(** C9. Every run of [handleSubmit], blocked or not and whatever [onSubmit]
    does, schedules as [touched] a new object holding
    [deriveInitial(fieldErrors, true)] for the errors just computed, in place
    of the previous tree, and so does every [submit] on an idle form once
    its effects have run. A path that is no leaf of the new error tree is no
    leaf of the new [touched], whatever was touched before, and every leaf of
    the new error tree is marked [true]. *)
Theorem handleSubmit_replaces_touched :
  (forall (r : Render) (w : World),
      touched (state (exec (handleSubmit r) w))
      = mkObj (IdFresh (nextId w))
          (deriveInitial (validationErrors r) (VBool true)))
  /\ (forall (p : FormOptions) (w : World),
        reachable p w ->
        isSubmitting (state w) = false ->
        tree (touched (state (dispatch EvSubmit w)))
        = deriveInitial (validationErrors (render w)) (VBool true))
  /\ (forall fieldErrors path,
        ~ In path (PathOps.deriveKeys fieldErrors) ->
        PathOps.leafAt
          (PathOps.leaves (PathOps.deriveInitial fieldErrors (VBool true)))
          path = None)
  /\ (forall fieldErrors path,
        In path (PathOps.deriveKeys fieldErrors) ->
        PathOps.leafAt
          (PathOps.leaves (PathOps.deriveInitial fieldErrors (VBool true)))
          path = Some (VBool true)).
Proof.
  split; [ | split; [ | split ] ].
  - intros r w. apply handleSubmit_touched.
  - intros p w Hreach Hidle.
    destruct (dispatch_submit_idle p w Hreach Hidle) as (_ & _ & T & _).
    rewrite T, handleSubmit_touched. reflexivity.
  - intros e path. now apply PathFacts.deriveInitial_only.
  - intros e path. now apply PathFacts.deriveInitial_marks.
Qed.

(** What a blocked [submit] on an idle form comes to, effects included. *)
Lemma dispatch_submit_blocked p w :
  reachable p w ->
  isSubmitting (state w) = false ->
  truthy (shouldSubmitWhenInvalid (props w)) = false ->
  deriveKeys (validationErrors (render w)) <> [] ->
  let w' := dispatch EvSubmit w in
  errors (state w') = validationErrors (render w)
  /\ tree (touched (state w'))
     = deriveInitial (validationErrors (render w)) (VBool true)
  /\ isSubmitting (state w') = false
  /\ invoked (trace w') = invoked (trace w)
  /\ pending w' = pending w
  /\ passes (trace w') = S (passes (trace w)).
Proof.
  intros Hreach Hidle Hpolicy Hkeys. cbn zeta.
  destruct (dispatch_submit_idle p w Hreach Hidle)
    as (_ & _ & T & S & _ & _ & Q & I & N & E).
  rewrite (handleSubmit_blocked (render (exec submit w)) (exec submit w)
             Hpolicy Hkeys) in *.
  cbn [state errors touched tree isSubmitting trace pending] in *.
  change (validationErrors (render (exec submit w)))
    with (validationErrors (render w)) in *.
  rewrite T, S, Q, I, N.
  change (trace (exec submit w)) with (trace w ++ [Emit ["s"]]).
  change ((trace w ++ [Emit ["s"]]) ++ [Enter OpHandleSubmit; Emit ?a; Emit ?b])
    with ((trace w ++ [Emit ["s"]])
          ++ [Enter OpHandleSubmit] ++ [Emit a] ++ [Emit b]).
  rewrite !app_assoc, !invoked_snoc_emit, invoked_snoc_enter,
    !passes_snoc_emit, passes_snoc_pass, invoked_snoc_emit, passes_snoc_emit.
  repeat split.
  destruct E as [E | E]; exact E.
Qed.

(** C1 (amended). A call of [submit] while [isSubmitting] is [true] leaves
    the form state, the dirty flag and the outstanding promise as they are
    and starts no second pass of [handleSubmit]; it does publish [s] once
    more, and the listeners on [s] are invoked again. *)
Theorem submit_in_flight_only_publishes (p : FormOptions) (w : World) :
  reachable p w ->
  isSubmitting (state w) = true ->
  let w' := dispatch EvSubmit w in
  state w' = state w
  /\ isDirty w' = isDirty w
  /\ pending w' = pending w
  /\ passes (trace w') = passes (trace w)
  /\ invoked (trace w') = invoked (trace w)
  /\ trace w' = trace w ++ [Emit ["s"]]
  /\ (forall subs,
        Emitter.notifications subs (trace w')
        = Emitter.notifications subs (trace w) ++ Emitter.publish subs ["s"]).
Proof.
  intros Hreach Hs.
  pose proof (reachable_quiescent p w Hreach) as Hq.
  unfold dispatch, exec, bind. cbn [handle].
  rewrite (submit_in_flight w Hs).
  rewrite flush_quiescent by exact Hq. cbn [snd trace state isDirty pending].
  repeat split.
  - apply passes_snoc_emit.
  - apply invoked_snoc_emit.
  - intros subs. apply notifications_snoc.
Qed.

Lemma reachable_dirtyInv p w : reachable p w -> dirtyInv w.
Proof.
  intros Hreach.
  induction Hreach as [ | w ev _ IH ].
  - unfold mount. apply flush_keepsDirtyInv.
    unfold dirtyInv. cbn. split; [ discriminate | ].
    intros H. now apply changedSinceReset_nil in H.
  - apply dispatch_keepsDirtyInv, IH.
Qed.


End Lifecycle.

(** C1. A listener on [s] is invoked again by a second [submit] made while
    the first submission is in flight. *)
Lemma second_submit_in_flight_notifies :
  reachable Scenario.config Scenario.inFlight
  /\ isSubmitting (state Scenario.inFlight) = true
  /\ Emitter.notifications Scenario.submitListener
       (trace Scenario.inFlight) = [7%nat]
  /\ Emitter.notifications Scenario.submitListener
       (trace (dispatch EvSubmit Scenario.inFlight)) = [7%nat; 7%nat]
  /\ ~ (state (dispatch EvSubmit Scenario.inFlight) = state Scenario.inFlight
        /\ Emitter.notifications Scenario.submitListener
             (trace (dispatch EvSubmit Scenario.inFlight))
           = Emitter.notifications Scenario.submitListener
               (trace Scenario.inFlight)).
Proof.
  split; [ | split; [ | split; [ | split ] ] ].
  - unfold Scenario.inFlight, run. cbn [fold_left].
    apply reach_step, reach_step, reach_mount.
  - vm_compute. reflexivity.
  - vm_compute. reflexivity.
  - vm_compute. reflexivity.
  - intros [_ H]. vm_compute in H. discriminate H.
Qed.

(** C2. With [shouldSubmitWhenInvalid] falsy and a validation result that
    has a leaf, [handleSubmit] schedules that result as [errors] and its
    all-[true] image as [touched], which marks every erroring field,
    schedules [isSubmitting = false], publishes [s] and returns: [onSubmit]
    is not called and no promise is made; the same holds for the whole
    [submit] event on an idle form, effects included, which is one pass of
    [handleSubmit]. In the scenario of the age field,
    [changeField("age", -1)] then [submit()] ends with
    [errors = { age: "invalid" }], [touched = { age: true }],
    [isSubmitting = false] and no call of [onSubmit]. *)
Theorem invalid_submission_is_blocked :
  (forall (helpers : Helpers) (r : Render) (w : World),
      truthy (shouldSubmitWhenInvalid (rProps r)) = false ->
      deriveKeys (validationErrors r) <> [] ->
      let w' := exec (handleSubmit r) w in
      errors (state w') = validationErrors r
      /\ tree (touched (state w'))
         = deriveInitial (validationErrors r) (VBool true)
      /\ isSubmitting (state w') = false
      /\ trace w'
         = trace w
           ++ [Enter OpHandleSubmit;
               Emit (deriveKeys (validationErrors r)
                     ++ deriveKeys (errors (rState r)));
               Emit ["s"]]
      /\ invoked (trace w') = invoked (trace w)
      /\ pending w' = pending w)
  /\ (forall (helpers : Helpers) (p : FormOptions) (w : World),
        reachable p w ->
        isSubmitting (state w) = false ->
        truthy (shouldSubmitWhenInvalid (props w)) = false ->
        deriveKeys (validationErrors (render w)) <> [] ->
        let w' := dispatch EvSubmit w in
        errors (state w') = validationErrors (render w)
        /\ tree (touched (state w'))
           = deriveInitial (validationErrors (render w)) (VBool true)
        /\ isSubmitting (state w') = false
        /\ invoked (trace w') = invoked (trace w)
        /\ pending w' = pending w
        /\ passes (trace w') = S (passes (trace w)))
  /\ (forall fieldErrors path,
        In path (PathOps.deriveKeys fieldErrors) ->
        PathOps.leafAt
          (PathOps.leaves (PathOps.deriveInitial fieldErrors (VBool true)))
          path = Some (VBool true))
  /\ (let w := dispatch EvSubmit Scenario.edited in
      errors (state w) = VObj [("age", VStr "invalid")]
      /\ tree (touched (state w)) = VObj [("age", VBool true)]
      /\ isSubmitting (state w) = false
      /\ invoked (trace w) = []
      /\ pending w = []).
Proof.
  split; [ | split; [ | split ] ].
  2: { intros helpers p w. apply dispatch_submit_blocked. }
  - intros helpers r w Hpolicy Hkeys. cbn zeta.
    rewrite (handleSubmit_blocked r w Hpolicy Hkeys).
    cbn [state errors touched tree isSubmitting trace pending].
    repeat split.
    change (trace w ++ [Enter OpHandleSubmit; Emit ?a; Emit ?b])
      with (trace w ++ [Enter OpHandleSubmit] ++ [Emit a] ++ [Emit b]).
    now rewrite !app_assoc, !invoked_snoc_emit, invoked_snoc_enter.
  - intros e path. now apply PathFacts.deriveInitial_marks.
  - vm_compute. repeat split.
Qed.

(** ** The properties at work on the scenario *)

Lemma inFlight_reachable : reachable Scenario.config Scenario.inFlight.
Proof.
  unfold Scenario.inFlight, run. cbn [fold_left].
  apply reach_step, reach_step, reach_mount.
Defined.

Lemma edited_reachable : reachable Scenario.config Scenario.edited.
Proof. unfold Scenario.edited. apply reach_step, reach_mount. Defined.

Lemma submit_in_flight_only_publishes_witness :
  reachable Scenario.config Scenario.inFlight
  /\ isSubmitting (state Scenario.inFlight) = true
  /\ state (dispatch EvSubmit Scenario.inFlight) = state Scenario.inFlight
  /\ passes (trace (dispatch EvSubmit Scenario.inFlight))
     = passes (trace Scenario.inFlight)
  /\ trace (dispatch EvSubmit Scenario.inFlight)
     = trace Scenario.inFlight ++ [Emit ["s"]].
Proof.
  assert (Hs : isSubmitting (state Scenario.inFlight) = true)
    by (vm_compute; reflexivity).
  destruct (submit_in_flight_only_publishes Scenario.config Scenario.inFlight
              inFlight_reachable Hs) as (S1 & _ & _ & S2 & _ & S3 & _).
  split; [ exact inFlight_reachable | ].
  split; [ exact Hs | ].
  split; [ exact S1 | ].
  split; [ exact S2 | exact S3 ].
Defined.

Lemma invalid_submission_is_blocked_witness :
  truthy (shouldSubmitWhenInvalid (rProps (render Scenario.edited))) = false
  /\ deriveKeys (validationErrors (render Scenario.edited)) <> []
  /\ reachable Scenario.config Scenario.edited
  /\ isSubmitting (state Scenario.edited) = false
  /\ isSubmitting
       (state (exec (handleSubmit (render Scenario.edited)) Scenario.edited))
     = false
  /\ invoked
       (trace (exec (handleSubmit (render Scenario.edited)) Scenario.edited))
     = invoked (trace Scenario.edited)
  /\ errors (state (dispatch EvSubmit Scenario.edited))
     = validationErrors (render Scenario.edited)
  /\ invoked (trace (dispatch EvSubmit Scenario.edited))
     = invoked (trace Scenario.edited)
  /\ PathOps.leafAt
       (PathOps.leaves
          (PathOps.deriveInitial (VObj [("age", VStr "invalid")])
             (VBool true)))
       "age" = Some (VBool true).
Proof.
  assert (H1 : truthy (shouldSubmitWhenInvalid
                         (rProps (render Scenario.edited))) = false)
    by reflexivity.
  assert (H2 : deriveKeys (validationErrors (render Scenario.edited)) <> [])
    by (vm_compute; discriminate).
  assert (H3 : isSubmitting (state Scenario.edited) = false)
    by (vm_compute; reflexivity).
  assert (H4 : In "age" (PathOps.deriveKeys (VObj [("age", VStr "invalid")]))).
  { vm_compute. left. reflexivity. }
  destruct invalid_submission_is_blocked as (F & E & L & _).
  destruct (F specHelpers (render Scenario.edited) Scenario.edited H1 H2)
    as (_ & _ & S1 & _ & S2 & _).
  destruct (E specHelpers Scenario.config Scenario.edited edited_reachable
              H3 H1 H2) as (S3 & _ & _ & S4 & _).
  split; [ exact H1 | ].
  split; [ exact H2 | ].
  split; [ exact edited_reachable | ].
  split; [ exact H3 | ].
  split; [ exact S1 | ].
  split; [ exact S2 | ].
  split; [ exact S3 | ].
  split; [ exact S4 | exact (L _ _ H4) ].
Defined.

Lemma rejected_reachable : reachable Cases.rejecting Cases.rejected.
Proof.
  unfold Cases.rejected, run. cbn [fold_left].
  apply reach_step, reach_step, reach_mount.
Defined.

Lemma submit_outcome_is_settled_by_the_machine_witness :
  sOutcome (onSubmit (rProps Cases.rejectedRender)
              (tree (values (rState Cases.rejectedRender))))
  = Rejects (VStr "denied")
  /\ Rejects (VStr "denied") <> NeverSettles
  /\ reachable Cases.rejecting Cases.rejected
  /\ pending Cases.rejected
     = [(Cases.rejectedRender, Rejected (VStr "denied"))]
  /\ invoked (trace (exec (continuation Cases.rejectedRender
                             (Rejected (VStr "denied")))
                       (dropPending Cases.rejected)))
     = invoked (trace (dropPending Cases.rejected))
       ++ [OnError (VStr "denied")]
  /\ errors (state (exec (continuation Cases.rejectedRender
                            (Rejected (VStr "denied")))
                      (dropPending Cases.rejected)))
     = VObj [("age", VStr "denied")]
  /\ formError (state (exec (continuation Cases.rejectedRender
                               (Rejected (VStr "denied")))
                         (dropPending Cases.rejected)))
     = Some "failed"%string
  /\ fst (continuation Cases.rejectedRender (Rejected (VStr "denied"))
            (dropPending Cases.rejected))
     = None
  /\ isSubmitting (state (dispatch EvSettle Cases.rejected)) = false
  /\ pending (dispatch EvSettle Cases.rejected) = []
  /\ invoked (trace (exec (continuation Cases.resettingRender
                             (Fulfilled (VStr "ok")))
                       (dropPending Cases.editedInFlight)))
     = invoked (trace (dropPending Cases.editedInFlight))
       ++ [OnSuccess (VStr "ok")].
Proof.
  assert (H1 : sOutcome (onSubmit (rProps Cases.rejectedRender)
                           (tree (values (rState Cases.rejectedRender))))
               = Rejects (VStr "denied")) by reflexivity.
  assert (H2 : Rejects (VStr "denied") <> NeverSettles) by discriminate.
  assert (H3 : pending Cases.rejected
               = [(Cases.rejectedRender, Rejected (VStr "denied"))])
    by (vm_compute; reflexivity).
  assert (H4 : sOutcome (onSubmit (rProps Cases.resettingRender)
                           (tree (values (rState Cases.resettingRender))))
               = Resolves (VStr "ok")) by reflexivity.
  assert (H5 : Resolves (VStr "ok") <> NeverSettles) by discriminate.
  destruct (submit_outcome_is_settled_by_the_machine
              Cases.rejectedRender
              (exec submit (dispatch (EvChange "age" (VNum 5))
                              (mount Cases.rejecting)))
              (dropPending Cases.rejected)
              (Rejects (VStr "denied")) H1 H2)
    as (s & _ & _ & S2 & _ & _ & S6 & _ & _ & _ & S10 & S11 & S12 & _).
  cbn in S2. subst s.
  destruct (S10 Cases.rejecting Cases.rejected [] rejected_reachable H3)
    as (S13 & S14).
  destruct (submit_outcome_is_settled_by_the_machine
              Cases.resettingRender
              (exec submit (dispatch (EvChange "age" (VNum 5))
                              (mount Cases.resetting)))
              (dropPending Cases.editedInFlight)
              (Resolves (VStr "ok")) H4 H5)
    as (s & _ & _ & T2 & _ & _ & _ & _ & _ & _ & _ & _ & T12 & _).
  cbn in T2. subst s.
  destruct S6 as (E1 & E2).
  split; [ exact H1 | ].
  split; [ exact H2 | ].
  split; [ exact rejected_reachable | ].
  split; [ exact H3 | ].
  split; [ exact S12 | ].
  split; [ unfold exec; rewrite E1, E2; vm_compute; reflexivity | ].
  split; [ unfold exec; rewrite E1, E2; vm_compute; reflexivity | ].
  split; [ exact S11 | ].
  split; [ exact S13 | ].
  split; [ exact S14 | exact T12 ].
Defined.

Lemma thrown_reachable : reachable Cases.rethrowing Cases.thrown.
Proof.
  unfold Cases.thrown, run. cbn [fold_left].
  apply reach_step, reach_mount.
Defined.

Lemma onError_that_throws_rejects_handleSubmit :
  reachable Cases.rethrowing Cases.thrown
  /\ sOutcome (onSubmit (rProps Cases.thrownRender)
                 (tree (values (rState Cases.thrownRender))))
     = Throws (VStr "boom")
  /\ pending Cases.thrown = [(Cases.thrownRender, Rejected (VStr "boom"))]
  /\ invoked (trace (exec (continuation Cases.thrownRender
                             (Rejected (VStr "boom")))
                       (dropPending Cases.thrown)))
     = [OnSubmit (VObj []); OnError (VStr "boom")]
  /\ fst (continuation Cases.thrownRender (Rejected (VStr "boom"))
            (dropPending Cases.thrown))
     = Some (VStr "boom")
  /\ ~ (fst (continuation Cases.thrownRender (Rejected (VStr "boom"))
               (dropPending Cases.thrown))
        = None).
Proof.
  split; [ exact thrown_reachable | ].
  split; [ reflexivity | ].
  split; [ vm_compute; reflexivity | ].
  split; [ vm_compute; reflexivity | ].
  split; [ vm_compute; reflexivity | ].
  intros H. vm_compute in H. discriminate H.
Qed.

Lemma change_marks_dirty_and_publishes_path_witness :
  String.eqb "name" "age" = false
  /\ Emitter.publish [Emitter.mkSubscription (Emitter.OnPath "name") 3%nat]
       ["age"] = []
  /\ reachable Scenario.config (mount Scenario.config)
  /\ isDirty (dispatch (EvChange "age" (VNum 5)) (mount Scenario.config))
     = true.
Proof.
  destruct (@change_marks_dirty_and_publishes_path specHelpers "age" (VNum 5))
    as (_ & E & _ & S2).
  split; [ reflexivity | ].
  split; [ exact (S2 3%nat "name" eq_refl) | ].
  split; [ apply reach_mount | ].
  exact (proj1 (E Scenario.config (mount Scenario.config)
                  (reach_mount Scenario.config))).
Defined.

Lemma validateForm_stores_publishes_returns_witness :
  reachable Scenario.config Scenario.edited
  /\ errors (state (dispatch EvValidate Scenario.edited))
     = VObj [("age", VStr "invalid")].
Proof.
  destruct (@validateForm_stores_publishes_returns specHelpers) as (_ & E).
  split; [ exact edited_reachable | ].
  exact (proj1 (E Scenario.config Scenario.edited edited_reachable)).
Defined.




Lemma handleSubmit_replaces_touched_witness :
  reachable Scenario.config Scenario.edited
  /\ isSubmitting (state Scenario.edited) = false
  /\ tree (touched (state (dispatch EvSubmit Scenario.edited)))
     = deriveInitial (validationErrors (render Scenario.edited)) (VBool true)
  /\ ~ In "name" (PathOps.deriveKeys (VObj [("age", VStr "invalid")]))
  /\ PathOps.leafAt
       (PathOps.leaves
          (PathOps.deriveInitial (VObj [("age", VStr "invalid")])
             (VBool true)))
       "name" = None
  /\ In "age" (PathOps.deriveKeys (VObj [("age", VStr "invalid")]))
  /\ PathOps.leafAt
       (PathOps.leaves
          (PathOps.deriveInitial (VObj [("age", VStr "invalid")])
             (VBool true)))
       "age" = Some (VBool true).
Proof.
  destruct (@handleSubmit_replaces_touched specHelpers) as (_ & E & S1 & S2).
  assert (H0 : isSubmitting (state Scenario.edited) = false)
    by (vm_compute; reflexivity).
  assert (H1 : ~ In "name" (PathOps.deriveKeys
                              (VObj [("age", VStr "invalid")]))).
  { vm_compute. intros [H | []]. discriminate H. }
  assert (H2 : In "age" (PathOps.deriveKeys (VObj [("age", VStr "invalid")]))).
  { vm_compute. left. reflexivity. }
  split; [ exact edited_reachable | ].
  split; [ exact H0 | ].
  split; [ exact (E Scenario.config Scenario.edited edited_reachable H0) | ].
  split; [ exact H1 | ].
  split; [ exact (S1 _ _ H1) | ].
  split; [ exact H2 | exact (S2 _ _ H2) ].
Defined.

Lemma resetForm_without_initialErrors_witness :
  initialErrors (rProps (render Scenario.edited)) = None
  /\ reachable Scenario.config Scenario.edited
  /\ initialErrors (props Scenario.edited) = None
  /\ errors (state (exec (resetForm (render Scenario.edited)) Scenario.edited))
     = errors (state Scenario.edited)
  /\ errors (state (dispatch EvResetForm Scenario.edited))
     = errors (state Scenario.edited)
  /\ touched (state (dispatch EvResetForm Scenario.edited))
     = touched (state Scenario.edited).
Proof.
  assert (H1 : initialErrors (rProps (render Scenario.edited)) = None)
    by reflexivity.
  assert (H2 : initialErrors (props Scenario.edited) = None) by reflexivity.
  destruct (@resetForm_without_initialErrors_keeps_errors_and_touched
              specHelpers) as (F & E).
  destruct (F (render Scenario.edited) Scenario.edited H1) as (S1 & _).
  destruct (E Scenario.config Scenario.edited edited_reachable H2)
    as (S2 & S3 & _).
  split; [ exact H1 | ].
  split; [ exact edited_reachable | ].
  split; [ exact H2 | ].
  split; [ exact S1 | ].
  split; [ exact S2 | exact S3 ].
Defined.

(** * More of the form *)

(** ** Events without effects, and events that validate *)

Lemma triple_eqb_eq (a b : Dep * Dep * Dep) : triple_eqb a b = true -> a = b.
Proof.
  destruct a as [[a1 a2] a3], b as [[b1 b2] b3]. cbn. intros H.
  apply Bool.andb_true_iff in H. destruct H as [H H3].
  apply Bool.andb_true_iff in H. destruct H as [H1 H2].
  apply Dep_eqb_eq in H1, H2, H3. congruence.
Qed.

(** When no effect is due, the committed dependencies are those of the
    current render. *)
Lemma quiescent_lastDeps w :
  quiescent w -> lastDeps w = Some (depsOf (render w)).
Proof.
  unfold quiescent, depsChanged, submitChanged, reinitChanged,
    validationChanged.
  destruct (lastDeps w) as [prev | ]; [ | discriminate ].
  intros H.
  apply Bool.orb_false_elim in H. destruct H as [H Hv].
  apply Bool.orb_false_elim in H. destruct H as [Hs Hr].
  apply Bool.negb_false_iff in Hs, Hr, Hv.
  apply Dep_eqb_eq in Hs, Hr. apply triple_eqb_eq in Hv.
  destruct prev as [ps pr pv]. cbn in *. now subst.
Qed.

Section Events.
Context {helpers : Helpers}.

(** A handler that changes no dependency is followed by no effect. *)
Lemma dispatch_no_effect p ev w :
  reachable p w ->
  lastDeps (exec (handle ev) w) = lastDeps w ->
  depsOf (render (exec (handle ev) w)) = depsOf (render w) ->
  dispatch ev w = exec (handle ev) w.
Proof.
  intros Hreach Hl Hd. rewrite dispatch_eq.
  unfold exec at 1. rewrite flush_quiescent; [ reflexivity | ].
  unfold quiescent. rewrite Hl, Hd. exact (reachable_quiescent p w Hreach).
Qed.

(** A render in which only the dependencies of the third effect changed, on
    a dirty form with validation enabled: one validation, then rest. *)
Lemma flush_validates n w :
  lastDeps w <> None ->
  submitChanged (lastDeps w) (depsOf (render w)) = false ->
  reinitChanged (lastDeps w) (depsOf (render w)) = false ->
  validationChanged (lastDeps w) (depsOf (render w)) = true ->
  validationEnabled (props w) = true ->
  isDirty w = true ->
  exec (flush (S n)) w
  = withLastDeps (Some (depsOf (render w)))
      (exec (validateForm (render w)) w).
Proof.
  intros Hsome Hsub Hre Hval Hen Hdirty.
  rewrite flush_S. unfold depsChanged. rewrite Hsub, Hre, Hval. cbn [orb].
  assert (E : exec commit w
              = withLastDeps (Some (depsOf (render w)))
                  (exec (validateForm (render w)) w)).
  { unfold exec. rewrite commit_eq. cbn [snd]. f_equal.
    unfold runEffects. rewrite Hsub, Hre, Hval.
    cbv [when bind ret validationEffect readDirty render rProps].
    rewrite Hen, Hdirty. cbn [andb snd].
    destruct (validateForm _ w) as [v w1]. reflexivity. }
  rewrite E. unfold exec at 1. rewrite flush_quiescent; [ reflexivity | ].
  unfold quiescent. apply depsChanged_same.
Qed.

End Events.

(** ** What every operation respects, every event respects *)

Section EveryEvent.
Context {helpers : Helpers}.
Context (R : World -> World -> Prop) {R_pre : PreOrder R}.
Hypothesis R_change : forall r f v, respects R (change r f v).
Hypothesis R_setFieldError : forall r f e, respects R (setFieldError r f e).
Hypothesis R_setFieldTouched :
  forall r f b, respects R (setFieldTouched r f b).
Hypothesis R_submit : respects R submit.
Hypothesis R_resetForm : forall r, respects R (resetForm r).
Hypothesis R_validateForm : forall r, respects R (validateForm r).
Hypothesis R_handleSubmit : forall r, respects R (handleSubmit r).
Hypothesis R_continuation : forall r s, respects R (continuation r s).
Hypothesis R_props : forall iv w, R w (withInitialValues iv w).
Hypothesis R_drop : forall w, R w (dropPending w).
Hypothesis R_deps : forall d w, R w (withLastDeps d w).

Lemma runEffects_respects prev r : respects R (runEffects prev r).
Proof.
  pose proof (R_validateForm r). pose proof (R_resetForm r).
  pose proof (R_handleSubmit r).
  unfold runEffects, submitEffect, reinitEffect, validationEffect.
  respects_with ltac:(assumption).
Qed.

Lemma commit_respects : respects R commit.
Proof.
  intros w. rewrite commit_eq. cbn [snd].
  transitivity (snd (runEffects (lastDeps w) (render w) w)).
  - apply runEffects_respects.
  - apply R_deps.
Qed.

Lemma flush_respects n : respects R (flush n).
Proof.
  induction n as [ | n IH ]; intros w.
  - reflexivity.
  - fold (exec (flush (S n)) w). rewrite flush_S.
    destruct (depsChanged (lastDeps w) (depsOf (render w)));
      [ | reflexivity ].
    transitivity (exec commit w); [ apply commit_respects | apply IH ].
Qed.

Lemma handle_respects ev : respects R (handle ev).
Proof.
  intros w. destruct ev; cbn [handle].
  - apply R_change.
  - apply R_setFieldError.
  - apply R_setFieldTouched.
  - apply R_submit.
  - apply R_resetForm.
  - pose proof (R_validateForm (render w) w) as H. unfold bind.
    destruct (validateForm (render w) w) as [v w1]. exact H.
  - apply R_props.
  - destruct (pending w) as [ | [r0 s] rest ]; [ reflexivity | ].
    transitivity (dropPending w); [ apply R_drop | ].
    pose proof (R_continuation r0 s (dropPending w)) as H. unfold bind.
    destruct (continuation r0 s (dropPending w)) as [x w1]. exact H.
Qed.

Lemma dispatch_respects ev w : R w (dispatch ev w).
Proof.
  rewrite dispatch_eq.
  transitivity (exec (handle ev) w);
    [ apply handle_respects | apply flush_respects ].
Qed.

Lemma mount_respects p : R (initial p) (mount p).
Proof. apply flush_respects. Qed.

End EveryEvent.

(** ** The objects the form makes are new *)

Lemma olderThan_S n i : olderThan n i -> olderThan (S n) i.
Proof. destruct i; cbn; auto. Qed.

#[local] Instance keepsFresh_pre : PreOrder keepsFresh.
Proof. split; unfold keepsFresh; [ intros w H | intros a b c ]; auto. Qed.

Ltac fresh_leaf :=
  first
    [ solve [ let H := fresh in
              intros ?w H; prim_steps; cbv [modify withState snd]; exact H ]
    | solve [ let H := fresh in
              intros ?w [? H]; split;
              [ apply olderThan_S; assumption
              | intros ?; apply olderThan_S; apply H; assumption ] ] ].

Section Fresh.
Context {helpers : Helpers}.

Lemma change_keepsFresh r f v : respects keepsFresh (change r f v).
Proof.
  intros w [Ht _]. split; cbn.
  - apply olderThan_S, Ht.
  - intros _. lia.
Qed.

Lemma resetForm_keepsFresh r : respects keepsFresh (resetForm r).
Proof.
  intros w [Ht _]. unfold resetForm.
  destruct (initialErrors (rProps r)); split; cbn;
    try discriminate; try lia; exact Ht.
Qed.

Lemma setFieldTouched_keepsFresh r f b :
  respects keepsFresh (setFieldTouched r f b).
Proof.
  intros w [_ Hv]. split; cbn.
  - lia.
  - intros Hd. apply olderThan_S, Hv, Hd.
Qed.

Lemma validateForm_keepsFresh r : respects keepsFresh (validateForm r).
Proof. unfold validateForm. respects_with fresh_leaf. Qed.

Lemma runBagCall_keepsFresh c : respects keepsFresh (runBagCall c).
Proof. unfold runBagCall, setFormErr. respects_with fresh_leaf. Qed.

Lemma handleSubmit_keepsFresh r : respects keepsFresh (handleSubmit r).
Proof.
  intros w [Ht Hv]. rewrite handleSubmit_eq.
  assert (Hval : freshInv (validated r w)).
  { rewrite validated_eq. split; cbn.
    - lia.
    - intros Hd. apply olderThan_S, Hv, Hd. }
  pose proof runBagCall_keepsFresh.
  destruct (blocked r (validationErrors r)).
  - revert Hval. generalize (validated r w).
    change (respects keepsFresh (setSubmitting false ;; emit ["s"])).
    respects_with fresh_leaf.
  - revert Hval. generalize (validated r w).
    change (respects keepsFresh (invokeSubmit r)).
    unfold invokeSubmit. respects_with ltac:(first [ solve [ auto ] | fresh_leaf ]).
Qed.

Lemma continuation_keepsFresh r s : respects keepsFresh (continuation r s).
Proof.
  pose proof (resetForm_keepsFresh r). pose proof runBagCall_keepsFresh.
  unfold continuation, onFulfilled, onRejected, runSuccessCall.
  respects_with ltac:(first [ assumption | solve [ auto ] | fresh_leaf ]).
Qed.

Lemma setFieldError_keepsFresh r f e :
  respects keepsFresh (setFieldError r f e).
Proof. unfold setFieldError. respects_with fresh_leaf. Qed.

Lemma submit_keepsFresh : respects keepsFresh submit.
Proof. unfold submit. respects_with fresh_leaf. Qed.

Lemma dispatch_keepsFresh ev w : freshInv w -> freshInv (dispatch ev w).
Proof.
  apply (dispatch_respects keepsFresh change_keepsFresh
           setFieldError_keepsFresh setFieldTouched_keepsFresh
           submit_keepsFresh resetForm_keepsFresh validateForm_keepsFresh
           handleSubmit_keepsFresh continuation_keepsFresh
           (fun iv w H => H) (fun w H => H) (fun d w H => H)).
Qed.

Lemma reachable_fresh p w : reachable p w -> freshInv w.
Proof.
  induction 1 as [ | w ev _ IH ].
  - apply (mount_respects keepsFresh resetForm_keepsFresh
             validateForm_keepsFresh handleSubmit_keepsFresh
             (fun d w H => H)).
    unfold freshInv, initial. cbn.
    split; [ | discriminate ].
    destruct (initialErrors p); cbn; lia.
  - apply dispatch_keepsFresh, IH.
Qed.

End Fresh.

(** ** Field errors, touched marks and edits through the produced interface *)

Section FieldOperations.
Context {helpers : Helpers}.

Lemma enabled_by_blur p :
  validateOnBlur p <> Some false -> validationEnabled p = true.
Proof.
  intros H. unfold validationEnabled.
  destruct (validateOnBlur p) as [[ | ] | ]; try congruence.
  apply Bool.orb_true_r.
Qed.

Lemma enabled_by_change p :
  validateOnChange p = Some true -> validationEnabled p = true.
Proof.
  intros H. unfold validationEnabled. rewrite H.
  destruct (validateOnBlur p); reflexivity.
Qed.

Lemma olderThan_neq n i : olderThan n i -> i <> IdFresh n.
Proof. destruct i; cbn; intros H E; inversion E; lia. Qed.

(** An edit after which the third effect is due, on a form where validation
    is enabled: the edit, then one validation of the new values. *)
Lemma change_then_validate p w fieldId value :
  reachable p w ->
  validationEnabled (props w) = true ->
  validationChanged (Some (depsOf (render w)))
    (depsOf (render (exec (change (render w) fieldId value) w))) = true ->
  dispatch (EvChange fieldId value) w
  = withLastDeps
      (Some (depsOf (render (exec (change (render w) fieldId value) w))))
      (exec (validateForm
               (render (exec (change (render w) fieldId value) w)))
         (exec (change (render w) fieldId value) w)).
Proof.
  intros Hreach Hen Hval.
  pose proof (quiescent_lastDeps w (reachable_quiescent p w Hreach)) as Hl.
  rewrite dispatch_eq.
  change (exec (handle (EvChange fieldId value)) w)
    with (exec (change (render w) fieldId value) w).
  set (w1 := exec (change (render w) fieldId value) w) in *.
  assert (Hl1 : lastDeps w1 = Some (depsOf (render w))) by exact Hl.
  unfold rounds. apply flush_validates.
  - rewrite Hl1. discriminate.
  - rewrite Hl1. unfold submitChanged. cbn. now rewrite Bool.eqb_reflx.
  - rewrite Hl1. unfold reinitChanged. cbn. now rewrite Dep_eqb_refl.
  - rewrite Hl1. exact Hval.
  - exact Hen.
  - reflexivity.
Qed.

(** X1. [setFieldError(fieldId, error)] through the produced interface
    schedules [set(errors, fieldId, error)] and publishes [fieldId]; it does
    not make the form dirty and no effect follows it, so the error set by
    hand is what the form holds afterwards. *)
Theorem setFieldError_is_not_followed_by_validation
  (p : FormOptions) (w : World) (fieldId : string) (error : Value) :
  reachable p w ->
  let w' := dispatch (EvSetFieldError fieldId error) w in
  errors (state w') = set (errors (state w)) fieldId error
  /\ trace w' = trace w ++ [Emit [fieldId]]
  /\ values (state w') = values (state w)
  /\ touched (state w') = touched (state w)
  /\ isSubmitting (state w') = isSubmitting (state w)
  /\ formError (state w') = formError (state w)
  /\ isDirty w' = isDirty w
  /\ pending w' = pending w.
Proof.
  intros Hreach. cbn zeta.
  rewrite (dispatch_no_effect p _ w Hreach); [ | reflexivity | reflexivity ].
  cbn. repeat split.
Qed.

(** X2. [setFieldTouched(fieldId, value)] on a form that is not dirty marks
    the field ([true] when no value is given), publishes [fieldId] and
    validates nothing: the errors are as they were. *)
Theorem touching_a_clean_form_validates_nothing
  (p : FormOptions) (w : World) (fieldId : string) (value : option bool) :
  reachable p w ->
  isDirty w = false ->
  let w' := dispatch (EvSetFieldTouched fieldId value) w in
  tree (touched (state w'))
  = set (tree (touched (state w))) fieldId
      (VBool (match value with Some b => b | None => true end))
  /\ errors (state w') = errors (state w)
  /\ values (state w') = values (state w)
  /\ trace w' = trace w ++ [Emit [fieldId]]
  /\ isDirty w' = false.
Proof.
  intros Hreach Hclean. cbn zeta.
  destruct (quiescent_parts w (reachable_quiescent p w Hreach))
    as (Hsub & Hre & _).
  rewrite dispatch_eq.
  change (exec (handle (EvSetFieldTouched fieldId value)) w)
    with (exec (setFieldTouched (render w) fieldId value) w).
  destruct (flush_idle rounds
              (exec (setFieldTouched (render w) fieldId value) w)
              Hclean Hsub Hre) as [d Hd].
  rewrite Hd. cbn. repeat split. exact Hclean.
Qed.

(** X3. [setFieldTouched] on a dirty form, unless [validateOnBlur] is
    [false]: the new [touched] object re-runs the third effect, which
    validates the current values. The errors afterwards are the result of
    [validate], and the error paths are published after [fieldId]. *)
Theorem touching_a_dirty_form_validates
  (p : FormOptions) (w : World) (fieldId : string) (value : option bool) :
  reachable p w ->
  isDirty w = true ->
  validateOnBlur (props w) <> Some false ->
  let w' := dispatch (EvSetFieldTouched fieldId value) w in
  errors (state w') = validationErrors (render w)
  /\ tree (touched (state w'))
     = set (tree (touched (state w))) fieldId
         (VBool (match value with Some b => b | None => true end))
  /\ trace w'
     = trace w
       ++ [Emit [fieldId];
           Emit (deriveKeys (validationErrors (render w))
                 ++ deriveKeys (errors (state w)))]
  /\ values (state w') = values (state w)
  /\ isDirty w' = true.
Proof.
  intros Hreach Hdirty Hblur. cbn zeta.
  pose proof (quiescent_lastDeps w (reachable_quiescent p w Hreach)) as Hl.
  destruct (reachable_fresh p w Hreach) as [Hold _].
  rewrite dispatch_eq.
  change (exec (handle (EvSetFieldTouched fieldId value)) w)
    with (exec (setFieldTouched (render w) fieldId value) w).
  set (w1 := exec (setFieldTouched (render w) fieldId value) w).
  assert (Hl1 : lastDeps w1 = Some (depsOf (render w))) by exact Hl.
  assert (E : exec (flush rounds) w1
              = withLastDeps (Some (depsOf (render w1)))
                  (exec (validateForm (render w1)) w1)).
  { unfold rounds. apply flush_validates.
    - rewrite Hl1. discriminate.
    - rewrite Hl1. unfold submitChanged. cbn. now rewrite Bool.eqb_reflx.
    - rewrite Hl1. unfold reinitChanged. cbn. now rewrite Dep_eqb_refl.
    - rewrite Hl1. unfold validationChanged, depsOf, blurDep, triple_eqb.
      cbn.
      assert (N : Dep_eqb (DRef (ident (touched (state w))))
                    (DRef (IdFresh (nextId w))) = false).
      { apply Dep_eqb_neq. intros X. injection X as X.
        exact (olderThan_neq _ _ Hold X). }
      destruct (validateOnBlur (props w)) as [[ | ] | ]; try congruence;
        now rewrite N.
    - apply enabled_by_blur, Hblur.
    - exact Hdirty. }
  rewrite E. unfold w1. cbn. rewrite Hdirty.
  repeat split. now rewrite <- app_assoc.
Qed.

(** X4. The first edit of a form that is not dirty, when
    [validateOnBlur === undefined || validateOnChange || validateOnBlur]
    holds: the dirty flag is a dependency of the third effect, so the edit
    is followed by a validation of the new values, also with
    [validateOnChange] unset. *)
Theorem first_change_validates_the_new_values
  (p : FormOptions) (w : World) (fieldId : string) (value : Value) :
  reachable p w ->
  isDirty w = false ->
  validationEnabled (props w) = true ->
  let w' := dispatch (EvChange fieldId value) w in
  let newValues := set (tree (values (state w))) fieldId value in
  let newErrors :=
    match validate (props w) with
    | Some validate =>
        match validate newValues with
        | Some e => e
        | None => VObj []
        end
    | None => VObj []
    end in
  tree (values (state w')) = newValues
  /\ errors (state w') = newErrors
  /\ isDirty w' = true
  /\ trace w'
     = trace w
       ++ [Enter (OpChange fieldId value);
           Emit [fieldId];
           Emit (deriveKeys newErrors ++ deriveKeys (errors (state w)))].
Proof.
  intros Hreach Hclean Hen. cbn zeta.
  rewrite (change_then_validate p w fieldId value Hreach Hen).
  - cbn. repeat split. now rewrite <- !app_assoc.
  - unfold validationChanged, depsOf, triple_eqb. cbn. rewrite Hclean.
    cbn. now rewrite Bool.andb_false_r.
Qed.

(** X5. A later edit, of a form that is already dirty, with
    [validateOnChange] not [true]: no dependency of an effect changes, so
    nothing validates. The errors stay as they were, whatever the new value,
    until a field is touched, a submit or an explicit validation. *)
Theorem later_changes_do_not_validate_without_validateOnChange
  (p : FormOptions) (w : World) (fieldId : string) (value : Value) :
  reachable p w ->
  isDirty w = true ->
  validateOnChange (props w) <> Some true ->
  let w' := dispatch (EvChange fieldId value) w in
  tree (values (state w')) = set (tree (values (state w))) fieldId value
  /\ errors (state w') = errors (state w)
  /\ touched (state w') = touched (state w)
  /\ trace w' = trace w ++ [Enter (OpChange fieldId value); Emit [fieldId]].
Proof.
  intros Hreach Hdirty Hchange. cbn zeta.
  rewrite (dispatch_no_effect p _ w Hreach).
  - cbn. repeat split. now rewrite <- app_assoc.
  - reflexivity.
  - unfold depsOf, blurDep, changeDep. cbn. rewrite Hdirty.
    destruct (validateOnChange (props w)) as [[ | ] | ];
      try congruence; reflexivity.
Qed.

(** X6. With [validateOnChange] [true], every edit made through the
    produced interface is followed by a validation of the new values. *)
Theorem with_validateOnChange_every_change_validates
  (p : FormOptions) (w : World) (fieldId : string) (value : Value) :
  reachable p w ->
  validateOnChange (props w) = Some true ->
  let w' := dispatch (EvChange fieldId value) w in
  let newValues := set (tree (values (state w))) fieldId value in
  let newErrors :=
    match validate (props w) with
    | Some validate =>
        match validate newValues with
        | Some e => e
        | None => VObj []
        end
    | None => VObj []
    end in
  tree (values (state w')) = newValues
  /\ errors (state w') = newErrors
  /\ trace w'
     = trace w
       ++ [Enter (OpChange fieldId value);
           Emit [fieldId];
           Emit (deriveKeys newErrors ++ deriveKeys (errors (state w)))].
Proof.
  intros Hreach Hchange. cbn zeta.
  destruct (reachable_fresh p w Hreach) as [_ Hold].
  rewrite (change_then_validate p w fieldId value Hreach
             (enabled_by_change _ Hchange)).
  - cbn. repeat split. now rewrite <- !app_assoc.
  - unfold validationChanged, depsOf, triple_eqb, changeDep. cbn.
    rewrite Hchange.
    destruct (isDirty w) eqn:Hdirty.
    + assert (N : Dep_eqb (DRef (ident (values (state w))))
                    (DRef (IdFresh (nextId w))) = false).
      { apply Dep_eqb_neq. intros X. injection X as X.
        exact (olderThan_neq _ _ (Hold eq_refl) X). }
      rewrite N. now rewrite Bool.andb_false_r.
    + cbn. now rewrite Bool.andb_false_r.
Qed.

End FieldOperations.

Lemma setFieldError_is_not_followed_by_validation_witness :
  errors (state (dispatch (EvSetFieldError "age" (VStr "taken"))
                   (mount Scenario.config)))
  = set (errors (state (mount Scenario.config))) "age" (VStr "taken").
Proof.
  exact (proj1 (setFieldError_is_not_followed_by_validation Scenario.config
                  (mount Scenario.config) "age" (VStr "taken")
                  (reach_mount Scenario.config))).
Defined.

Lemma touching_a_clean_form_validates_nothing_witness :
  isDirty (mount Scenario.config) = false
  /\ errors (state (dispatch (EvSetFieldTouched "age" None)
                      (mount Scenario.config)))
     = errors (state (mount Scenario.config)).
Proof.
  assert (Hc : isDirty (mount Scenario.config) = false)
    by (vm_compute; reflexivity).
  split; [ exact Hc | ].
  exact (proj1 (proj2 (touching_a_clean_form_validates_nothing
                         Scenario.config (mount Scenario.config) "age" None
                         (reach_mount Scenario.config) Hc))).
Defined.

Lemma touching_a_dirty_form_validates_witness :
  isDirty Scenario.edited = true
  /\ validateOnBlur (props Scenario.edited) <> Some false
  /\ errors (state (dispatch (EvSetFieldTouched "age" None) Scenario.edited))
     = validationErrors (render Scenario.edited).
Proof.
  assert (Hd : isDirty Scenario.edited = true) by (vm_compute; reflexivity).
  assert (Hb : validateOnBlur (props Scenario.edited) <> Some false)
    by (vm_compute; discriminate).
  split; [ exact Hd | ].
  split; [ exact Hb | ].
  exact (proj1 (touching_a_dirty_form_validates Scenario.config
                  Scenario.edited "age" None edited_reachable Hd Hb)).
Defined.

Lemma first_change_validates_the_new_values_witness :
  isDirty (mount Scenario.config) = false
  /\ validationEnabled (props (mount Scenario.config)) = true
  /\ isDirty (dispatch (EvChange "age" (VNum (-1))) (mount Scenario.config))
     = true.
Proof.
  assert (Hc : isDirty (mount Scenario.config) = false)
    by (vm_compute; reflexivity).
  assert (He : validationEnabled (props (mount Scenario.config)) = true)
    by (vm_compute; reflexivity).
  split; [ exact Hc | ].
  split; [ exact He | ].
  exact (proj1 (proj2 (proj2 (first_change_validates_the_new_values
                                Scenario.config (mount Scenario.config)
                                "age" (VNum (-1))
                                (reach_mount Scenario.config) Hc He)))).
Defined.

Lemma later_changes_do_not_validate_without_validateOnChange_witness :
  isDirty Scenario.edited = true
  /\ validateOnChange (props Scenario.edited) <> Some true
  /\ errors (state (dispatch (EvChange "age" (VNum 5)) Scenario.edited))
     = errors (state Scenario.edited).
Proof.
  assert (Hd : isDirty Scenario.edited = true) by (vm_compute; reflexivity).
  assert (Hn : validateOnChange (props Scenario.edited) <> Some true)
    by (vm_compute; discriminate).
  split; [ exact Hd | ].
  split; [ exact Hn | ].
  exact (proj1 (proj2 (later_changes_do_not_validate_without_validateOnChange
                         Scenario.config Scenario.edited "age" (VNum 5)
                         edited_reachable Hd Hn))).
Defined.

Lemma with_validateOnChange_every_change_validates_witness :
  validateOnChange (props (mount Cases.eager)) = Some true
  /\ tree (values (state (dispatch (EvChange "age" (VNum (-1)))
                            (mount Cases.eager))))
     = set (tree (values (state (mount Cases.eager)))) "age" (VNum (-1)).
Proof.
  assert (Hv : validateOnChange (props (mount Cases.eager)) = Some true)
    by (vm_compute; reflexivity).
  split; [ exact Hv | ].
  exact (proj1 (with_validateOnChange_every_change_validates Cases.eager
                  (mount Cases.eager) "age" (VNum (-1))
                  (reach_mount Cases.eager) Hv)).
Defined.

(** ** Renders in which no effect has anything to do *)

Section Renders.
Context {helpers : Helpers}.

Lemma world_eta w :
  mkWorld (props w) (state w) (isDirty w) (nextId w) (trace w) (pending w)
    (lastDeps w) = w.
Proof. destruct w; reflexivity. Qed.

(** A render whose effects, where they run, find their condition false:
    only the dependencies are committed. *)
Lemma commit_nothing_due w :
  (submitChanged (lastDeps w) (depsOf (render w)) = true ->
   isSubmitting (state w) = false) ->
  (reinitChanged (lastDeps w) (depsOf (render w)) = true ->
   truthy (enableReinitialize (props w)) = false) ->
  (validationChanged (lastDeps w) (depsOf (render w)) = true ->
   validationEnabled (props w) && isDirty w = false) ->
  exec commit w = withLastDeps (Some (depsOf (render w))) w.
Proof.
  intros Hs Hr Hv. unfold exec. rewrite commit_eq. cbn [snd]. f_equal.
  unfold runEffects, submitEffect, reinitEffect, validationEffect,
    readDirty, when, bind, ret.
  destruct (submitChanged _ _).
  - cbn. rewrite (Hs eq_refl).
    destruct (reinitChanged _ _).
    + cbn. rewrite (Hr eq_refl).
      destruct (validationChanged _ _); [ | reflexivity ].
      cbn. now rewrite (Hv eq_refl).
    + destruct (validationChanged _ _); [ | reflexivity ].
      cbn. now rewrite (Hv eq_refl).
  - destruct (reinitChanged _ _).
    + cbn. rewrite (Hr eq_refl).
      destruct (validationChanged _ _); [ | reflexivity ].
      cbn. now rewrite (Hv eq_refl).
    + destruct (validationChanged _ _); [ | reflexivity ].
      cbn. now rewrite (Hv eq_refl).
Qed.

Lemma flush_nothing_due n w :
  (submitChanged (lastDeps w) (depsOf (render w)) = true ->
   isSubmitting (state w) = false) ->
  (reinitChanged (lastDeps w) (depsOf (render w)) = true ->
   truthy (enableReinitialize (props w)) = false) ->
  (validationChanged (lastDeps w) (depsOf (render w)) = true ->
   validationEnabled (props w) && isDirty w = false) ->
  exists d, exec (flush n) w = withLastDeps d w.
Proof.
  intros Hs Hr Hv. destruct n as [ | n ].
  - exists (lastDeps w). symmetry. apply withLastDeps_same.
  - rewrite flush_S.
    destruct (depsChanged _ _).
    + rewrite (commit_nothing_due w Hs Hr Hv).
      exists (Some (depsOf (render w))).
      unfold exec. rewrite flush_quiescent; [ reflexivity | ].
      unfold quiescent. cbn. apply depsChanged_same.
    + exists (lastDeps w). symmetry. apply withLastDeps_same.
Qed.

(** Once a number of rounds leaves no effect due, more rounds change
    nothing. *)
Lemma flush_stable n : forall w,
  quiescent (exec (flush n) w) -> exec (flush (S n)) w = exec (flush n) w.
Proof.
  induction n as [ | n IH ]; intros w Hq.
  - rewrite flush_S. cbn in Hq. unfold quiescent in Hq. now rewrite Hq.
  - rewrite (flush_S (S n) w), (flush_S n w).
    rewrite (flush_S n w) in Hq.
    destruct (depsChanged _ _); [ | reflexivity ].
    apply IH, Hq.
Qed.

(** X7. Rendering stops: whatever the state and the configuration, after
    two rounds of effects no dependency of an effect differs from the
    previous render, and further rounds change nothing. The form cannot
    enter a render loop. *)
Theorem effects_settle_in_two_rounds (n : nat) (w : World) :
  2 <= n ->
  quiescent (exec (flush n) w) /\ exec (flush n) w = exec (flush 2) w.
Proof.
  intros Hn. split; [ apply flush_enough, Hn | ].
  induction Hn as [ | m Hm IH ]; [ reflexivity | ].
  rewrite <- IH. apply flush_stable, flush_enough, Hm.
Qed.

Lemma mount_eq p :
  exists d,
    mount p
    = withLastDeps d (exec (reinitEffect (render (initial p))) (initial p)).
Proof.
  unfold mount, rounds. rewrite flush_S.
  change (depsChanged (lastDeps (initial p)) (depsOf (render (initial p))))
    with true. cbv iota.
  assert (E : exec commit (initial p)
              = withLastDeps (Some (depsOf (render (initial p))))
                  (exec (reinitEffect (render (initial p))) (initial p))).
  { unfold exec. rewrite commit_eq. cbn [snd]. f_equal.
    unfold runEffects, submitEffect, reinitEffect, validationEffect,
      readDirty, when, bind, ret, initial. cbn.
    destruct (truthy (enableReinitialize p));
      [ | now rewrite Bool.andb_false_r ].
    unfold resetForm. cbn.
    destruct (initialErrors p); cbn;
      now rewrite Bool.andb_false_r. }
  rewrite E.
  set (w1 := exec (reinitEffect (render (initial p))) (initial p)).
  assert (F : isDirty w1 = false /\ props w1 = p
              /\ isSubmitting (state w1) = false).
  { unfold w1, reinitEffect, when, exec. cbn.
    destruct (truthy (enableReinitialize p)); [ | repeat split ].
    destruct (resetForm_frame (render (initial p)) (initial p))
      as (F1 & _ & F3 & F4).
    unfold exec in F1, F3, F4. repeat split; assumption. }
  destruct F as (F1 & F2 & F3).
  destruct (flush_nothing_due 3 (withLastDeps
                                   (Some (depsOf (render (initial p)))) w1))
    as [d Hd].
  - intros _. exact F3.
  - unfold reinitChanged, depsOf. cbn. rewrite F2. cbn.
    rewrite Dep_eqb_refl. discriminate.
  - intros _. cbn. rewrite F1. apply Bool.andb_false_r.
  - exists d. rewrite Hd. reflexivity.
Qed.

(** X8. Mounting: the state is seeded from [initialValues] and
    [initialErrors], the form is neither dirty nor submitting, no promise is
    outstanding and no callback has been called; [validate] is not
    consulted, so the errors are [initialErrors] (or empty). Without
    [enableReinitialize] nothing is published; with it the second effect
    resets the form once and publishes the paths of [initialValues]. *)
Theorem mount_seeds_and_validates_nothing (p : FormOptions) :
  let w := mount p in
  values (state w) = orEmpty (initialValues p)
  /\ errors (state w)
     = match initialErrors p with Some e => e | None => tree EMPTY_OBJ end
  /\ tree (touched (state w))
     = match initialErrors p with
       | Some e => deriveInitial e (VBool true)
       | None => tree EMPTY_OBJ
       end
  /\ isDirty w = false
  /\ isSubmitting (state w) = false
  /\ formError (state w) = None
  /\ pending w = []
  /\ invoked (trace w) = []
  /\ passes (trace w) = 0
  /\ emitted (trace w)
     = if truthy (enableReinitialize p)
       then [deriveKeys (tree (orEmpty (initialValues p)))
             ++ deriveKeys (tree (orEmpty (initialValues p)))]
       else [].
Proof.
  destruct (mount_eq p) as [d Hd]. cbn zeta. rewrite Hd.
  unfold reinitEffect, when, exec, initial. cbn.
  destruct (truthy (enableReinitialize p)).
  - unfold resetForm. cbn. destruct (initialErrors p); cbn; repeat split.
  - cbn. destruct (initialErrors p); cbn; repeat split.
Qed.

Lemma flush_reinit n w :
  submitChanged (lastDeps w) (depsOf (render w)) = false ->
  reinitChanged (lastDeps w) (depsOf (render w)) = true ->
  truthy (enableReinitialize (props w)) = true ->
  exists d,
    exec (flush (S n)) w = withLastDeps d (exec (resetForm (render w)) w).
Proof.
  intros Hs Hr Hen. rewrite flush_S.
  unfold depsChanged. rewrite Hs, Hr. cbn [orb].
  assert (E : exec commit w
              = withLastDeps (Some (depsOf (render w)))
                  (exec (resetForm (render w)) w)).
  { unfold exec. rewrite commit_eq. cbn [snd]. f_equal.
    unfold runEffects, submitEffect, reinitEffect, validationEffect,
      readDirty, when, bind, ret.
    rewrite Hs, Hr. cbn. rewrite Hen.
    unfold resetForm, emit, record, modify, setDirty, setValues, setTouched,
      setErrors, alloc, withState, bind, ret.
    cbn.
    destruct (initialErrors (props w)), (validationChanged _ _); cbn;
      rewrite ?Bool.andb_false_r; reflexivity. }
  rewrite E.
  destruct (resetForm_frame (render w) w) as (F1 & F2 & F3 & F4).
  set (w1 := exec (resetForm (render w)) w) in *.
  destruct (flush_nothing_due n (withLastDeps (Some (depsOf (render w))) w1))
    as [d Hd].
  - unfold submitChanged, depsOf. cbn. rewrite F4.
    rewrite Bool.eqb_reflx. discriminate.
  - unfold reinitChanged, depsOf. cbn. rewrite F3.
    rewrite Dep_eqb_refl. discriminate.
  - intros _. cbn. rewrite F1. apply Bool.andb_false_r.
  - exists d. rewrite Hd. reflexivity.
Qed.

(** X9. With [enableReinitialize], a render with another [initialValues]
    object resets the form through the second effect: the values are the
    new [initialValues], the form is clean, the paths of the new and of the
    old values are published, and no validation follows, so the errors are
    [initialErrors] if given and unchanged otherwise. *)
Theorem new_initialValues_reset_the_form
  (p : FormOptions) (w : World) (iv : option Obj) :
  reachable p w ->
  truthy (enableReinitialize (props w)) = true ->
  reinitDeps (depsOf (render (withInitialValues iv w)))
  <> reinitDeps (depsOf (render w)) ->
  let w' := dispatch (EvInitialValues iv) w in
  initialValues (props w') = iv
  /\ values (state w') = orEmpty iv
  /\ isDirty w' = false
  /\ errors (state w')
     = match initialErrors (props w) with
       | Some e => e
       | None => errors (state w)
       end
  /\ tree (touched (state w'))
     = match initialErrors (props w) with
       | Some e => deriveInitial e (VBool true)
       | None => tree (touched (state w))
       end
  /\ isSubmitting (state w') = isSubmitting (state w)
  /\ pending w' = pending w
  /\ trace w'
     = trace w
       ++ [Enter OpResetForm;
           Emit (deriveKeys (tree (orEmpty iv))
                 ++ deriveKeys (tree (values (state w))))].
Proof.
  intros Hreach Hen Hnew. cbn zeta.
  pose proof (reachable_quiescent p w Hreach) as Hq.
  pose proof (quiescent_lastDeps w Hq) as Hl.
  rewrite dispatch_eq.
  change (exec (handle (EvInitialValues iv)) w) with (withInitialValues iv w).
  unfold rounds.
  destruct (flush_reinit 3 (withInitialValues iv w)) as [d Hd].
  - cbn [lastDeps withInitialValues]. rewrite Hl.
    unfold submitChanged. cbn. now rewrite Bool.eqb_reflx.
  - cbn [lastDeps withInitialValues]. rewrite Hl.
    unfold reinitChanged. apply Bool.negb_true_iff, Dep_eqb_neq.
    intros X. apply Hnew. symmetry. exact X.
  - exact Hen.
  - rewrite Hd. unfold resetForm, exec. cbn.
    destruct (initialErrors (props w)); cbn; repeat split;
      now rewrite <- app_assoc.
Qed.

(** X10. Without [enableReinitialize], or when the parent passes the same
    [initialValues] object again, a render with new props changes nothing
    in the form: state, dirty flag, outstanding promise and trace are as
    they were, and nothing is published. Only a later [resetForm] sees the
    new [initialValues]. *)
Theorem initialValues_are_ignored_without_enableReinitialize
  (p : FormOptions) (w : World) (iv : option Obj) :
  reachable p w ->
  truthy (enableReinitialize (props w)) = false
  \/ reinitDeps (depsOf (render (withInitialValues iv w)))
     = reinitDeps (depsOf (render w)) ->
  let w' := dispatch (EvInitialValues iv) w in
  state w' = state w
  /\ isDirty w' = isDirty w
  /\ trace w' = trace w
  /\ pending w' = pending w
  /\ initialValues (props w') = iv.
Proof.
  intros Hreach Hor. cbn zeta.
  pose proof (reachable_quiescent p w Hreach) as Hq.
  pose proof (quiescent_lastDeps w Hq) as Hl.
  destruct (quiescent_parts w Hq) as (_ & _ & Hv).
  rewrite dispatch_eq.
  change (exec (handle (EvInitialValues iv)) w) with (withInitialValues iv w).
  destruct (flush_nothing_due rounds (withInitialValues iv w)) as [d Hd].
  - cbn [lastDeps withInitialValues]. rewrite Hl.
    unfold submitChanged. cbn. rewrite Bool.eqb_reflx. discriminate.
  - cbn [lastDeps withInitialValues]. rewrite Hl. intros Hc.
    destruct Hor as [Hoff | Hsame]; [ exact Hoff | ].
    unfold reinitChanged in Hc. rewrite <- Hsame in Hc.
    rewrite Dep_eqb_refl in Hc. discriminate.
  - intros Hc. exfalso.
    assert (E : validationChanged (lastDeps (withInitialValues iv w))
                  (depsOf (render (withInitialValues iv w)))
                = validationChanged (lastDeps w) (depsOf (render w)))
      by reflexivity.
    rewrite E, Hv in Hc. discriminate.
  - rewrite Hd. cbn. repeat split.
Qed.

End Renders.

(** ** One submission at a time *)

Lemma passes_snoc_change t f v :
  passes (t ++ [Enter (OpChange f v)]) = passes t.
Proof. unfold passes. rewrite filter_app, length_app. cbn. lia. Qed.

Ltac aside_step :=
  solve [ intros ?w; prim_steps; cbv [aside modify alloc withState snd];
          cbn -[invoked passes];
          rewrite ?invoked_snoc_emit, ?invoked_snoc_enter, ?passes_snoc_emit,
            ?passes_snoc_reset, ?passes_snoc_change;
          repeat split; reflexivity ].

#[local] Instance settledQuietly_pre : PreOrder settledQuietly.
Proof.
  split.
  - intros w. unfold settledQuietly. repeat split. left. repeat split.
  - intros a b c (P1 & L1 & Q1 & D1) (P2 & L2 & Q2 & D2).
    unfold settledQuietly. repeat split; try congruence.
    destruct D2 as [(V2 & T2 & I2) | I2]; [ | right; exact I2 ].
    destruct D1 as [(V1 & T1 & I1) | I1].
    + left. repeat split; congruence.
    + right. congruence.
Qed.

Ltac quiet_leaf :=
  solve [ intros ?w; prim_steps;
          cbv [settledQuietly modify alloc withState snd];
          cbn; repeat split;
          first [ solve [ left; repeat split ] | solve [ right; reflexivity ] ] ].

Section SingleFlight.
Context {helpers : Helpers}.

Lemma change_aside r f v : respects aside (change r f v).
Proof. unfold change. respects_with aside_step. Qed.

Lemma setFieldError_aside r f e : respects aside (setFieldError r f e).
Proof. unfold setFieldError. respects_with aside_step. Qed.

Lemma setFieldTouched_aside r f b : respects aside (setFieldTouched r f b).
Proof. unfold setFieldTouched. respects_with aside_step. Qed.

Lemma validateForm_aside r : respects aside (validateForm r).
Proof. unfold validateForm. respects_with aside_step. Qed.

Lemma aside_withLastDeps d w : aside w (withLastDeps d w).
Proof. unfold aside. cbn. repeat split. Qed.

Lemma runEffects_aside prev r :
  submitChanged prev (depsOf r) = false ->
  respects aside (runEffects prev r).
Proof.
  intros Hs. unfold runEffects, reinitEffect, validationEffect.
  rewrite Hs.
  respects_with ltac:(first [ apply resetForm_aside
                            | apply validateForm_aside
                            | aside_step ]).
Qed.

Lemma submitChanged_aside d w w' :
  isSubmitting (state w') = isSubmitting (state w) ->
  submitChanged d (depsOf (render w')) = submitChanged d (depsOf (render w)).
Proof.
  intros E. unfold submitChanged, depsOf. cbn. now rewrite E.
Qed.

(** Renders that do not start with a change of [isSubmitting] leave the
    submission alone. *)
Lemma flush_aside n : forall w,
  submitChanged (lastDeps w) (depsOf (render w)) = false ->
  aside w (exec (flush n) w).
Proof.
  induction n as [ | n IH ]; intros w Hs; [ reflexivity | ].
  rewrite flush_S. destruct (depsChanged _ _); [ | reflexivity ].
  assert (E : exec commit w
              = withLastDeps (Some (depsOf (render w)))
                  (snd (runEffects (lastDeps w) (render w) w))).
  { unfold exec. now rewrite commit_eq. }
  assert (A : aside w (exec commit w)).
  { rewrite E.
    transitivity (snd (runEffects (lastDeps w) (render w) w));
      [ apply (runEffects_aside _ _ Hs) | apply aside_withLastDeps ]. }
  transitivity (exec commit w); [ exact A | ].
  apply IH.
  rewrite (submitChanged_aside _ w); [ | exact (proj1 A) ].
  rewrite E. unfold submitChanged. cbn. now rewrite Bool.eqb_reflx.
Qed.

Lemma handle_aside ev w :
  ev <> EvSettle ->
  (ev = EvSubmit -> isSubmitting (state w) = true) ->
  aside w (exec (handle ev) w)
  /\ lastDeps (exec (handle ev) w) = lastDeps w.
Proof.
  intros Hsettle Hsubmit. destruct ev.
  - split; [ apply change_aside | reflexivity ].
  - split; [ apply setFieldError_aside | reflexivity ].
  - split; [ apply setFieldTouched_aside | reflexivity ].
  - unfold exec. cbn [handle].
    rewrite (submit_in_flight w (Hsubmit eq_refl)). cbn [snd lastDeps].
    split; [ | reflexivity ].
    unfold aside. cbn -[invoked passes].
    rewrite invoked_snoc_emit, passes_snoc_emit. repeat split.
  - split; [ apply resetForm_aside | ].
    apply (resetForm_frame (render w) w).
  - split.
    + unfold exec. cbn [handle]. unfold bind.
      pose proof (validateForm_aside (render w) w) as A.
      destruct (validateForm (render w) w) as [x w1]. exact A.
    + reflexivity.
  - split; [ | reflexivity ]. unfold aside. cbn. repeat split.
  - congruence.
Qed.

Lemma dispatch_aside p ev w :
  reachable p w ->
  ev <> EvSettle ->
  (ev = EvSubmit -> isSubmitting (state w) = true) ->
  aside w (dispatch ev w).
Proof.
  intros Hreach Hsettle Hsubmit.
  destruct (quiescent_parts w (reachable_quiescent p w Hreach))
    as (Hs & _ & _).
  destruct (handle_aside ev w Hsettle Hsubmit) as [A L].
  rewrite dispatch_eq.
  transitivity (exec (handle ev) w); [ exact A | ].
  apply flush_aside. rewrite L.
  rewrite (submitChanged_aside _ w); [ exact Hs | ].
  destruct A as (A1 & _). exact A1.
Qed.

Lemma continuation_settledQuietly r s :
  respects settledQuietly (continuation r s).
Proof.
  assert (Hreset : respects settledQuietly (resetForm r)).
  { intros w0.
    destruct (resetForm_frame r w0) as (F1 & F2 & F3 & _).
    destruct (resetForm_aside r w0) as (_ & Q & _).
    unfold exec in *. unfold settledQuietly.
    repeat split; [ exact F3 | exact F2 | exact Q | right; exact F1 ]. }
  assert (Hbag : forall c, respects settledQuietly (runBagCall c)).
  { intros []; quiet_leaf. }
  assert (Hsucc : forall c, respects settledQuietly (runSuccessCall r c)).
  { intros []. exact Hreset. }
  unfold continuation, onFulfilled, onRejected.
  respects_with ltac:(first [ apply Hbag | apply Hsucc | quiet_leaf ]).
Qed.

Lemma submit_pending_idle w :
  singleFlight w -> isSubmitting (state w) = false -> pending w = [].
Proof.
  intros [_ H] Hidle. destruct (pending w); [ reflexivity | ].
  rewrite H in Hidle; discriminate.
Qed.

(** What a submit on an idle form leaves of the submission: the pass of
    [handleSubmit] in the render that follows. *)
Lemma handleSubmit_flight r w :
  isSubmitting (state w) = true ->
  pending w = [] ->
  singleFlight (exec (handleSubmit r) w).
Proof.
  intros Hs Hp. unfold exec. rewrite handleSubmit_eq.
  destruct (blocked r (validationErrors r)).
  - rewrite validated_eq. unfold singleFlight. cbn. rewrite Hp. cbn.
    split; [ lia | congruence ].
  - destruct (invokeSubmit_aside_but r (validated r w)) as (_ & S & _ & Q).
    unfold exec in S, Q. unfold singleFlight. rewrite S, Q.
    rewrite validated_eq. cbn. rewrite Hp, Hs. cbn.
    split; [ | reflexivity ].
    destruct (settle _); cbn; lia.
Qed.

Lemma reachable_singleFlight p w : reachable p w -> singleFlight w.
Proof.
  induction 1 as [ | w ev Hreach IH ].
  - destruct (mount_eq p) as [d Hd]. rewrite Hd.
    unfold singleFlight, reinitEffect, when, exec. cbn.
    destruct (truthy (enableReinitialize p)).
    + destruct (resetForm_aside (render (initial p)) (initial p))
        as (_ & Q & _).
      rewrite Q. cbn. split; [ lia | congruence ].
    + cbn. split; [ lia | congruence ].
  - assert (Keep : aside w (dispatch ev w) -> singleFlight (dispatch ev w)).
    { intros (A1 & A2 & _). unfold singleFlight. rewrite A1, A2. exact IH. }
    destruct ev; try (apply Keep, (dispatch_aside p); [ exact Hreach
                                                      | discriminate
                                                      | discriminate ]).
    + destruct (isSubmitting (state w)) eqn:Hs.
      * apply Keep, (dispatch_aside p); [ exact Hreach | discriminate | ].
        intros _. exact Hs.
      * destruct (dispatch_submit_idle p w Hreach Hs)
          as (_ & _ & _ & S & _ & _ & Q & _).
        unfold singleFlight. rewrite S, Q.
        apply handleSubmit_flight; [ reflexivity | ].
        exact (submit_pending_idle w IH Hs).
    + destruct (pending w) as [ | [r s] rest ] eqn:Hp.
      * rewrite dispatch_eq.
        assert (E : exec (handle EvSettle) w = w).
        { unfold exec. cbn [handle]. now rewrite Hp. }
        rewrite E. unfold exec.
        rewrite flush_quiescent by exact (reachable_quiescent p w Hreach).
        exact IH.
      * destruct (dispatch_settle p w r s rest Hreach Hp)
          as (_ & _ & _ & S & _ & _ & Q & _).
        destruct (continuation_settledQuietly r s (dropPending w))
          as (_ & _ & Q' & _).
        fold (exec (continuation r s) (dropPending w)) in Q'.
        unfold singleFlight. rewrite Q, Q'. cbn. rewrite Hp. cbn.
        destruct IH as [IH _]. rewrite Hp in IH. cbn in IH.
        destruct rest; [ | cbn in IH; lia ].
        split; [ cbn; lia | congruence ].
Qed.

(** X11. At most one submission is outstanding: in every state the form can
    reach, at most one promise of [onSubmit] awaits its [.then]/[.catch]
    chain, and [isSubmitting] is [true] while one does. *)
Theorem at_most_one_submission_is_outstanding (p : FormOptions) (w : World) :
  reachable p w ->
  (List.length (pending w) <= 1)%nat
  /\ (pending w <> [] -> isSubmitting (state w) = true)
  /\ (isSubmitting (state w) = false -> pending w = []).
Proof.
  intros Hreach.
  pose proof (reachable_singleFlight p w Hreach) as [H1 H2].
  repeat split; [ exact H1 | exact H2 | ].
  apply submit_pending_idle. split; assumption.
Qed.

(** X12. Nothing but a submit on an idle form and the promise chain touches
    a submission: every other event (an edit, a touch, a field error, a
    reset, a validation, new [initialValues], a submit while submitting)
    leaves [isSubmitting], the outstanding promise, the callbacks called and
    the number of [handleSubmit] passes as they were. In particular
    [resetForm] during a submission does not end it. *)
Theorem other_events_leave_the_submission_alone
  (p : FormOptions) (w : World) (ev : Event) :
  reachable p w ->
  ev <> EvSettle ->
  (ev = EvSubmit -> isSubmitting (state w) = true) ->
  let w' := dispatch ev w in
  isSubmitting (state w') = isSubmitting (state w)
  /\ pending w' = pending w
  /\ invoked (trace w') = invoked (trace w)
  /\ passes (trace w') = passes (trace w).
Proof.
  intros Hreach Hsettle Hsubmit.
  exact (dispatch_aside p ev w Hreach Hsettle Hsubmit).
Qed.

(** X13. [submit()] on an idle form whose validation does not block it:
    the render that follows runs [handleSubmit] once; [onSubmit] is called
    once, with the values of that render; [isSubmitting] stays [true]; the
    touched tree is derived from the validation errors; and the promise is
    outstanding together with the closures of that render, unless it never
    settles. *)
Theorem submit_on_an_idle_form_calls_onSubmit_once
  (p : FormOptions) (w : World) :
  reachable p w ->
  isSubmitting (state w) = false ->
  blocked (render w) (validationErrors (render w)) = false ->
  let w' := dispatch EvSubmit w in
  let started :=
    mkRender (props w)
      (mkFormState (values (state w)) (touched (state w)) (errors (state w))
         true (formError (state w)))
      (isDirty w) in
  invoked (trace w')
  = invoked (trace w) ++ [OnSubmit (tree (values (state w)))]
  /\ passes (trace w') = S (passes (trace w))
  /\ isSubmitting (state w') = true
  /\ tree (touched (state w'))
     = deriveInitial (validationErrors (render w)) (VBool true)
  /\ pending w'
     = match settle (sOutcome (onSubmit (props w)
                                 (tree (values (state w))))) with
       | Some s => [(started, s)]
       | None => []
       end.
Proof.
  intros Hreach Hidle Hfree. cbn zeta.
  pose proof (submit_pending_idle w (reachable_singleFlight p w Hreach) Hidle)
    as Hp.
  destruct (dispatch_submit_idle p w Hreach Hidle)
    as (_ & _ & T & S & _ & _ & Q & I & N & _).
  rewrite T, S, Q, I, N. clear T S Q I N.
  set (w1 := exec submit w).
  unfold exec. rewrite handleSubmit_eq.
  change (blocked (render w1) (validationErrors (render w1)))
    with (blocked (render w) (validationErrors (render w))).
  rewrite Hfree.
  destruct (invokeSubmit_aside_but (render w1) (validated (render w1) w1))
    as (Ht & Hsb & Hi & Hq).
  unfold exec in Ht, Hsb, Hi, Hq. rewrite Ht, Hsb, Hi, Hq.
  clear Ht Hsb Hi Hq.
  assert (Hpass : passes (trace (snd (invokeSubmit (render w1)
                                        (validated (render w1) w1))))
                  = S (passes (trace w))).
  { rewrite invokeSubmit_eq. cbn zeta.
    set (run := onSubmit _ _).
    assert (A : aside
                  (exec (record (Invoke (OnSubmit
                                   (tree (values (rState (render w1)))))))
                     (validated (render w1) w1))
                  (exec (forEach runBagCall (sCalls run))
                     (exec (record (Invoke (OnSubmit
                                      (tree (values (rState (render w1)))))))
                        (validated (render w1) w1)))).
    { apply (respects_forEach aside). intros c. apply runBagCall_aside. }
    destruct A as (_ & _ & _ & A).
    assert (B : passes (trace (exec (record (Invoke (OnSubmit
                                      (tree (values (rState (render w1)))))))
                                 (validated (render w1) w1)))
                = S (passes (trace w))).
    { rewrite validated_eq. unfold exec, record, modify. cbn -[passes].
      unfold passes. rewrite !filter_app, !length_app. cbn. lia. }
    rewrite B in A.
    set (w2 := exec (forEach runBagCall (sCalls run)) _) in *.
    destruct (settle (sOutcome run)) as [ s | ]; [ | exact A ].
    change (trace (snd (defer (render w1) s w2))) with (trace w2).
    exact A. }
  rewrite Hpass. rewrite validated_eq. cbn -[invoked].
  change (trace w1) with (trace w ++ [Emit ["s"]]).
  change ((trace w ++ [Emit ["s"]]) ++ [Enter OpHandleSubmit; Emit ?a])
    with ((trace w ++ [Emit ["s"]]) ++ [Enter OpHandleSubmit] ++ [Emit a]).
  rewrite !app_assoc, !invoked_snoc_emit, invoked_snoc_enter,
    invoked_snoc_emit.
  rewrite Hp. repeat split.
Qed.

Lemma dispatch_settle_eq p w r s rest :
  reachable p w ->
  pending w = (r, s) :: rest ->
  exists d,
    dispatch EvSettle w
    = withLastDeps d (exec (continuation r s) (dropPending w)).
Proof.
  intros Hreach Hpending.
  pose proof (reachable_quiescent p w Hreach) as Hq.
  pose proof (quiescent_lastDeps w Hq) as Hl.
  destruct (quiescent_parts w Hq) as (_ & Hre & Hval).
  rewrite dispatch_eq.
  assert (E : exec (handle EvSettle) w
              = exec (continuation r s) (dropPending w)).
  { unfold exec. cbn [handle]. rewrite Hpending. unfold bind.
    destruct (continuation r s (dropPending w)) as [x w1]. reflexivity. }
  rewrite E.
  destruct (continuation_settledQuietly r s (dropPending w))
    as (P & L & _ & D).
  fold (exec (continuation r s) (dropPending w)) in P, L, D.
  set (w1 := exec (continuation r s) (dropPending w)) in *.
  change (props (dropPending w)) with (props w) in P.
  change (lastDeps (dropPending w)) with (lastDeps w) in L.
  change (state (dropPending w)) with (state w) in D.
  change (isDirty (dropPending w)) with (isDirty w) in D.
  apply flush_nothing_due.
  - intros _. apply continuation_idle.
  - intros Hc. exfalso. rewrite L, Hl in Hc.
    unfold reinitChanged, depsOf in Hc. cbn in Hc. rewrite P in Hc.
    rewrite Dep_eqb_refl in Hc. discriminate.
  - intros Hc.
    destruct D as [(V & T & I) | I]; [ exfalso | rewrite I;
                                                 apply Bool.andb_false_r ].
    assert (E' : validationDeps (depsOf (render w1))
                 = validationDeps (depsOf (render w))).
    { unfold depsOf, blurDep, changeDep. cbn. now rewrite P, V, T, I. }
    rewrite L, Hl in Hc. unfold validationChanged in Hc.
    rewrite E', triple_eqb_refl in Hc. discriminate.
Qed.

(** X14. When the promise of [onSubmit] settles, the [.then]/[.catch] chain
    is all that runs: the render that follows starts no validation and no
    reset, whatever the hooks did through their bags, so the errors a hook
    set with [setErrors] and the values a hook reset are what the form
    holds afterwards. The form is idle again and no promise is left. *)
Theorem settling_runs_the_chain_and_nothing_else
  (p : FormOptions) (w : World) (r : Render) (s : Settled)
  (rest : list (Render * Settled)) :
  reachable p w ->
  pending w = (r, s) :: rest ->
  let w' := dispatch EvSettle w in
  let chain := exec (continuation r s) (dropPending w) in
  state w' = state chain
  /\ isDirty w' = isDirty chain
  /\ trace w' = trace chain
  /\ isSubmitting (state w') = false
  /\ pending w' = []
  /\ rest = [].
Proof.
  intros Hreach Hp. cbn zeta.
  destruct (dispatch_settle_eq p w r s rest Hreach Hp) as [d Hd].
  rewrite Hd. cbn [state isDirty trace pending withLastDeps].
  destruct (continuation_settledQuietly r s (dropPending w))
    as (_ & _ & Q & _).
  fold (exec (continuation r s) (dropPending w)) in Q.
  rewrite Q. cbn. rewrite Hp. cbn.
  destruct (reachable_singleFlight p w Hreach) as [Hlen _].
  rewrite Hp in Hlen. cbn in Hlen.
  assert (Hrest : rest = [])
    by (destruct rest; [ reflexivity | cbn in Hlen; lia ]).
  repeat split; [ apply continuation_idle | exact Hrest | exact Hrest ].
Qed.

(** X15. The [resetForm] handed to [onSuccess] is the one of the render
    that started the submission. When the hook calls it, the values become
    the [initialValues] of that render and the form is clean, but the paths
    published are those of the values that were submitted: a field that was
    edited while the promise was outstanding, and is in neither, is reset
    without its path being published. *)
Theorem onSuccess_resets_with_the_closures_of_the_submitting_render
  (p : FormOptions) (w : World) (r : Render) (result : Value)
  (rest : list (Render * Settled)) (hook : Value -> HookRun SuccessCall) :
  reachable p w ->
  pending w = (r, Fulfilled result) :: rest ->
  onSuccess (rProps r) = Some hook ->
  hCalls (hook result) = [CallResetForm] ->
  hThrows (hook result) = None ->
  let w' := dispatch EvSettle w in
  values (state w') = orEmpty (initialValues (rProps r))
  /\ isDirty w' = false
  /\ isSubmitting (state w') = false
  /\ trace w'
     = trace w
       ++ [Emit ["s"];
           Invoke (OnSuccess result);
           Enter OpResetForm;
           Emit (deriveKeys (tree (orEmpty (initialValues (rProps r))))
                 ++ deriveKeys (tree (values (rState r))))].
Proof.
  intros Hreach Hp Hhook Hcalls Hthrows. cbn zeta.
  destruct (dispatch_settle_eq p w r (Fulfilled result) rest Hreach Hp)
    as [d Hd].
  rewrite Hd. cbn [state isDirty trace withLastDeps].
  unfold exec, continuation, bind. rewrite onFulfilled_eq, Hhook, Hthrows.
  cbn [snd ret]. rewrite Hcalls.
  unfold forEach, runSuccessCall, resetForm, hookPoint, exec. cbn.
  destruct (initialErrors (rProps r)); cbn; repeat split;
    now rewrite <- !app_assoc.
Qed.

End SingleFlight.

Section Edits.
Context {helpers : Helpers}.

(** X16. Edits accumulate across renders, not within one. Two edits made in
    successive events both end up in [values]; two [change] calls made from
    the same render both publish their path, but the second one starts from
    the values of that render again, so the first edit is lost, also after
    the render that follows. *)
Theorem edits_accumulate_across_renders_not_within_one
  (p : FormOptions) (w : World) (f1 f2 : string) (v1 v2 : Value) :
  reachable p w ->
  tree (values (state (dispatch (EvChange f2 v2)
                         (dispatch (EvChange f1 v1) w))))
  = set (set (tree (values (state w))) f1 v1) f2 v2
  /\ (let w1 :=
        exec (change (render w) f1 v1 ;; change (render w) f2 v2) w in
      trace w1
      = trace w
        ++ [Enter (OpChange f1 v1); Emit [f1];
            Enter (OpChange f2 v2); Emit [f2]]
      /\ tree (values (state w1)) = set (tree (values (state w))) f2 v2
      /\ tree (values (state (exec (flush rounds) w1)))
         = set (tree (values (state w))) f2 v2).
Proof.
  intros Hreach. split.
  - destruct (dispatch_change p w f1 v1 Hreach) as (_ & V1 & _).
    destruct (dispatch_change p _ f2 v2
                (reach_step p w (EvChange f1 v1) Hreach)) as (_ & V2 & _).
    rewrite V2. cbn. rewrite V1. reflexivity.
  - cbn zeta.
    pose proof (reachable_quiescent p w Hreach) as Hq.
    pose proof (quiescent_lastDeps w Hq) as Hl.
    set (w1 := exec (change (render w) f1 v1 ;; change (render w) f2 v2) w).
    assert (Hl1 : lastDeps w1 = Some (depsOf (render w))) by exact Hl.
    split; [ unfold w1; cbn; now rewrite <- !app_assoc | ].
    split; [ reflexivity | ].
    destruct (flush_revalidated rounds w1) as (_ & V & _).
    + rewrite Hl1. unfold submitChanged. cbn. now rewrite Bool.eqb_reflx.
    + rewrite Hl1. unfold reinitChanged. cbn. now rewrite Dep_eqb_refl.
    + rewrite V. reflexivity.
Qed.

End Edits.

Section Hung.
Context {helpers : Helpers}.

Lemma dispatch_settle_nothing p w :
  reachable p w -> pending w = [] -> dispatch EvSettle w = w.
Proof.
  intros Hreach Hp. rewrite dispatch_eq.
  assert (E : exec (handle EvSettle) w = w).
  { unfold exec. cbn [handle]. now rewrite Hp. }
  rewrite E. unfold exec.
  now rewrite flush_quiescent by exact (reachable_quiescent p w Hreach).
Qed.

Lemma run_reachable p evs : forall w,
  reachable p w -> reachable p (run evs w).
Proof.
  induction evs as [ | ev evs IH ]; intros w Hreach; [ exact Hreach | ].
  cbn. apply IH, reach_step, Hreach.
Qed.

(** X17. A promise of [onSubmit] that never settles leaves the form
    submitting for good: only the [.then]/[.catch] chain sets
    [isSubmitting] back to [false], so from a state that is submitting with
    no promise left to settle, no sequence of events ends the submission,
    calls a callback or starts another pass of [handleSubmit]. *)
Theorem a_submission_that_never_settles_never_ends
  (p : FormOptions) (w : World) (evs : list Event) :
  reachable p w ->
  isSubmitting (state w) = true ->
  pending w = [] ->
  let w' := run evs w in
  isSubmitting (state w') = true
  /\ pending w' = []
  /\ invoked (trace w') = invoked (trace w)
  /\ passes (trace w') = passes (trace w).
Proof.
  cbn zeta. revert w.
  induction evs as [ | ev evs IH ]; intros w Hreach Hs Hp.
  - repeat split; assumption.
  - cbn [run fold_left].
    change (fold_left (fun w0 ev0 => dispatch ev0 w0) evs (dispatch ev w))
      with (run evs (dispatch ev w)).
    assert (A : aside w (dispatch ev w)).
    { destruct ev;
        try (apply (dispatch_aside p); [ exact Hreach | discriminate | ];
             first [ discriminate | intros _; exact Hs ]).
      rewrite (dispatch_settle_nothing p w Hreach Hp). reflexivity. }
    destruct A as (A1 & A2 & A3 & A4).
    destruct (IH (dispatch ev w)) as (I1 & I2 & I3 & I4).
    + apply reach_step, Hreach.
    + now rewrite A1.
    + now rewrite A2.
    + repeat split; congruence.
Qed.

End Hung.

Lemma effects_settle_in_two_rounds_witness :
  2 <= rounds
  /\ exec (flush rounds) (initial Scenario.config)
     = exec (flush 2) (initial Scenario.config).
Proof.
  assert (H : 2 <= rounds) by (unfold rounds; lia).
  split; [ exact H | ].
  exact (proj2 (effects_settle_in_two_rounds rounds
                  (initial Scenario.config) H)).
Defined.

Lemma new_initialValues_reset_the_form_witness :
  truthy (enableReinitialize (props (mount Cases.reinitializing))) = true
  /\ reinitDeps (depsOf (render (withInitialValues Cases.nextInitialValues
                                   (mount Cases.reinitializing))))
     <> reinitDeps (depsOf (render (mount Cases.reinitializing)))
  /\ values (state (dispatch (EvInitialValues Cases.nextInitialValues)
                      (mount Cases.reinitializing)))
     = orEmpty Cases.nextInitialValues.
Proof.
  assert (He : truthy (enableReinitialize
                         (props (mount Cases.reinitializing))) = true)
    by (vm_compute; reflexivity).
  assert (Hn : reinitDeps (depsOf (render (withInitialValues
                                             Cases.nextInitialValues
                                             (mount Cases.reinitializing))))
               <> reinitDeps (depsOf (render (mount Cases.reinitializing))))
    by (vm_compute; discriminate).
  split; [ exact He | ].
  split; [ exact Hn | ].
  exact (proj1 (proj2 (new_initialValues_reset_the_form Cases.reinitializing
                         (mount Cases.reinitializing)
                         Cases.nextInitialValues
                         (reach_mount Cases.reinitializing) He Hn))).
Defined.

Lemma initialValues_are_ignored_without_enableReinitialize_witness :
  truthy (enableReinitialize (props Scenario.edited)) = false
  /\ state (dispatch (EvInitialValues Cases.nextInitialValues) Scenario.edited)
     = state Scenario.edited.
Proof.
  assert (He : truthy (enableReinitialize (props Scenario.edited)) = false)
    by (vm_compute; reflexivity).
  split; [ exact He | ].
  exact (proj1 (initialValues_are_ignored_without_enableReinitialize
                  Scenario.config Scenario.edited Cases.nextInitialValues
                  edited_reachable (or_introl He))).
Defined.

Lemma at_most_one_submission_is_outstanding_witness :
  (List.length (pending Scenario.inFlight) <= 1)%nat.
Proof.
  exact (proj1 (at_most_one_submission_is_outstanding Scenario.config
                  Scenario.inFlight inFlight_reachable)).
Defined.

Lemma other_events_leave_the_submission_alone_witness :
  EvResetForm <> EvSettle
  /\ isSubmitting (state (dispatch EvResetForm Scenario.inFlight))
     = isSubmitting (state Scenario.inFlight).
Proof.
  assert (H1 : EvResetForm <> EvSettle) by discriminate.
  assert (H2 : EvResetForm = EvSubmit ->
               isSubmitting (state Scenario.inFlight) = true)
    by discriminate.
  split; [ exact H1 | ].
  exact (proj1 (other_events_leave_the_submission_alone Scenario.config
                  Scenario.inFlight EvResetForm inFlight_reachable H1 H2)).
Defined.

Lemma submit_on_an_idle_form_calls_onSubmit_once_witness :
  isSubmitting (state (mount Scenario.config)) = false
  /\ blocked (render (mount Scenario.config))
       (validationErrors (render (mount Scenario.config))) = false
  /\ isSubmitting (state (dispatch EvSubmit (mount Scenario.config))) = true.
Proof.
  assert (Hi : isSubmitting (state (mount Scenario.config)) = false)
    by (vm_compute; reflexivity).
  assert (Hb : blocked (render (mount Scenario.config))
                 (validationErrors (render (mount Scenario.config))) = false)
    by (vm_compute; reflexivity).
  split; [ exact Hi | ].
  split; [ exact Hb | ].
  exact (proj1 (proj2 (proj2 (submit_on_an_idle_form_calls_onSubmit_once
                                Scenario.config (mount Scenario.config)
                                (reach_mount Scenario.config) Hi Hb)))).
Defined.

Lemma settling_runs_the_chain_and_nothing_else_witness :
  pending Scenario.inFlight
  = [(Scenario.submitting, Fulfilled (VStr "ok"))]
  /\ isSubmitting (state (dispatch EvSettle Scenario.inFlight)) = false.
Proof.
  assert (Hp : pending Scenario.inFlight
               = [(Scenario.submitting, Fulfilled (VStr "ok"))])
    by (vm_compute; reflexivity).
  split; [ exact Hp | ].
  destruct (settling_runs_the_chain_and_nothing_else Scenario.config
              Scenario.inFlight Scenario.submitting (Fulfilled (VStr "ok"))
              [] inFlight_reachable Hp) as (_ & _ & _ & S1 & _).
  exact S1.
Defined.

Lemma editedInFlight_reachable :
  reachable Cases.resetting Cases.editedInFlight.
Proof.
  unfold Cases.editedInFlight, run. cbn [fold_left].
  apply reach_step, reach_step, reach_step, reach_mount.
Defined.

Lemma onSuccess_resets_with_the_closures_of_the_submitting_render_witness :
  let r :=
    render (exec submit
              (dispatch (EvChange "age" (VNum 5)) (mount Cases.resetting))) in
  pending Cases.editedInFlight = [(r, Fulfilled (VStr "ok"))]
  /\ PathOps.child (tree (values (state Cases.editedInFlight))) "name"
     = VStr "x"
  /\ emitted (trace (dispatch EvSettle Cases.editedInFlight))
     = emitted (trace Cases.editedInFlight) ++ [["s"]; ["age"; "age"]].
Proof.
  cbn zeta.
  set (r := render (exec submit
                      (dispatch (EvChange "age" (VNum 5))
                         (mount Cases.resetting)))).
  assert (Hp : pending Cases.editedInFlight = [(r, Fulfilled (VStr "ok"))])
    by (vm_compute; reflexivity).
  split; [ exact Hp | ].
  split; [ vm_compute; reflexivity | ].
  destruct (onSuccess_resets_with_the_closures_of_the_submitting_render
              Cases.resetting Cases.editedInFlight r (VStr "ok") []
              (fun _ => mkHookRun [CallResetForm] None)
              editedInFlight_reachable Hp eq_refl eq_refl eq_refl)
    as (_ & _ & _ & T).
  rewrite T. vm_compute. reflexivity.
Defined.

Lemma edits_accumulate_across_renders_not_within_one_witness :
  tree (values (state (dispatch (EvChange "name" (VStr "x"))
                         (dispatch (EvChange "age" (VNum 5))
                            (mount Scenario.config)))))
  = set (set (tree (values (state (mount Scenario.config))))
           "age" (VNum 5)) "name" (VStr "x").
Proof.
  exact (proj1 (edits_accumulate_across_renders_not_within_one
                  Scenario.config (mount Scenario.config) "age" "name"
                  (VNum 5) (VStr "x") (reach_mount Scenario.config))).
Defined.

Lemma hung_reachable : reachable Cases.hanging Cases.hung.
Proof.
  unfold Cases.hung, run. cbn [fold_left].
  apply reach_step, reach_step, reach_mount.
Defined.

Lemma a_submission_that_never_settles_never_ends_witness :
  isSubmitting (state Cases.hung) = true
  /\ pending Cases.hung = []
  /\ isSubmitting
       (state (run [EvSettle; EvResetForm; EvSubmit; EvSettle] Cases.hung))
     = true.
Proof.
  assert (Hs : isSubmitting (state Cases.hung) = true)
    by (vm_compute; reflexivity).
  assert (Hp : pending Cases.hung = []) by (vm_compute; reflexivity).
  split; [ exact Hs | ].
  split; [ exact Hp | ].
  exact (proj1 (a_submission_that_never_settles_never_ends Cases.hanging
                  Cases.hung [EvSettle; EvResetForm; EvSubmit; EvSettle]
                  hung_reachable Hs Hp)).
Defined.

(** ** The dirty flag, event by event *)

Lemma marks_app t1 t2 : marks (t1 ++ t2) = marks t1 ++ marks t2.
Proof. apply filter_app. Qed.

#[local] Instance sameFlag_pre : PreOrder sameFlag.
Proof.
  split.
  - intros w. unfold sameFlag. auto.
  - intros a b c (D1 & M1) (D2 & M2). unfold sameFlag.
    split; congruence.
Qed.

Ltac flag_leaf :=
  solve [ intros ?w; prim_steps; cbv [sameFlag modify alloc withState snd];
          cbn -[marks]; rewrite ?marks_app; cbn; rewrite ?app_nil_r;
          split; reflexivity ].

Section Flag.
Context {helpers : Helpers}.

Lemma validateForm_sameFlag r : respects sameFlag (validateForm r).
Proof. unfold validateForm. respects_with flag_leaf. Qed.

Lemma runBagCall_sameFlag c : respects sameFlag (runBagCall c).
Proof. destruct c; flag_leaf. Qed.

Lemma handleSubmit_sameFlag r : respects sameFlag (handleSubmit r).
Proof.
  unfold handleSubmit, invokeSubmit.
  respects_with ltac:(first [ apply validateForm_sameFlag
                            | apply runBagCall_sameFlag
                            | flag_leaf ]).
Qed.

Lemma setFieldError_sameFlag r f e : respects sameFlag (setFieldError r f e).
Proof. unfold setFieldError. respects_with flag_leaf. Qed.

Lemma setFieldTouched_sameFlag r f b :
  respects sameFlag (setFieldTouched r f b).
Proof. unfold setFieldTouched. respects_with flag_leaf. Qed.

Lemma submit_sameFlag : respects sameFlag submit.
Proof. unfold submit. respects_with flag_leaf. Qed.

Lemma onRejected_sameFlag r e : respects sameFlag (onRejected r e).
Proof.
  unfold onRejected.
  respects_with ltac:(first [ apply runBagCall_sameFlag | flag_leaf ]).
Qed.

Lemma runEffects_sameFlag prev r :
  reinitChanged prev (depsOf r) = false ->
  respects sameFlag (runEffects prev r).
Proof.
  intros Hr. unfold runEffects, submitEffect, validationEffect.
  rewrite Hr.
  respects_with ltac:(first [ apply handleSubmit_sameFlag
                            | apply validateForm_sameFlag
                            | flag_leaf ]).
Qed.

Lemma reinitChanged_props d w w' :
  props w' = props w ->
  reinitChanged d (depsOf (render w')) = reinitChanged d (depsOf (render w)).
Proof.
  intros E. unfold reinitChanged, depsOf. cbn. now rewrite E.
Qed.

(** Renders in which [initialValues] is the object it was neither set nor
    clear the flag. *)
Lemma flush_sameFlag n : forall w,
  reinitChanged (lastDeps w) (depsOf (render w)) = false ->
  sameFlag w (exec (flush n) w).
Proof.
  induction n as [ | n IH ]; intros w Hr; [ reflexivity | ].
  rewrite flush_S. destruct (depsChanged _ _); [ | reflexivity ].
  assert (E : exec commit w
              = withLastDeps (Some (depsOf (render w)))
                  (snd (runEffects (lastDeps w) (render w) w))).
  { unfold exec. now rewrite commit_eq. }
  assert (A : sameFlag w (exec commit w)).
  { rewrite E.
    transitivity (snd (runEffects (lastDeps w) (render w) w));
      [ apply (runEffects_sameFlag _ _ Hr) | ].
    unfold sameFlag. cbn. auto. }
  transitivity (exec commit w); [ exact A | ].
  apply IH.
  rewrite (reinitChanged_props _ w).
  - rewrite E. unfold reinitChanged. cbn. now rewrite Dep_eqb_refl.
  - rewrite E. cbn [props withLastDeps].
    apply (runEffects_calm (lastDeps w) (render w) w).
Qed.

Lemma handle_settle_eq w r s rest :
  pending w = (r, s) :: rest ->
  exec (handle EvSettle) w = exec (continuation r s) (dropPending w).
Proof.
  intros Hp. unfold exec. cbn [handle]. rewrite Hp. unfold bind.
  destruct (continuation r s (dropPending w)) as [x w1]. reflexivity.
Qed.

Lemma handle_frame ev w :
  (forall iv, ev <> EvInitialValues iv) ->
  props (exec (handle ev) w) = props w
  /\ lastDeps (exec (handle ev) w) = lastDeps w.
Proof.
  intros Hev. destruct ev.
  - split; reflexivity.
  - split; reflexivity.
  - split; reflexivity.
  - split; reflexivity.
  - destruct (resetForm_frame (render w) w) as (_ & L & P & _).
    split; [ exact P | exact L ].
  - split; reflexivity.
  - exfalso. exact (Hev iv eq_refl).
  - destruct (pending w) as [ | [r s] rest ] eqn:Hp.
    + unfold exec. cbn [handle]. rewrite Hp. split; reflexivity.
    + rewrite (handle_settle_eq w r s rest Hp).
      destruct (continuation_calm r s (dropPending w)) as (P & L & _).
      split; [ exact P | exact L ].
Qed.

(** The renders that follow a handler leave the flag and the marks as the
    handler left them, unless the props changed. *)
Lemma dispatch_after_handle p ev w :
  reachable p w ->
  (forall iv, ev <> EvInitialValues iv) ->
  sameFlag (exec (handle ev) w) (dispatch ev w).
Proof.
  intros Hreach Hev.
  destruct (quiescent_parts w (reachable_quiescent p w Hreach))
    as (_ & Hr & _).
  destruct (handle_frame ev w Hev) as [P L].
  rewrite dispatch_eq. apply flush_sameFlag.
  rewrite L, (reinitChanged_props _ w); [ exact Hr | exact P ].
Qed.

Lemma change_flag r f v w :
  isDirty (exec (change r f v) w) = true
  /\ marks (trace (exec (change r f v) w))
     = marks (trace w) ++ [Enter (OpChange f v)].
Proof.
  split; [ reflexivity | ].
  unfold change, exec. cbn -[marks]. rewrite !marks_app. cbn.
  now rewrite app_nil_r.
Qed.

Lemma resetForm_flag r w :
  isDirty (exec (resetForm r) w) = false
  /\ marks (trace (exec (resetForm r) w))
     = marks (trace w) ++ [Enter OpResetForm].
Proof.
  destruct (resetForm_does r w) as (D & _ & _ & _ & _ & T).
  split; [ exact D | ]. rewrite T, marks_app. reflexivity.
Qed.

Lemma forEach_resets r l : forall w,
  isDirty (exec (forEach (runSuccessCall r) l) w)
  = (if (0 <? List.length l)%nat then false else isDirty w)
  /\ marks (trace (exec (forEach (runSuccessCall r) l) w))
     = marks (trace w) ++ repeat (Enter OpResetForm) (List.length l).
Proof.
  induction l as [ | [] l IH ]; intros w.
  - cbn. now rewrite app_nil_r.
  - assert (E : exec (forEach (runSuccessCall r) (CallResetForm :: l)) w
                = exec (forEach (runSuccessCall r) l)
                    (exec (resetForm r) w)).
    { unfold exec. cbn [forEach runSuccessCall]. unfold bind.
      destruct (resetForm r w) as [[] w1]. reflexivity. }
    rewrite E. destruct (IH (exec (resetForm r) w)) as [D M].
    destruct (resetForm_flag r w) as [D0 M0].
    rewrite D, M, D0, M0, <- app_assoc. cbn [List.length repeat app].
    split; [ | reflexivity ].
    destruct (0 <? List.length l)%nat; reflexivity.
Qed.

Lemma onFulfilled_flag r v w :
  isDirty (exec (onFulfilled r v) w)
  = (if (0 <? chainResets r (Fulfilled v))%nat then false else isDirty w)
  /\ marks (trace (exec (onFulfilled r v) w))
     = marks (trace w)
       ++ repeat (Enter OpResetForm) (chainResets r (Fulfilled v)).
Proof.
  unfold exec at 1 2. rewrite onFulfilled_eq. unfold chainResets.
  destruct (onSuccess (rProps r)) as [hook | ]; cbn [snd].
  - destruct (forEach_resets r (hCalls (hook v))
                (exec (record (Invoke (OnSuccess v))) (hookPoint w)))
      as [D M].
    rewrite D, M. unfold hookPoint, record, modify, exec.
    cbn -[marks repeat]. rewrite !marks_app. cbn -[repeat].
    rewrite !app_nil_r. split; reflexivity.
  - unfold hookPoint, exec. cbn -[marks]. rewrite marks_app. cbn.
    rewrite !app_nil_r. split; reflexivity.
Qed.

(** What the chain of a settled promise does to the flag: it clears it when
    the [onSuccess] hook calls [resetForm], and leaves it alone otherwise. *)
Lemma continuation_flag r s w :
  isDirty (exec (continuation r s) w)
  = (if (0 <? chainResets r s)%nat then false else isDirty w)
  /\ marks (trace (exec (continuation r s) w))
     = marks (trace w) ++ repeat (Enter OpResetForm) (chainResets r s).
Proof.
  destruct s as [v | e].
  - destruct (onFulfilled_flag r v w) as [D M].
    unfold exec at 1 2. rewrite continuation_fulfilled.
    destruct (fst (onFulfilled r v w)) as [thrown | ].
    + destruct (onRejected_sameFlag r thrown (exec (onFulfilled r v) w))
        as [D1 M1].
      rewrite D1, M1. split; [ exact D | exact M ].
    + cbn [snd]. split; [ exact D | exact M ].
  - destruct (onRejected_sameFlag r e w) as [D M].
    unfold exec, chainResets. cbn [continuation repeat].
    rewrite D, M, app_nil_r. split; reflexivity.
Qed.

Lemma dispatch_initialValues p w iv :
  reachable p w ->
  exists d,
    dispatch (EvInitialValues iv) w
    = withLastDeps d
        (if truthy (enableReinitialize (props w))
            && reinitChanged (Some (depsOf (render w)))
                 (depsOf (render (withInitialValues iv w)))
         then exec (resetForm (render (withInitialValues iv w)))
                (withInitialValues iv w)
         else withInitialValues iv w).
Proof.
  intros Hreach.
  pose proof (reachable_quiescent p w Hreach) as Hq.
  pose proof (quiescent_lastDeps w Hq) as Hl.
  destruct (quiescent_parts w Hq) as (_ & _ & Hv).
  rewrite dispatch_eq.
  change (exec (handle (EvInitialValues iv)) w) with (withInitialValues iv w).
  assert (Hs : submitChanged (lastDeps (withInitialValues iv w))
                 (depsOf (render (withInitialValues iv w))) = false).
  { cbn [lastDeps withInitialValues]. rewrite Hl.
    unfold submitChanged. cbn. now rewrite Bool.eqb_reflx. }
  assert (Hr : reinitChanged (lastDeps (withInitialValues iv w))
                 (depsOf (render (withInitialValues iv w)))
               = reinitChanged (Some (depsOf (render w)))
                   (depsOf (render (withInitialValues iv w)))).
  { cbn [lastDeps withInitialValues]. now rewrite Hl. }
  destruct (truthy (enableReinitialize (props w))) eqn:Hen;
    destruct (reinitChanged (Some (depsOf (render w)))
                (depsOf (render (withInitialValues iv w)))) eqn:Hch;
    cbn [andb].
  - unfold rounds. apply flush_reinit; [ exact Hs | | exact Hen ].
    now rewrite Hr.
  - apply flush_nothing_due.
    + rewrite Hs. discriminate.
    + rewrite Hr. discriminate.
    + intros Hc. exfalso.
      assert (E : validationChanged (lastDeps (withInitialValues iv w))
                    (depsOf (render (withInitialValues iv w)))
                  = validationChanged (lastDeps w) (depsOf (render w)))
        by reflexivity.
      rewrite E, Hv in Hc. discriminate.
  - apply flush_nothing_due.
    + rewrite Hs. discriminate.
    + intros _. exact Hen.
    + intros Hc. exfalso.
      assert (E : validationChanged (lastDeps (withInitialValues iv w))
                    (depsOf (render (withInitialValues iv w)))
                  = validationChanged (lastDeps w) (depsOf (render w)))
        by reflexivity.
      rewrite E, Hv in Hc. discriminate.
  - apply flush_nothing_due.
    + rewrite Hs. discriminate.
    + rewrite Hr. discriminate.
    + intros Hc. exfalso.
      assert (E : validationChanged (lastDeps (withInitialValues iv w))
                    (depsOf (render (withInitialValues iv w)))
                  = validationChanged (lastDeps w) (depsOf (render w)))
        by reflexivity.
      rewrite E, Hv in Hc. discriminate.
Qed.

Lemma mount_flag p :
  isDirty (mount p) = false
  /\ marks (trace (mount p))
     = if truthy (enableReinitialize p) then [Enter OpResetForm] else [].
Proof.
  destruct (mount_eq p) as [d Hd]. rewrite Hd.
  unfold reinitEffect, when, exec. cbn -[marks].
  destruct (truthy (enableReinitialize p)).
  - destruct (resetForm_flag (render (initial p)) (initial p)) as [D M].
    unfold exec in D, M. rewrite D, M. split; reflexivity.
  - cbn. split; reflexivity.
Qed.

(** C7. In every state the form can reach, [isDirty.current] is [true]
    exactly when [change] has run since the last run of [resetForm], or
    since construction if [resetForm] never ran. The runs are those of the
    operations: the form mounts clean; every [change] made through the
    produced interface sets the flag and is one more run of [change]; every
    [resetForm] made through it clears the flag and is one more run of
    [resetForm]; [setFieldError], [setFieldTouched], [submit] and
    [validate] leave the flag alone and run neither; a render with another
    [initialValues] object resets under [enableReinitialize] and does
    nothing to the flag otherwise; and the chain of a settled promise clears
    the flag exactly when the [onSuccess] hook calls [resetForm]. *)
Theorem isDirty_iff_changed_since_reset (p : FormOptions) (w : World) :
  reachable p w ->
  (isDirty w = true <-> changedSinceReset (trace w))
  /\ (isDirty (mount p) = false
      /\ marks (trace (mount p))
         = if truthy (enableReinitialize p) then [Enter OpResetForm] else [])
  /\ (forall fieldId value,
        let w' := dispatch (EvChange fieldId value) w in
        isDirty w' = true
        /\ marks (trace w')
           = marks (trace w) ++ [Enter (OpChange fieldId value)])
  /\ (let w' := dispatch EvResetForm w in
      isDirty w' = false
      /\ marks (trace w') = marks (trace w) ++ [Enter OpResetForm])
  /\ (forall fieldId error,
        sameFlag w (dispatch (EvSetFieldError fieldId error) w))
  /\ (forall fieldId value,
        sameFlag w (dispatch (EvSetFieldTouched fieldId value) w))
  /\ sameFlag w (dispatch EvSubmit w)
  /\ sameFlag w (dispatch EvValidate w)
  /\ (forall iv,
        let w' := dispatch (EvInitialValues iv) w in
        if truthy (enableReinitialize (props w))
           && reinitChanged (Some (depsOf (render w)))
                (depsOf (render (withInitialValues iv w)))
        then isDirty w' = false
             /\ marks (trace w') = marks (trace w) ++ [Enter OpResetForm]
        else sameFlag w w')
  /\ (let w' := dispatch EvSettle w in
      match pending w with
      | [] => w' = w
      | (r, s) :: _ =>
          isDirty w'
          = (if (0 <? chainResets r s)%nat then false else isDirty w)
          /\ marks (trace w')
             = marks (trace w)
               ++ repeat (Enter OpResetForm) (chainResets r s)
      end).
Proof.
  intros Hreach.
  assert (Hafter : forall ev,
             (forall iv, ev <> EvInitialValues iv) ->
             isDirty (dispatch ev w) = isDirty (exec (handle ev) w)
             /\ marks (trace (dispatch ev w))
                = marks (trace (exec (handle ev) w))).
  { intros ev Hev. exact (dispatch_after_handle p ev w Hreach Hev). }
  assert (Hkeep : forall ev,
             (forall iv, ev <> EvInitialValues iv) ->
             sameFlag w (exec (handle ev) w) ->
             sameFlag w (dispatch ev w)).
  { intros ev Hev H. transitivity (exec (handle ev) w); [ exact H | ].
    exact (dispatch_after_handle p ev w Hreach Hev). }
  split; [ exact (reachable_dirtyInv p w Hreach) | ].
  split; [ exact (mount_flag p) | ].
  split.
  { intros f v. cbn zeta.
    destruct (Hafter (EvChange f v)) as [D M]; [ discriminate | ].
    rewrite D, M. exact (change_flag (render w) f v w). }
  split.
  { cbn zeta. destruct (Hafter EvResetForm) as [D M]; [ discriminate | ].
    rewrite D, M. exact (resetForm_flag (render w) w). }
  split.
  { intros f e. apply Hkeep; [ discriminate | ].
    apply setFieldError_sameFlag. }
  split.
  { intros f b. apply Hkeep; [ discriminate | ].
    apply setFieldTouched_sameFlag. }
  split.
  { apply Hkeep; [ discriminate | ]. apply submit_sameFlag. }
  split.
  { apply Hkeep; [ discriminate | ].
    pose proof (validateForm_sameFlag (render w) w) as A.
    unfold exec. cbn [handle]. unfold bind.
    destruct (validateForm (render w) w) as [x w1]. exact A. }
  split.
  { intros iv. cbn zeta.
    destruct (dispatch_initialValues p w iv Hreach) as [d Hd]. rewrite Hd.
    destruct (truthy (enableReinitialize (props w))
              && reinitChanged (Some (depsOf (render w)))
                   (depsOf (render (withInitialValues iv w)))).
    - exact (resetForm_flag (render (withInitialValues iv w))
               (withInitialValues iv w)).
    - unfold sameFlag. cbn. auto. }
  cbn zeta. destruct (pending w) as [ | [r s] rest ] eqn:Hp.
  - exact (dispatch_settle_nothing p w Hreach Hp).
  - destruct (Hafter EvSettle) as [D M]; [ discriminate | ].
    rewrite D, M, (handle_settle_eq w r s rest Hp).
    exact (continuation_flag r s (dropPending w)).
Qed.

End Flag.

Lemma isDirty_iff_changed_since_reset_witness :
  reachable Scenario.config Scenario.edited
  /\ isDirty Scenario.edited = true
  /\ changedSinceReset (trace Scenario.edited)
  /\ isDirty (dispatch EvResetForm Scenario.edited) = false
  /\ ~ changedSinceReset (trace (dispatch EvResetForm Scenario.edited))
  /\ isDirty (dispatch (EvChange "age" (VNum 1))
                (dispatch EvResetForm Scenario.edited))
     = true.
Proof.
  destruct (isDirty_iff_changed_since_reset Scenario.config
              (mount Scenario.config) (reach_mount Scenario.config))
    as (_ & _ & C0 & _).
  destruct (isDirty_iff_changed_since_reset Scenario.config Scenario.edited
              edited_reachable)
    as (I1 & _ & _ & R1 & _).
  destruct (isDirty_iff_changed_since_reset Scenario.config
              (dispatch EvResetForm Scenario.edited)
              (reach_step Scenario.config Scenario.edited EvResetForm
                 edited_reachable))
    as (I2 & _ & C2 & _).
  assert (D1 : isDirty Scenario.edited = true)
    by exact (proj1 (C0 "age" (VNum (-1)))).
  split; [ exact edited_reachable | ].
  split; [ exact D1 | ].
  split; [ exact (proj1 I1 D1) | ].
  split; [ exact (proj1 R1) | ].
  split; [ | exact (proj1 (C2 "age" (VNum 1))) ].
  intros H. apply (proj2 I2) in H.
  rewrite (proj1 R1) in H. discriminate H.
Defined.

(** ** The closures of a reset *)

Section Closures.
Context {helpers : Helpers}.



End Closures.



